(** * Visa bulletin scraper: text normalisation, bulletin parsing, month ranges

    A shallow embedding of [scraper.py].  Python strings are sequences of
    Unicode code points; everything the module takes from the Unicode
    character database (NFKD decomposition, the white-space and alphanumeric
    classes, decimal digit values, case mappings) is gathered in the
    [Unicode] interface, so that statements quantified over all inputs hold
    for every version of the database.  The instance [latin1] fills the
    interface in for texts over U+0000..U+00FF and is used to run the
    functions on concrete inputs.

    Exceptions are values: a computation that can raise has type [res A],
    and [try ... except ValueError] is [try_except_ValueError]. *)

From Stdlib Require Import ZArith NArith Ascii String List Lia Bool DecimalString.
From stdpp Require Import base option list gmap.

Local Open Scope Z_scope.

(** ** Exceptions *)

Inductive exn := ValueError | IndexError | KeyError.

Inductive res (A : Type) : Type :=
| Ok (a : A)
| Raise (e : exn).
Arguments Ok {A} a.
Arguments Raise {A} e.

#[export] Instance res_ret : MRet res := fun A a => Ok a.
#[export] Instance res_bind : MBind res := fun A B k m =>
  match m with
  | Ok a => k a
  | Raise e => Raise e
  end.

(** [try: body except ValueError: handler] *)
Definition try_except_ValueError {A} (body handler : res A) : res A :=
  match body with
  | Raise ValueError => handler
  | r => r
  end.

(** ** Text and the Unicode interface *)

Definition text := list N.

(** A string literal of the source, as code points. *)
Definition pystr (s : string) : text := map N_of_ascii (list_ascii_of_string s).

Class Unicode := {
  (** [unicodedata.normalize("NFKD", s)] *)
  normalize_NFKD : text -> text;
  (** [str.isspace] on one character: the class [\s] of [re] and the
      characters removed by [str.strip()] *)
  isspace : N -> bool;
  (** [str.isalnum] on one character; with the underscore, the class [\w] *)
  isalnum : N -> bool;
  (** value of a decimal digit (category Nd): the class [\d], and [int] *)
  decimal : N -> option Z;
  (** full upper-case mapping of one character, as [str.upper] applies it *)
  to_upper_full : N -> text;
  (** [str.lower] *)
  str_lower : text -> text;
}.

(** Facts about the database that hold in every version of Unicode. *)
Class UnicodeLaws (U : Unicode) : Prop := {
  decimal_bound : forall c v, decimal c = Some v -> 0 <= v < 10;
  decimal_ascii : forall c, (48 <= c <= 57)%N -> decimal c = Some (Z.of_N c - 48);
  decimal_nonspace : forall c v, decimal c = Some v -> isspace c = false;
  to_upper_full_nonempty : forall c, to_upper_full c <> [];
  to_upper_full_nonspace : forall c d,
    isspace c = false -> In d (to_upper_full c) -> isspace d = false;
}.

Section Strings.
Context {U : Unicode}.

(** [re.sub(r"\s+", " ", s)]: every maximal run of white space becomes one
    U+0020.  [in_run] tells that the previous character was white space. *)
Fixpoint re_sub_spaces (in_run : bool) (s : text) : text :=
  match s with
  | [] => []
  | c :: r =>
      if isspace c
      then (if in_run then re_sub_spaces true r else 32%N :: re_sub_spaces true r)
      else c :: re_sub_spaces false r
  end.

(** [s.replace(c, empty)] for a one-character [c]: every [c] is deleted *)
Definition str_remove (c : N) (s : text) : text :=
  List.filter (fun d => negb (N.eqb d c)) s.

Fixpoint str_lstrip (s : text) : text :=
  match s with
  | [] => []
  | c :: r => if isspace c then str_lstrip r else s
  end.

Fixpoint str_rstrip (s : text) : text :=
  match s with
  | [] => []
  | c :: r =>
      match str_rstrip r with
      | [] => if isspace c then [] else [c]
      | d :: r' => c :: d :: r'
      end
  end.

(** [s.strip()] *)
Definition str_strip (s : text) : text := str_rstrip (str_lstrip s).

(** [s.upper()] *)
Definition str_upper (s : text) : text := flat_map to_upper_full s.

Fixpoint str_startswith (p s : text) : bool :=
  match p, s with
  | [], _ => true
  | _ :: _, [] => false
  | a :: p', b :: s' => N.eqb a b && str_startswith p' s'
  end.

(** [needle in hay] *)
Fixpoint str_in (needle hay : text) : bool :=
  str_startswith needle hay ||
  match hay with
  | [] => false
  | _ :: hay' => str_in needle hay'
  end.

(** [_clean_text] *)
Definition _clean_text (raw : text) : text :=
  let s := normalize_NFKD raw in
  let s := re_sub_spaces false s in
  let s := str_remove 173%N s in
  str_strip s.

(** *** Joining hyphen-broken words: [re.sub(r"(\w)-\s*(\w)", r"\1\2", s)] *)

Definition isword (c : N) : bool := isalnum c || N.eqb c 95.

(** [\s*(\w)] at the head of [s]: the character of the group and the number
    of characters consumed.  The star is greedy: a white-space character is
    first taken by [\s*], and tried as the group only when that fails. *)
Fixpoint re_spaces_word (s : text) : option (N * nat) :=
  match s with
  | [] => None
  | c :: r =>
      let here := if isword c then Some (c, 1%nat) else None in
      if isspace c
      then match re_spaces_word r with
           | Some (d, n) => Some (d, S n)
           | None => here
           end
      else here
  end.

(** [(\w)-\s*(\w)] at the head of [s]: the second group and the number of
    characters consumed after the first one. *)
Definition re_hyphen_break (s : text) : option (N * nat) :=
  match s with
  | c :: 45%N :: r =>
      if isword c
      then match re_spaces_word r with
           | Some (d, n) => Some (d, S n)
           | None => None
           end
      else None
  | _ => None
  end.

(** The substitution scans from the left, replaces a match by its two
    groups and resumes after the match: [skip] is the number of characters
    that still belong to the match just replaced. *)
Fixpoint re_sub_hyphen_breaks (skip : nat) (s : text) : text :=
  match s with
  | [] => []
  | c :: r =>
      match skip with
      | S k => re_sub_hyphen_breaks k r
      | O =>
          match re_hyphen_break s with
          | Some (d, n) => c :: d :: re_sub_hyphen_breaks n r
          | None => c :: re_sub_hyphen_breaks 0 r
          end
      end
  end.

(** *** Trailing asterisks: [re.sub] of [\*+$] by the empty text *)

Fixpoint str_rstrip_char (x : N) (s : text) : text :=
  match s with
  | [] => []
  | c :: r =>
      match str_rstrip_char x r with
      | [] => if N.eqb c x then [] else [c]
      | d :: r' => c :: d :: r'
      end
  end.

(** [$] matches at the end of the text and also just before a line feed
    that ends it. *)
Definition re_sub_trailing_stars (s : text) : text :=
  match rev s with
  | 10%N :: 42%N :: _ => str_rstrip_char 42 (removelast s) ++ [10%N]
  | _ => str_rstrip_char 42 s
  end.

(** ** Countries *)

Definition abbrev_map : gmap text text :=
  list_to_map [ (pystr "CH", pystr "China");
                (pystr "IN", pystr "India");
                (pystr "ME", pystr "Mexico");
                (pystr "MX", pystr "Mexico");
                (pystr "PH", pystr "Philippines") ].

(** [normalize_country].  In the first test [and] binds tighter than [or],
    in Python as in the notations [&&] and [||] used here. *)
Definition normalize_country (raw : text) : text :=
  let cleaned := _clean_text raw in
  let dehyphenated := re_sub_hyphen_breaks 0 cleaned in
  let lowered := str_lower dehyphenated in
  if str_in (pystr "chargeability") lowered
     || str_in (pystr "charge") lowered && str_in (pystr "except") lowered
  then pystr "All Chargeability Areas"
  else if str_in (pystr "china") lowered then pystr "China"
  else if str_in (pystr "india") lowered then pystr "India"
  else if str_in (pystr "mexico") lowered then pystr "Mexico"
  else if str_in (pystr "philip") lowered then pystr "Philippines"
  else
    let abbrev := str_strip (str_upper cleaned) in
    match abbrev_map !! abbrev with
    | Some name => name
    | None => cleaned
    end.

(** ** Categories *)

Inductive visatype := family | employment.

(** [x in (a, b, ...)] *)
Definition in_tuple (x : text) (l : list string) : bool :=
  bool_decide (x ∈ map pystr l).

Definition normalize_category (raw : text) (visa_type : visatype) : text :=
  let cleaned := _clean_text raw in
  let cleaned := str_strip (re_sub_trailing_stars cleaned) in
  let dehyphenated := re_sub_hyphen_breaks 0 cleaned in
  let lowered := str_lower dehyphenated in
  match visa_type with
  | family =>
      if in_tuple lowered ["f1"; "1st"; "1st preference"]%string then pystr "F1"
      else if in_tuple lowered ["f2a"; "2a"]%string then pystr "F2A"
      else if in_tuple lowered ["f2b"; "2b"]%string then pystr "F2B"
      else if in_tuple lowered ["f3"; "3rd"; "3rd preference"]%string then pystr "F3"
      else if in_tuple lowered ["f4"; "4th"; "4th preference"]%string then pystr "F4"
      else if (length cleaned <=? 4)%nat then str_upper cleaned
      else cleaned
  | employment =>
      if in_tuple lowered ["1st"; "1st preference"]%string then pystr "EB-1"
      else if in_tuple lowered ["2nd"; "2nd preference"]%string then pystr "EB-2"
      else if in_tuple lowered ["3rd"; "3rd preference"]%string then pystr "EB-3"
      else if str_in (pystr "other worker") lowered then pystr "EB-3 Other Workers"
      else if in_tuple lowered ["4th"; "4th preference"]%string then pystr "EB-4"
      else if str_in (pystr "religious worker") lowered
              || str_in (pystr "religious") lowered && str_in (pystr "worker") lowered
      then pystr "EB-4 Religious Workers"
      else if str_in (pystr "5th") lowered || str_in (pystr "fifth") lowered then
        if str_in (pystr "unreserved") lowered then pystr "EB-5 Unreserved"
        else if str_in (pystr "rural") lowered then pystr "EB-5 Rural"
        else if str_in (pystr "high unemployment") lowered then pystr "EB-5 High Unemployment"
        else if str_in (pystr "infrastructure") lowered then pystr "EB-5 Infrastructure"
        else if str_in (pystr "targeted") lowered || str_in (pystr "regional") lowered
        then pystr "EB-5 Targeted"
        else pystr "EB-5"
      else if str_in (pystr "targeted") lowered && str_in (pystr "employment") lowered
      then pystr "EB-5 Targeted"
      else if str_in (pystr "schedule a") lowered then pystr "Schedule A Workers"
      else if str_in (pystr "iraqi") lowered || str_in (pystr "afghani") lowered
              || str_in (pystr "translator") lowered
      then pystr "Iraqi/Afghani Translators"
      else cleaned
  end.

End Strings.


(** ** The database on U+0000..U+00FF *)

(** Compatibility decomposition of the characters of the Latin-1 Supplement
    (UnicodeData.txt, field 5, applied recursively). *)
Definition latin1_decomposition (c : N) : text :=
  match c with
  | 160 => [32] | 168 => [32; 776] | 170 => [97] | 175 => [32; 772]
  | 178 => [50] | 179 => [51] | 180 => [32; 769] | 181 => [956]
  | 184 => [32; 807] | 185 => [49] | 186 => [111]
  | 188 => [49; 8260; 52] | 189 => [49; 8260; 50] | 190 => [51; 8260; 52]
  | 192 => [65; 768] | 193 => [65; 769] | 194 => [65; 770] | 195 => [65; 771]
  | 196 => [65; 776] | 197 => [65; 778] | 199 => [67; 807]
  | 200 => [69; 768] | 201 => [69; 769] | 202 => [69; 770] | 203 => [69; 776]
  | 204 => [73; 768] | 205 => [73; 769] | 206 => [73; 770] | 207 => [73; 776]
  | 209 => [78; 771]
  | 210 => [79; 768] | 211 => [79; 769] | 212 => [79; 770] | 213 => [79; 771]
  | 214 => [79; 776]
  | 217 => [85; 768] | 218 => [85; 769] | 219 => [85; 770] | 220 => [85; 776]
  | 221 => [89; 769]
  | 224 => [97; 768] | 225 => [97; 769] | 226 => [97; 770] | 227 => [97; 771]
  | 228 => [97; 776] | 229 => [97; 778] | 231 => [99; 807]
  | 232 => [101; 768] | 233 => [101; 769] | 234 => [101; 770] | 235 => [101; 776]
  | 236 => [105; 768] | 237 => [105; 769] | 238 => [105; 770] | 239 => [105; 776]
  | 241 => [110; 771]
  | 242 => [111; 768] | 243 => [111; 769] | 244 => [111; 770] | 245 => [111; 771]
  | 246 => [111; 776]
  | 249 => [117; 768] | 250 => [117; 769] | 251 => [117; 770] | 252 => [117; 776]
  | 253 => [121; 769] | 255 => [121; 776]
  | _ => [c]
  end%N.

Definition in_range (lo hi c : N) : bool := (N.leb lo c && N.leb c hi)%N.

(** White space: the characters for which [str.isspace] holds. *)
Definition latin1_isspace (c : N) : bool :=
  in_range 9 13 c || in_range 28 32 c || N.eqb c 133 || N.eqb c 160.

(** Letters, and the characters with a numeric value, up to U+00FF; the
    Greek mu, which the decomposition of U+00B5 produces, and the capital
    of U+00FF are letters too. *)
Definition latin1_isalnum (c : N) : bool :=
  in_range 48 57 c || in_range 65 90 c || in_range 97 122 c
  || N.eqb c 170 || N.eqb c 178 || N.eqb c 179 || N.eqb c 181
  || N.eqb c 185 || N.eqb c 186 || in_range 188 190 c
  || in_range 192 214 c || in_range 216 246 c || in_range 248 255 c
  || N.eqb c 956 || N.eqb c 924 || N.eqb c 376.

Definition latin1_decimal (c : N) : option Z :=
  if in_range 48 57 c then Some (Z.of_N c - 48) else None.

Definition latin1_upper (c : N) : text :=
  if in_range 97 122 c then [c - 32]%N
  else if N.eqb c 181 then [924]%N
  else if N.eqb c 223 then [83; 83]%N
  else if in_range 224 246 c || in_range 248 254 c then [c - 32]%N
  else if N.eqb c 255 then [376]%N
  else if N.eqb c 956 then [924]%N
  else [c].

Definition latin1_lower (c : N) : N :=
  if in_range 65 90 c then (c + 32)%N
  else if in_range 192 214 c || in_range 216 222 c then (c + 32)%N
  else if N.eqb c 924 then 956%N
  else if N.eqb c 376 then 255%N
  else c.

#[export] Instance latin1 : Unicode := {|
  normalize_NFKD := flat_map latin1_decomposition;
  isspace := latin1_isspace;
  isalnum := latin1_isalnum;
  decimal := latin1_decimal;
  to_upper_full := latin1_upper;
  str_lower := map latin1_lower;
|}.


(** ** Fiscal years and bulletin addresses *)

Definition BASE_URL : text := pystr "https://travel.state.gov".

Definition MONTH_NAMES : list text :=
  map pystr [ "january"; "february"; "march"; "april"; "may"; "june";
              "july"; "august"; "september"; "october"; "november";
              "december" ]%string.

Definition get_fiscal_year (year month : Z) : Z :=
  if month >=? 10 then year + 1 else year.

(** [l[i]] for an integer [i]: a negative index counts from the end, an
    index outside [-len(l), len(l)) raises [IndexError]. *)
Definition py_getitem {A} (l : list A) (i : Z) : res A :=
  let n := Z.of_nat (length l) in
  let j := if i <? 0 then i + n else i in
  if (0 <=? j) && (j <? n)
  then match l !! Z.to_nat j with
       | Some x => Ok x
       | None => Raise IndexError
       end
  else Raise IndexError.

(** [str(n)], as an f-string formats an integer *)
Definition str_of_int (n : Z) : text :=
  pystr (NilEmpty.string_of_int (Z.to_int n)).

Definition get_bulletin_url (year month : Z) : res text :=
  let fy := get_fiscal_year year month in
  month_name ← py_getitem MONTH_NAMES (month - 1);
  Ok (BASE_URL ++ pystr "/content/travel/en/legal/visa-law0/visa-bulletin"
      ++ pystr "/" ++ str_of_int fy ++ pystr "/visa-bulletin-for-"
      ++ month_name ++ pystr "-" ++ str_of_int year ++ pystr ".html").

(** ** Month ranges *)

(** [(y, m) <= (end_year, end_month)] on tuples *)
Definition tuple_le (a b : Z * Z) : bool :=
  (a.1 <? b.1) || (a.1 =? b.1) && (a.2 <=? b.2).

(** One pass of the body of the [while] loop after the [yield]. *)
Definition next_month (y m : Z) : Z * Z :=
  let m := m + 1 in
  if m >? 12 then (y + 1, 1) else (y, m).

(** The pairs the generator yields, in order; [None] when [fuel] iterations
    of the loop do not reach its exit. *)
Fixpoint month_range_loop (fuel : nat) (y m end_year end_month : Z)
  : option (list (Z * Z)) :=
  if tuple_le (y, m) (end_year, end_month) then
    match fuel with
    | O => None
    | S fuel =>
        let '(y', m') := next_month y m in
        rest ← month_range_loop fuel y' m' end_year end_month;
        Some ((y, m) :: rest)
    end
  else Some [].

(** A number of iterations that always suffices. *)
Definition month_range_fuel (y m end_year : Z) : nat :=
  Z.to_nat (12 * (end_year - y + 1) + Z.max 0 (12 - m)).

Definition generate_month_range (start_year start_month end_year end_month : Z)
  : option (list (Z * Z)) :=
  month_range_loop (month_range_fuel start_year start_month end_year)
    start_year start_month end_year end_month.

(** ** Dates *)

Record datetime := { year : Z; month : Z; day : Z }.

Definition is_leap (y : Z) : bool :=
  (y mod 4 =? 0) && (negb (y mod 100 =? 0) || (y mod 400 =? 0)).

Definition days_in_month (y m : Z) : Z :=
  match m with
  | 2 => if is_leap y then 29 else 28
  | 4 | 6 | 9 | 11 => 30
  | _ => 31
  end.

(** The constructor of a date checks its fields and raises [ValueError]. *)
Definition make_date (y m d : Z) : res datetime :=
  if (1 <=? y) && (y <=? 9999) && (1 <=? m) && (m <=? 12)
     && (1 <=? d) && (d <=? days_in_month y m)
  then Ok {| year := y; month := m; day := d |}
  else Raise ValueError.

(** [n] written with [width] decimal digits, zero padded *)
Definition zero_padded (width : nat) (n : Z) : text :=
  map (fun k => Z.to_N (48 + (n / 10 ^ Z.of_nat k) mod 10)) (rev (seq 0 width)).

(** [dt.strftime("%Y-%m-%d")].  The library hands the format to the
    [strftime] of the C library, and that of glibc writes [%Y] as the
    decimal number of the year, without leading zeros: the year 999 gives
    three digits.  Month and day are written on two digits. *)
Definition strftime_Ymd (dt : datetime) : text :=
  str_of_int (year dt) ++ pystr "-" ++ zero_padded 2 (month dt)
  ++ pystr "-" ++ zero_padded 2 (day dt).

(** The ISO 8601 form of a date: [YYYY-MM-DD], the year on four digits. *)
Definition isoformat (dt : datetime) : text :=
  zero_padded 4 (year dt) ++ pystr "-" ++ zero_padded 2 (month dt)
  ++ pystr "-" ++ zero_padded 2 (day dt).

(** The two formats [parse_date] hands to [strptime]. *)
Inductive date_format :=
| DDMonYY    (** ["%d%b%y"] *)
| DDMonYYYY. (** ["%d%b%Y"] *)

Definition year_digits (fmt : date_format) : nat :=
  match fmt with DDMonYY => 2 | DDMonYYYY => 4 end.

(** Abbreviated month names of the C locale; index 0 is not a month. *)
Definition a_month : list text :=
  [] :: map pystr [ "jan"; "feb"; "mar"; "apr"; "may"; "jun"; "jul"; "aug";
                    "sep"; "oct"; "nov"; "dec" ]%string.

Section Dates.
Context {U : Unicode}.

Definition is_decimal (c : N) : bool :=
  match decimal c with Some _ => true | None => false end.

(** The group [(?P<d>3[0-1]|[1-2]\d|0[1-9]|[1-9]| [1-9])] at the head of
    [s]: for each alternative that matches, in the order the regular
    expression tries them, the group and the rest of the text. *)
Definition re_group_d (s : text) : list (text * text) :=
  let two (first second : N -> bool) :=
    match s with
    | a :: b :: r => if first a && second b then [([a; b], r)] else []
    | _ => []
    end in
  let one (first : N -> bool) :=
    match s with
    | a :: r => if first a then [([a], r)] else []
    | _ => []
    end in
  two (N.eqb 51) (in_range 48 49)
  ++ two (in_range 49 50) is_decimal
  ++ two (N.eqb 48) (in_range 49 57)
  ++ one (in_range 49 57)
  ++ two (N.eqb 32) (in_range 49 57).

(** The group [(?P<b>jan|feb|...|dec)], matched ignoring case: three
    characters whose lower-case form is one of the names. *)
Definition re_group_b (s : text) : list (text * text) :=
  match s with
  | a :: b :: c :: r =>
      if bool_decide (str_lower [a; b; c] ∈ drop 1 a_month)
      then [([a; b; c], r)] else []
  | _ => []
  end.

(** The groups [(?P<y>\d\d)] and [(?P<Y>\d\d\d\d)] *)
Definition re_group_year (n : nat) (s : text) : list (text * text) :=
  let g := take n s in
  if (length g =? n)%nat && forallb is_decimal g then [(g, drop n s)] else [].

(** [format_regex.match(s)]: the first way of matching day, month and year
    one after the other at the start of [s], with what follows them. *)
Definition re_match_date (fmt : date_format) (s : text)
  : option (text * text * text * text) :=
  head ('(d, r1) ← re_group_d s;
        '(b, r2) ← re_group_b r1;
        '(y, r3) ← re_group_year (year_digits fmt) r2;
        [(d, b, y, r3)]).

(** [int(s)] on white space and decimal digits *)
Definition py_int (s : text) : res Z :=
  match str_strip s with
  | [] => Raise ValueError
  | ds => foldl (fun acc c =>
                   n ← acc;
                   match decimal c with
                   | Some v => Ok (10 * n + v)
                   | None => Raise ValueError
                   end) (Ok 0) ds
  end.

(** [l.index(x)] *)
Fixpoint list_index (x : text) (l : list text) : res Z :=
  match l with
  | [] => Raise ValueError
  | y :: l' => if bool_decide (x = y) then Ok 0
               else i ← list_index x l'; Ok (i + 1)
  end.

(** [datetime.strptime(s, fmt)] for the two formats: match the text, refuse
    unconverted data, convert the groups, build the date. *)
Definition strptime (s : text) (fmt : date_format) : res datetime :=
  match re_match_date fmt s with
  | None => Raise ValueError
  | Some (d, b, y, rest) =>
      match rest with
      | _ :: _ => Raise ValueError
      | [] =>
          yy ← py_int y;
          let year :=
            match fmt with
            | DDMonYY => if yy <=? 68 then yy + 2000 else yy + 1900
            | DDMonYYYY => yy
            end in
          month ← list_index (str_lower b) a_month;
          day ← py_int d;
          make_date year month day
      end
  end.

Definition parse_date (date_str : text) : res text :=
  let s := str_upper (_clean_text date_str) in
  if in_tuple s ["C"; "CURRENT"]%string then Ok (pystr "C")
  else if in_tuple s ["U"; "UNAVAILABLE"]%string then Ok (pystr "U")
  else
    try_except_ValueError
      (dt ← strptime s DDMonYY; Ok (strftime_Ymd dt))
      (try_except_ValueError
         (dt ← strptime s DDMonYYYY; Ok (strftime_Ymd dt))
         (Ok s)).

End Dates.

(** ** Bulletins *)

Inductive tabletype := final_action | filing.

(** One element of the list [parse_bulletin] returns. *)
Record record := {
  table_type : tabletype;
  visa_type : visatype;
  category : text;
  country : text;
  priority_date : text;
}.

#[export] Instance visatype_eq_dec : EqDecision visatype.
Proof. solve_decision. Defined.

#[export] Instance visatype_countable : Countable visatype.
Proof.
  refine (inj_countable' (fun v => match v with family => true | employment => false end)
                         (fun b : bool => if b then family else employment) _).
  intros []; reflexivity.
Defined.

(** The document as the parser sees it through its queries:
    [soup.find_all("table")] is a list of tables, [table.find_all("tr")] a
    list of rows, [row.find_all(["th", "td"])] a list of cells, and a cell
    is known by its text nodes, in document order. *)
Definition tag_cell := list text.
Definition tag_row := list tag_cell.
Definition tag_table := list tag_row.
Definition document := list tag_table.

(** [l[i]] for an index that is not negative *)
Definition list_get {A} (l : list A) (i : nat) : res A :=
  match l !! i with
  | Some x => Ok x
  | None => Raise IndexError
  end.

(** [d[k]] *)
Definition dict_get (d : gmap visatype nat) (k : visatype) : res nat :=
  match d !! k with
  | Some v => Ok v
  | None => Raise KeyError
  end.

(** [for x in l: s = body(s, x)], an exception ending the loop *)
Fixpoint for_each {S A} (body : S -> A -> res S) (s : S) (l : list A) : res S :=
  match l with
  | [] => Ok s
  | x :: l' => s' ← body s x; for_each body s' l'
  end.

(** Truth value of a string or of a list: it is not empty. *)
Definition nonempty {A} (s : list A) : bool :=
  match s with [] => false | _ => true end.

Section Bulletin.
Context {U : Unicode}.

(** [cell.get_text(strip=True)]: the text nodes, each stripped, those left
    empty dropped, joined without separator. *)
Definition get_text_strip (cell : tag_cell) : text :=
  concat (List.filter nonempty (map str_strip cell)).

Definition _identify_table_by_header (header_text : text) : option visatype :=
  let h := str_lower (_clean_text header_text) in
  if str_in (pystr "family") h then Some family
  else if str_in (pystr "employment") h then Some employment
  else None.

(** The loop over [enumerate(cells[1:])]; [i] is the index of the head of
    [cells]. *)
Fixpoint parse_cells (table_type : tabletype) (visa_type : visatype)
    (category : text) (countries : list text)
    (i : nat) (cells : list tag_cell) (records : list record)
  : res (list record) :=
  match cells with
  | [] => Ok records
  | cell :: cells' =>
      if (length countries <=? i)%nat then Ok records
      else
        let date_text := get_text_strip cell in
        if negb (nonempty date_text)
        then parse_cells table_type visa_type category countries (S i) cells' records
        else
          priority_date ← parse_date date_text;
          country ← list_get countries i;
          parse_cells table_type visa_type category countries (S i) cells'
            (records ++ [ {| table_type := table_type;
                             visa_type := visa_type;
                             category := category;
                             country := country;
                             priority_date := priority_date |} ])
  end.

(** The body of the loop over [rows[1:]] *)
Definition parse_row (table_type : tabletype) (visa_type : visatype)
    (countries : list text) (records : list record) (row : tag_row)
  : res (list record) :=
  let cells := row in
  if (length cells <? 2)%nat then Ok records
  else
    cell0 ← list_get cells 0;
    let raw_category := get_text_strip cell0 in
    if negb (nonempty raw_category) then Ok records
    else
      let category := normalize_category raw_category visa_type in
      parse_cells table_type visa_type category countries 0 (drop 1 cells) records.

(** The loop over [header_cells[1:]] that builds [countries] *)
Definition parse_countries (header_cells : list tag_cell) : list text :=
  foldl (fun countries cell =>
           let country := normalize_country (get_text_strip cell) in
           if nonempty country then countries ++ [country] else countries)
        [] (drop 1 header_cells).

(** The body of the loop over the tables; the state is [seen_count] and
    [records]. *)
Definition parse_table (st : gmap visatype nat * list record) (table : tag_table)
  : res (gmap visatype nat * list record) :=
  let '(seen_count, records) := st in
  let rows := table in
  if (length rows <? 2)%nat then Ok st
  else
    header_cells ← list_get rows 0;
    if negb (nonempty header_cells) then Ok st
    else
      cell0 ← list_get header_cells 0;
      let first_header := get_text_strip cell0 in
      match _identify_table_by_header first_header with
      | None => Ok st
      | Some visa_type =>
          n ← dict_get seen_count visa_type;
          let seen_count := <[visa_type := S n]> seen_count in
          n ← dict_get seen_count visa_type;
          let table_type := if (n =? 1)%nat then final_action else filing in
          let countries := parse_countries header_cells in
          if negb (nonempty countries) then Ok (seen_count, records)
          else
            records ← for_each (parse_row table_type visa_type countries)
                        records (drop 1 rows);
            Ok (seen_count, records)
      end.

Definition parse_bulletin (html : document) : res (list record) :=
  let records := [] in
  let seen_count : gmap visatype nat := {[ family := 0%nat; employment := 0%nat ]} in
  st ← for_each parse_table (seen_count, records) html;
  Ok st.2.

End Bulletin.

(** * Specifications

    The definitions below do not come from the source: they say, in the
    words of the specification, what the functions above are expected to
    compute, and are compared with them in the second part. *)

(** ** Addresses *)

Definition english_month (month : Z) : string :=
  match month with
  | 1 => "january" | 2 => "february" | 3 => "march" | 4 => "april"
  | 5 => "may" | 6 => "june" | 7 => "july" | 8 => "august"
  | 9 => "september" | 10 => "october" | 11 => "november" | 12 => "december"
  | _ => EmptyString
  end.

(** ** Month ranges *)

(** Lexicographic order on (year, month). *)
Definition ym_lt (a b : Z * Z) : Prop := a.1 < b.1 \/ (a.1 = b.1 /\ a.2 < b.2).
Definition ym_le (a b : Z * Z) : Prop := a.1 < b.1 \/ (a.1 = b.1 /\ a.2 <= b.2).

(** [b] is the calendar month after [a]. *)
Definition ym_succ (a b : Z * Z) : Prop :=
  (a.2 < 12 /\ b = (a.1, a.2 + 1)) \/ (a.2 = 12 /\ b = (a.1 + 1, 1)).

(** Each element is followed by the next calendar month. *)
Fixpoint month_by_month (l : list (Z * Z)) : Prop :=
  match l with
  | a :: (b :: _) as l' => ym_succ a b /\ month_by_month l'
  | _ => True
  end.

Section Specifications.
Context {U : Unicode}.

(** ** Texts *)

(** No white space at either end. *)
Definition trimmed (s : text) : Prop :=
  (forall c, head s = Some c -> isspace c = false)
  /\ (forall c, last s = Some c -> isspace c = false).

(** ** Dates *)

(** "Attempt to parse" a token in one of the two formats. *)
Definition date_of_token (fmt : date_format) (s : text) : option datetime :=
  match strptime s fmt with
  | Ok dt => Some dt
  | Raise _ => None
  end.

Definition parse_date_spec (raw : text) : text :=
  let s := str_upper (_clean_text raw) in
  if bool_decide (s = pystr "C" \/ s = pystr "CURRENT") then pystr "C"
  else if bool_decide (s = pystr "U" \/ s = pystr "UNAVAILABLE") then pystr "U"
  else match date_of_token DDMonYY s with
       | Some dt => strftime_Ymd dt
       | None =>
           match date_of_token DDMonYYYY s with
           | Some dt => strftime_Ymd dt
           | None => s
           end
       end.

(** ** Rule tables *)

Definition contains (needle : string) (s : text) : bool := str_in (pystr needle) s.
Definition equals (x : string) (s : text) : bool := bool_decide (s = pystr x).

(** The first rule whose predicate holds gives the result. *)
Definition first_match (rules : list ((text -> bool) * string)) (s : text)
  : option text :=
  (fun r => pystr r.2) <$> List.find (fun r => r.1 s) rules.

Definition country_rules : list ((text -> bool) * string) :=
  [ (fun s => contains "chargeability" s || (contains "charge" s && contains "except" s),
     "All Chargeability Areas");
    (contains "china", "China");
    (contains "india", "India");
    (contains "mexico", "Mexico");
    (contains "philip", "Philippines") ]%string.

Definition country_abbreviations : list ((text -> bool) * string) :=
  [ (equals "CH", "China"); (equals "IN", "India"); (equals "ME", "Mexico");
    (equals "MX", "Mexico"); (equals "PH", "Philippines") ]%string.

(** Repairing hyphen-broken words: a hyphen that stands between two word
    characters, white space allowed after it, is removed with that white
    space, so that the two parts are joined with no separator.  The text is
    read from the left; [joining] tells that a hyphen has just been removed:
    white space is then dropped up to the word character that follows, which
    goes to the repaired word and starts no repair itself. *)
Definition word_follows (s : text) : bool :=
  match str_lstrip s with
  | d :: _ => isword d
  | [] => false
  end.

Fixpoint join_hyphen_breaks_from (joining : bool) (s : text) : text :=
  match s with
  | [] => []
  | c :: r =>
      if joining then
        if isspace c then join_hyphen_breaks_from true r
        else c :: join_hyphen_breaks_from false r
      else
        match r with
        | 45%N :: r' =>
            if isword c && word_follows r'
            then c :: join_hyphen_breaks_from true r'
            else c :: join_hyphen_breaks_from false r
        | _ => c :: join_hyphen_breaks_from false r
        end
  end.

Definition join_hyphen_breaks (s : text) : text :=
  join_hyphen_breaks_from false s.

Definition normalize_country_spec (raw : text) : text :=
  let cleaned := _clean_text raw in
  let lowered := str_lower (join_hyphen_breaks cleaned) in
  match first_match country_rules lowered with
  | Some name => name
  | None =>
      match first_match country_abbreviations (str_upper cleaned) with
      | Some name => name
      | None => cleaned
      end
  end.

Definition fifth (s : text) : bool := contains "5th" s || contains "fifth" s.

(** The employment rules as the specification lists them. *)
Definition employment_rules_listed : list ((text -> bool) * string) :=
  [ (equals "1st", "EB-1");
    (equals "2nd", "EB-2");
    (equals "3rd", "EB-3");
    (contains "other worker", "EB-3 Other Workers");
    (equals "4th", "EB-4");
    (fun s => contains "religious" s && contains "worker" s, "EB-4 Religious Workers");
    (fun s => fifth s && contains "unreserved" s, "EB-5 Unreserved");
    (fun s => fifth s && contains "rural" s, "EB-5 Rural");
    (fun s => fifth s && contains "high unemployment" s, "EB-5 High Unemployment");
    (fun s => fifth s && contains "infrastructure" s, "EB-5 Infrastructure");
    (fun s => fifth s && (contains "targeted" s || contains "regional" s), "EB-5 Targeted");
    (fifth, "EB-5");
    (fun s => contains "targeted" s && contains "employment" s, "EB-5 Targeted");
    (contains "schedule a", "Schedule A Workers");
    (fun s => contains "iraqi" s || contains "afghani" s || contains "translator" s,
     "Iraqi/Afghani Translators") ]%string.

(** The same rules, the four ordinals also accepted when followed by
    "preference". *)
Definition employment_rules : list ((text -> bool) * string) :=
  [ (fun s => equals "1st" s || equals "1st preference" s, "EB-1");
    (fun s => equals "2nd" s || equals "2nd preference" s, "EB-2");
    (fun s => equals "3rd" s || equals "3rd preference" s, "EB-3");
    (contains "other worker", "EB-3 Other Workers");
    (fun s => equals "4th" s || equals "4th preference" s, "EB-4") ]%string
  ++ drop 5 employment_rules_listed.

(** Text on which the category rules are tried, and the text handed back
    when none applies. *)
Definition category_cleaned (raw : text) : text :=
  str_strip (re_sub_trailing_stars (_clean_text raw)).

Definition normalize_employment_with (rules : list ((text -> bool) * string))
    (raw : text) : text :=
  let cleaned := category_cleaned raw in
  let lowered := str_lower (re_sub_hyphen_breaks 0 cleaned) in
  match first_match rules lowered with
  | Some name => name
  | None => cleaned
  end.

(** ** Bulletins *)

(** The visa type under which the parser counts a table: the table has at
    least two rows, its first row has a cell, and the text of that cell is
    recognised. *)
Definition table_kind (table : tag_table) : option visatype :=
  match table with
  | (cell0 :: _) :: _ :: _ => _identify_table_by_header (get_text_strip cell0)
  | _ => None
  end.

(** A table the parser passes over: fewer than two rows, a first row
    without cells, or a first header cell that names no visa type. *)
Definition malformed_table (table : tag_table) : Prop :=
  (length table < 2)%nat
  \/ head table = Some []
  \/ exists cell0 cells rows,
       table = (cell0 :: cells) :: rows
       /\ _identify_table_by_header (get_text_strip cell0) = None.

Definition header_country (cell : tag_cell) : text :=
  normalize_country (get_text_strip cell).

(** The countries of a header row: the cells after the first, normalised,
    those that come out empty left out. *)
Definition header_countries (header_cells : list tag_cell) : list text :=
  List.filter nonempty (map header_country (tail header_cells)).

(** The record of a data cell paired with a country, if the cell has text. *)
Definition cell_record (tt : tabletype) (vt : visatype) (cat : text)
    (paired : tag_cell * text) : option record :=
  let date_text := get_text_strip paired.1 in
  if nonempty date_text
  then Some {| table_type := tt; visa_type := vt; category := cat;
               country := paired.2;
               priority_date := parse_date_spec date_text |}
  else None.

(** The records of a data row: the cells after the first are paired, by
    position, with the countries. *)
Definition row_records (tt : tabletype) (vt : visatype) (countries : list text)
    (row : tag_row) : list record :=
  match row with
  | cell0 :: cell1 :: cells =>
      let raw_category := get_text_strip cell0 in
      if nonempty raw_category
      then omap (cell_record tt vt (normalize_category raw_category vt))
                (zip (cell1 :: cells) countries)
      else []
  | _ => []
  end.

Definition table_records (tt : tabletype) (table : tag_table) : list record :=
  match table_kind table with
  | Some vt =>
      match table with
      | header :: rows => flat_map (row_records tt vt (header_countries header)) rows
      | [] => []
      end
  | None => []
  end.

(** Number of tables counted under [vt] among [tables]. *)
Definition tables_seen (vt : visatype) (tables : list tag_table) : nat :=
  length (List.filter (fun t => bool_decide (table_kind t = Some vt)) tables).

(** [seen_count] holds, for each visa type, the number of tables counted
    under it so far. *)
Definition seen_count_of (seen_count : gmap visatype nat) (before : list tag_table) : Prop :=
  forall vt, seen_count !! vt = Some (tables_seen vt before).

(** The type given to a table of kind [vt] that comes after [before]. *)
Definition table_type_after (vt : visatype) (before : list tag_table) : tabletype :=
  if (tables_seen vt before =? 0)%nat then final_action else filing.

(** What a table contributes when it comes after [before]. *)
Definition contribution (before : list tag_table) (table : tag_table) : list record :=
  match table_kind table with
  | Some vt => table_records (table_type_after vt before) table
  | None => []
  end.

(** The records of the tables [doc] that come after the tables [before]. *)
Fixpoint bulletin_records (before doc : list tag_table) : list record :=
  match doc with
  | [] => []
  | table :: doc' =>
      contribution before table ++ bulletin_records (before ++ [table]) doc'
  end.

(** A record without its table type. *)
Definition untyped (r : record) : visatype * text * text * text :=
  (visa_type r, category r, country r, priority_date r).

End Specifications.

(** ** Sample documents *)

Definition td (s : string) : tag_cell := [pystr s].

(** A cell without text. *)
Definition empty_td : tag_cell := [[]].

Definition employment_table : tag_table :=
  [ [td "Employment-based"; td "China"; td "India"];
    [td "1st"; td "01FEB23"; td "C"] ].

Definition family_table : tag_table :=
  [ [td "Family-Sponsored"; td "China"; td "India"];
    [td "F2A"; td "01FEB23"; td "C"] ].

Definition notes_table : tag_table :=
  [ [td "Notes"; td "China"]; [td "1st"; td "01FEB23"] ].

(** A header whose third cell is empty. *)
Definition gap_header : list tag_cell :=
  [td "Employment-based"; td "China"; empty_td; td "India"; td "Mexico"].

Definition gap_table : tag_table :=
  [ gap_header; [td "1st"; td "01JAN20"; td "01JAN21"; td "01JAN22"; td "01JAN23"] ].

Definition mk_record (tt : tabletype) (vt : visatype) (cat co pd : string) : record :=
  {| table_type := tt; visa_type := vt; category := pystr cat;
     country := pystr co; priority_date := pystr pd |}.

(** * The rest of the module and its callers *)

From Stdlib Require DecimalZ.

(** ** Month keys *)

(** The decimal number whose first digit is [k] and whose other digits are
    [l]; used to read [str(n)] digit by digit. *)
Definition uint_digit (k : Z) (l : Decimal.uint) : Decimal.uint :=
  match k with
  | 0 => Decimal.D0 l | 1 => Decimal.D1 l | 2 => Decimal.D2 l
  | 3 => Decimal.D3 l | 4 => Decimal.D4 l | 5 => Decimal.D5 l
  | 6 => Decimal.D6 l | 7 => Decimal.D7 l | 8 => Decimal.D8 l
  | _ => Decimal.D9 l
  end.

(** [f"{n:02d}"]: one digit is preceded by a zero; a sign counts for the
    width. *)
Definition format_02d (n : Z) : text :=
  let s := str_of_int n in
  if (length s <? 2)%nat then 48%N :: s else s.

(** [f"{year}-{month:02d}"], the key of a bulletin in the database *)
Definition month_key (year month : Z) : text :=
  str_of_int year ++ pystr "-" ++ format_02d month.

(** ** scraper.py: the bulletins listed on the index page *)

Section Index.
Context {U : Unicode}.

(** Length of the longest run of [\w] at the head of [s]. *)
Fixpoint re_word_run (s : text) : nat :=
  match s with
  | c :: r => if isword c then S (re_word_run r) else O
  | [] => O
  end.

(** [-(\d{4})\.html] at the head of [s]: the group. *)
Definition re_index_tail (s : text) : option text :=
  match s with
  | 45%N :: r =>
      match re_group_year 4 r with
      | (y, r') :: _ => if str_startswith (pystr ".html") r' then Some y else None
      | [] => None
      end
  | _ => None
  end.

(** [(\w+)-(\d{4})\.html] at the head of [s], the run of [\w+] tried with
    [n] characters, then with fewer, down to one. *)
Fixpoint re_index_word (n : nat) (s : text) : option (text * text) :=
  match n with
  | O => None
  | S n' =>
      match re_index_tail (drop n s) with
      | Some y => Some (take n s, y)
      | None => re_index_word n' s
      end
  end.

(** [visa-bulletin-for-(\w+)-(\d{4})\.html] at the head of [s]. *)
Definition re_index_at (s : text) : option (text * text) :=
  if str_startswith (pystr "visa-bulletin-for-") s
  then let r := drop 18 s in re_index_word (re_word_run r) r
  else None.

(** [re.search]: the match that starts leftmost; its two groups. *)
Fixpoint re_search_index (s : text) : option (text * text) :=
  match re_index_at s with
  | Some g => Some g
  | None =>
      match s with
      | [] => None
      | _ :: r => re_search_index r
      end
  end.

(** No match of the literal start of the pattern begins within [pre],
    whatever text follows [pre]. *)
Fixpoint no_index_match (pre : text) : bool :=
  match pre with
  | [] => true
  | _ :: r =>
      negb (str_startswith (take (length pre) (pystr "visa-bulletin-for-")) pre)
      && no_index_match r
  end.

(** The body of the loop of [check_latest_bulletin] over the links. *)
Definition check_link (bulletins : list (Z * Z * text)) (href : text)
  : res (list (Z * Z * text)) :=
  match re_search_index href with
  | None => Ok bulletins
  | Some (g1, g2) =>
      let month_name := str_lower g1 in
      year ← py_int g2;
      if bool_decide (month_name ∈ MONTH_NAMES) then
        i ← list_index month_name MONTH_NAMES;
        let month_num := i + 1 in
        let month_str := month_key year month_num in
        if bool_decide ((year, month_num, month_str) ∈ bulletins)
        then Ok bulletins
        else Ok (bulletins ++ [(year, month_num, month_str)])
      else Ok bulletins
  end.

(** What holds of the list of bulletins during the loop: no entry twice,
    and every entry a year of at most four digits, a month and their key. *)
Definition listed (bulletins : list (Z * Z * text)) : Prop :=
  NoDup bulletins
  /\ Forall (fun b => 0 <= b.1.1 <= 9999 /\ 1 <= b.1.2 <= 12
                      /\ b.2 = month_key b.1.1 b.1.2) bulletins.

(** [check_latest_bulletin], from the [href] values of the links of the
    index page, in document order, on. *)
Definition check_latest_bulletin (hrefs : list text) : res (list (Z * Z * text)) :=
  for_each check_link [] hrefs.

End Index.

(** ** charts.py *)

Section Charts.
Context {U : Unicode}.

(** A literal character of a format at the head of [s]. *)
Definition re_literal (c : N) (s : text) : list text :=
  match s with
  | x :: r => if N.eqb x c then [r] else []
  | [] => []
  end.

(** The group [(?P<m>1[0-2]|0[1-9]|[1-9])] at the head of [s]. *)
Definition re_group_m (s : text) : list (text * text) :=
  let two (first second : N -> bool) :=
    match s with
    | a :: b :: r => if first a && second b then [([a; b], r)] else []
    | _ => []
    end in
  let one (first : N -> bool) :=
    match s with
    | a :: r => if first a then [([a], r)] else []
    | _ => []
    end in
  two (N.eqb 49) (in_range 48 50)
  ++ two (N.eqb 48) (in_range 49 57)
  ++ one (in_range 49 57).

(** [format_regex.match(s)] for the format ["%Y-%m-%d"]: the first way of
    matching year, month and day, with what follows them. *)
Definition re_match_Ymd (s : text) : option (text * text * text * text) :=
  head ('(y, r1) ← re_group_year 4 s;
        r2 ← re_literal 45 r1;
        '(m, r3) ← re_group_m r2;
        r4 ← re_literal 45 r3;
        '(d, r5) ← re_group_d r4;
        [(y, m, d, r5)]).

(** [datetime.strptime(s, "%Y-%m-%d")] *)
Definition strptime_Ymd (s : text) : res datetime :=
  match re_match_Ymd s with
  | None => Raise ValueError
  | Some (y, m, d, rest) =>
      match rest with
      | _ :: _ => Raise ValueError
      | [] =>
          year ← py_int y;
          month ← py_int m;
          day ← py_int d;
          make_date year month day
      end
  end.

(** [parse_priority_date_for_chart]; [today] is [date.today()], and the
    priority date is a string. *)
Definition parse_priority_date_for_chart (today : datetime)
    (pd_str : text) (bulletin_month : option text) : res (option datetime) :=
  if bool_decide (pd_str = pystr "C") then
    match bulletin_month with
    | Some bm =>
        if nonempty bm
        then try_except_ValueError
               (dt ← strptime_Ymd (bm ++ pystr "-01"); Ok (Some dt))
               (Ok (Some today))
        else Ok (Some today)
    | None => Ok (Some today)
    end
  else if bool_decide (pd_str = pystr "U") then Ok None
  else
    try_except_ValueError
      (dt ← strptime_Ymd pd_str; Ok (Some dt))
      (Ok None).

(** What [plot_trend] hands to the plotting library: the annotation of an
    empty chart, or the main trace and the points marked as current. *)
Inductive figure :=
| No_data_available
| Traces (months : list text) (dates : list datetime)
         (current : option (list text * list datetime)).

(** The loop of [plot_trend] over the rows: each row is a bulletin month
    and a priority date; the state is [months], [dates] and
    [current_markers]. *)
Definition plot_trend_row (today : datetime)
    (st : list text * list datetime * list nat) (row : text * text)
  : res (list text * list datetime * list nat) :=
  let '(months, dates, current_markers) := st in
  let '(bm, pd_val) := row in
  chart_date ← parse_priority_date_for_chart today pd_val (Some bm);
  match chart_date with
  | Some date =>
      let months := months ++ [bm] in
      let dates := dates ++ [date] in
      if bool_decide (pd_val = pystr "C")
      then Ok (months, dates, current_markers ++ [(length months - 1)%nat])
      else Ok (months, dates, current_markers)
  | None => Ok st
  end.

(** [[l[i] for i in indices]] *)
Fixpoint pick {A} (l : list A) (indices : list nat) : res (list A) :=
  match indices with
  | [] => Ok []
  | i :: indices' => x ← list_get l i; xs ← pick l indices'; Ok (x :: xs)
  end.

Definition plot_trend (today : datetime) (trend_data : list (text * text))
  : res figure :=
  st ← for_each (plot_trend_row today) ([], [], []) trend_data;
  let '(months, dates, current_markers) := st in
  if negb (nonempty months) then Ok No_data_available
  else if nonempty current_markers then
    xs ← pick months current_markers;
    ys ← pick dates current_markers;
    Ok (Traces months dates (Some (xs, ys)))
  else Ok (Traces months dates None).

(** A trace of [plot_multi_trend]: the label of the series, its months,
    its dates and the colour of its line. *)
Record trace := {
  trace_name : text;
  trace_x : list text;
  trace_y : list datetime;
  trace_color : text;
}.

Definition colors : list text :=
  map pystr [ "#1f77b4"; "#ff7f0e"; "#2ca02c"; "#d62728"; "#9467bd";
              "#8c564b"; "#e377c2"; "#7f7f7f"; "#bcbd22"; "#17becf" ]%string.

(** [enumerate(l)] *)
Definition enumerate {A} (l : list A) : list (nat * A) :=
  zip (seq 0 (length l)) l.

(** The inner loop of [plot_multi_trend] over the rows of a series. *)
Definition plot_multi_trend_row (today : datetime)
    (st : list text * list datetime) (row : text * text)
  : res (list text * list datetime) :=
  let '(months, dates) := st in
  let '(bm, pd_val) := row in
  chart_date ← parse_priority_date_for_chart today pd_val (Some bm);
  match chart_date with
  | Some date => Ok (months ++ [bm], dates ++ [date])
  | None => Ok st
  end.

(** The outer loop, over the numbered items of the dictionary; the figure
    is the list of its traces. *)
Definition plot_multi_trend_series (today : datetime) (fig : list trace)
    (item : nat * (text * list (text * text))) : res (list trace) :=
  let '(i, (label, data)) := item in
  st ← for_each (plot_multi_trend_row today) ([], []) data;
  let '(months, dates) := st in
  if nonempty months then
    color ← list_get colors (i mod length colors)%nat;
    Ok (fig ++ [ {| trace_name := label; trace_x := months; trace_y := dates;
                    trace_color := color |} ])
  else Ok fig.

(** [plot_multi_trend]; the dictionary is the list of its items, in the
    order it holds them. *)
Definition plot_multi_trend (today : datetime)
    (trend_data_dict : list (text * list (text * text))) : res (list trace) :=
  for_each (plot_multi_trend_series today) [] (enumerate trend_data_dict).

End Charts.

(** ** Where records come from *)

Section Provenance.
Context {U : Unicode}.

(** Where the fields of a record come from. *)
Definition record_from (table : tag_table) (r : record) : Prop :=
  exists header rows row cell0 cells h c,
    table = header :: rows
    /\ table_kind table = Some (visa_type r)
    /\ row ∈ rows /\ row = cell0 :: cells
    /\ h ∈ tail header /\ c ∈ cells
    /\ category r = normalize_category (get_text_strip cell0) (visa_type r)
    /\ country r = header_country h
    /\ country r <> []
    /\ get_text_strip c <> []
    /\ parse_date (get_text_strip c) = Ok (priority_date r).

End Provenance.

(** ** The canonical vocabulary *)

Definition country_names : list string :=
  [ "All Chargeability Areas"; "China"; "India"; "Mexico"; "Philippines" ]%string.

Definition employment_names : list string :=
  [ "EB-1"; "EB-2"; "EB-3"; "EB-3 Other Workers"; "EB-4";
    "EB-4 Religious Workers"; "EB-5 Unreserved"; "EB-5 Rural";
    "EB-5 High Unemployment"; "EB-5 Infrastructure"; "EB-5 Targeted"; "EB-5";
    "Schedule A Workers"; "Iraqi/Afghani Translators" ]%string.

Definition family_names : list string :=
  [ "F1"; "F2A"; "F2B"; "F3"; "F4" ]%string.

(** ** What a chart shows *)

Section ChartSpecification.
Context {U : Unicode}.

(** The point of a row of trend data: its month, the date it is drawn at
    and whether it is marked as current; [None] when the row is left out. *)
Definition chart_point (today : datetime) (row : text * text)
  : option (text * datetime * bool) :=
  match parse_priority_date_for_chart today row.2 (Some row.1) with
  | Ok (Some date) => Some (row.1, date, bool_decide (row.2 = pystr "C"))
  | _ => None
  end.

Definition chart_points (today : datetime) (trend_data : list (text * text))
  : list (text * datetime * bool) :=
  omap (chart_point today) trend_data.

(** The trace of the series numbered [i], when the series has a point. *)
Definition series_trace (today : datetime)
    (item : nat * (text * list (text * text))) : option trace :=
  let points := chart_points today item.2.2 in
  if nonempty points then
    Some {| trace_name := item.2.1;
            trace_x := map (fun p => p.1.1) points;
            trace_y := map (fun p => p.1.2) points;
            trace_color := nth (item.1 mod 10) colors [] |}
  else None.

(** The positions, counted from [i], of the points marked as current. *)
Fixpoint current_positions (i : nat) (points : list (text * datetime * bool))
  : list nat :=
  match points with
  | [] => []
  | p :: points' =>
      if p.2 then i :: current_positions (S i) points'
      else current_positions (S i) points'
  end.

End ChartSpecification.

(** ** app.py: the tables of the Monthly View and of Compare *)

#[export] Instance tabletype_eq_dec : EqDecision tabletype.
Proof. solve_decision. Defined.

(** [ordered = [c for c in order if c in actual]] followed by
    [ordered += [c for c in actual if c not in ordered]]: the right-hand
    side of [+=] is built before the list is extended. *)
Definition ordered (order actual : list text) : list text :=
  let ordered := List.filter (fun c => bool_decide (c ∈ actual)) order in
  ordered ++ List.filter (fun c => negb (bool_decide (c ∈ ordered))) actual.

(** The condition on the table type and the visa type of a row. *)
Definition selected (table_type_key : tabletype) (visa_type_key : visatype)
    (r : record) : bool :=
  bool_decide (table_type r = table_type_key)
  && bool_decide (visa_type r = visa_type_key).

(** [find_date] of the Compare page: the first row that matches, or
    [None]. *)
Fixpoint find_date (data : list record) (table_type_key : tabletype)
    (visa_type_key : visatype) (cat cty : text) : option text :=
  match data with
  | [] => None
  | r :: data' =>
      if selected table_type_key visa_type_key r
         && bool_decide (category r = cat) && bool_decide (country r = cty)
      then Some (priority_date r)
      else find_date data' table_type_key visa_type_key cat cty
  end.

(** [x or y] where [x] is a string or [None] *)
Definition or_else (x : option text) (y : text) : text :=
  match x with
  | Some s => if nonempty s then s else y
  | None => y
  end.

(** The dictionary [lookup] of the Monthly View, filled row by row. *)
Definition monthly_lookup (filtered : list record) : gmap (text * text) text :=
  foldl (fun lookup r => <[(category r, country r) := priority_date r]> lookup)
        ∅ filtered.

(** A cell of the table of the Monthly View:
    [lookup.get((cat, country), [])] with the empty string as default. *)
Definition monthly_cell (data : list record) (table_type_key : tabletype)
    (visa_type_key : visatype) (cat cty : text) : text :=
  let filtered := List.filter (selected table_type_key visa_type_key) data in
  default [] (monthly_lookup filtered !! (cat, cty)).

(** ** app.py: the movement between two months *)

(** [date.toordinal()] as the library computes it: the days before the
    year, the days before the month, the day.  The month is one of a date,
    from 1 to 12. *)
Definition days_before_year (y : Z) : Z :=
  let y := y - 1 in y * 365 + y / 4 - y / 100 + y / 400.

Definition days_before_month (y m : Z) : Z :=
  match m with
  | 1 => 0 | 2 => 31 | 3 => 59 | 4 => 90 | 5 => 120 | 6 => 151 | 7 => 181
  | 8 => 212 | 9 => 243 | 10 => 273 | 11 => 304 | 12 => 334
  | _ => 0
  end
  + (if (2 <? m) && is_leap y then 1 else 0).

Definition toordinal (dt : datetime) : Z :=
  days_before_year (year dt) + days_before_month (year dt) (month dt) + day dt.

(** One date is before the other. *)
Definition date_lt (a b : datetime) : Prop :=
  year a < year b
  \/ year a = year b
     /\ (month a < month b \/ month a = month b /\ day a < day b).

Section Movement.
Context {U : Unicode}.

(** [calc_movement] of the Compare page; [(db - da).days] is the
    difference of the ordinals of the two dates. *)
Definition calc_movement (val_a val_b : text) : res text :=
  if negb (nonempty val_a) || negb (nonempty val_b) then Ok []
  else if negb (in_tuple val_a ["C"; "U"]%string)
          && negb (in_tuple val_b ["C"; "U"]%string) then
    try_except_ValueError
      (da ← strptime_Ymd val_a;
       db ← strptime_Ymd val_b;
       let delta := toordinal db - toordinal da in
       let sign := if 0 <? delta then pystr "+" else [] in
       Ok (sign ++ str_of_int delta))
      (Ok [])
  else if bool_decide (val_a = pystr "C") && bool_decide (val_b = pystr "C")
  then Ok (pystr "Current")
  else if bool_decide (val_b = pystr "C") then Ok (pystr "Became Current")
  else if bool_decide (val_a = pystr "C") then Ok (pystr "Retrogressed")
  else Ok [].

End Movement.

(** ** build.py: the rows of the export, grouped by month *)

(** The loop of [export] over the rows of the query: a row is a bulletin
    month with the five fields of a record; [data[month]] raises [KeyError]
    when the month is no key. *)
Definition export_row (data : gmap text (list record)) (r : text * record)
  : res (gmap text (list record)) :=
  let month := r.1 in
  let data := if bool_decide (month ∈ dom data) then data
              else <[month := []]> data in
  match data !! month with
  | Some l => Ok (<[month := l ++ [r.2]]> data)
  | None => Raise KeyError
  end.

Definition export_data (rows : list (text * record))
  : res (gmap text (list record)) :=
  for_each export_row ∅ rows.

(** The records of the rows of one month, in the order of the rows. *)
Definition rows_of_month (month : text) (rows : list (text * record))
  : list record :=
  map snd (List.filter (fun r => bool_decide (r.1 = month)) rows).

(** * Properties *)

(** ** The Latin-1 database satisfies the laws *)

Lemma in_range_spec lo hi c : in_range lo hi c = true <-> (lo <= c <= hi)%N.
Proof.
  unfold in_range. rewrite andb_true_iff, !N.leb_le. reflexivity.
Qed.

Lemma latin1_upper_cases c :
  latin1_upper c = [c] \/ latin1_upper c = [83; 83]%N
  \/ (latin1_upper c = [c - 32]%N /\ ((97 <= c <= 122) \/ (224 <= c <= 254))%N)
  \/ latin1_upper c = [924]%N \/ latin1_upper c = [376]%N.
Proof.
  unfold latin1_upper.
  destruct (in_range 97 122 c) eqn:E1.
  { apply in_range_spec in E1. right; right; left. split; [reflexivity|lia]. }
  destruct (c =? 181)%N; [tauto|].
  destruct (c =? 223)%N; [tauto|].
  destruct (in_range 224 246 c || in_range 248 254 c) eqn:E2.
  { apply orb_true_iff in E2. rewrite !in_range_spec in E2.
    right; right; left. split; [reflexivity|lia]. }
  destruct (c =? 255)%N; [tauto|].
  destruct (c =? 956)%N; tauto.
Qed.

Lemma latin1_isspace_spec c :
  latin1_isspace c = true <->
  ((9 <= c <= 13) \/ (28 <= c <= 32) \/ c = 133 \/ c = 160)%N.
Proof.
  unfold latin1_isspace.
  rewrite !orb_true_iff, !in_range_spec, !N.eqb_eq. tauto.
Qed.

Lemma latin1_laws : UnicodeLaws latin1.
Proof.
  split.
  - intros c v. simpl. unfold latin1_decimal.
    destruct (in_range 48 57 c) eqn:E; [|discriminate].
    apply in_range_spec in E. intros [= <-]. lia.
  - intros c Hc. simpl. unfold latin1_decimal.
    apply in_range_spec in Hc. rewrite Hc. reflexivity.
  - intros c v. simpl. unfold latin1_decimal.
    destruct (in_range 48 57 c) eqn:E; [|discriminate].
    apply in_range_spec in E. intros _.
    destruct (latin1_isspace c) eqn:Ec; [|reflexivity].
    apply latin1_isspace_spec in Ec. lia.
  - intros c. simpl.
    destruct (latin1_upper_cases c) as [H|[H|[[H _]|[H|H]]]]; rewrite H; discriminate.
  - intros c d. simpl. intros Hc Hd.
    destruct (latin1_isspace d) eqn:Ed; [|reflexivity].
    exfalso. apply latin1_isspace_spec in Ed.
    assert (Hn : ~ ((9 <= c <= 13) \/ (28 <= c <= 32) \/ c = 133 \/ c = 160)%N).
    { rewrite <- latin1_isspace_spec, Hc. discriminate. }
    destruct (latin1_upper_cases c) as [H|[H|[[H Hr]|[H|H]]]];
      rewrite H in Hd; simpl in Hd;
      repeat (destruct Hd as [Hd|Hd]; [subst d; lia|]); destruct Hd.
Qed.

(** ** Fiscal years and addresses *)

Lemma get_fiscal_year_cases year month :
  (10 <= month -> get_fiscal_year year month = year + 1)
  /\ (month < 10 -> get_fiscal_year year month = year).
Proof.
  unfold get_fiscal_year.
  destruct (Z.geb_spec month 10); split; intros; lia.
Qed.

Lemma MONTH_NAMES_english month :
  1 <= month <= 12 ->
  py_getitem MONTH_NAMES (month - 1) = Ok (pystr (english_month month)).
Proof.
  intros H.
  assert (Hc : month = 1 \/ month = 2 \/ month = 3 \/ month = 4 \/ month = 5
               \/ month = 6 \/ month = 7 \/ month = 8 \/ month = 9
               \/ month = 10 \/ month = 11 \/ month = 12) by lia.
  repeat (destruct Hc as [->|Hc]; [reflexivity|]). subst. reflexivity.
Qed.

(** C6.  For a calendar month between 1 and 12 the fiscal year is the
    calendar year plus one from October on and the calendar year before;
    the address of the bulletin is made of the base address, that fiscal
    year, the lower-case English name of the month and the calendar year
    itself. *)
Theorem get_bulletin_url_fiscal_year (year month : Z) :
  1 <= month <= 12 ->
  (10 <= month -> get_fiscal_year year month = year + 1)
  /\ (month < 10 -> get_fiscal_year year month = year)
  /\ get_fiscal_year 2025 10 = 2026
  /\ get_fiscal_year 2025 9 = 2025
  /\ get_bulletin_url year month =
       Ok (pystr "https://travel.state.gov/content/travel/en/legal/visa-law0/visa-bulletin/"
           ++ str_of_int (get_fiscal_year year month)
           ++ pystr "/visa-bulletin-for-"
           ++ pystr (english_month month)
           ++ pystr "-" ++ str_of_int year ++ pystr ".html").
Proof.
  intros H.
  destruct (get_fiscal_year_cases year month) as [H1 H2].
  repeat split; try assumption; try reflexivity.
  unfold get_bulletin_url.
  rewrite (MONTH_NAMES_english month H).
  reflexivity.
Qed.

Lemma get_bulletin_url_fiscal_year_witness :
  get_bulletin_url 2025 10 =
    Ok (pystr "https://travel.state.gov/content/travel/en/legal/visa-law0/visa-bulletin/2026/visa-bulletin-for-october-2025.html").
Proof.
  destruct (get_bulletin_url_fiscal_year 2025 10 ltac:(lia)) as (_ & _ & _ & _ & H).
  exact H.
Defined.

(** ** Month ranges *)

Lemma tuple_le_spec a b : tuple_le a b = true <-> ym_le a b.
Proof.
  unfold tuple_le, ym_le.
  rewrite orb_true_iff, andb_true_iff, Z.ltb_lt, Z.eqb_eq, Z.leb_le.
  reflexivity.
Qed.

Lemma tuple_le_false a b : tuple_le a b = false <-> ym_lt b a.
Proof.
  rewrite <- not_true_iff_false, tuple_le_spec.
  unfold ym_le, ym_lt. lia.
Qed.

Lemma classic_ym a b : ym_le a b \/ ym_lt b a.
Proof. unfold ym_le, ym_lt. lia. Qed.

Lemma ym_succ_lt a b : ym_succ a b -> ym_lt a b.
Proof.
  unfold ym_succ, ym_lt. intros [[H ->]|[H ->]]; simpl; lia.
Qed.

Lemma next_month_succ y m : m <= 12 -> ym_succ (y, m) (next_month y m).
Proof.
  intros H. unfold next_month, ym_succ. simpl.
  destruct (Z.gtb_spec (m + 1) 12).
  - right. split; [lia|reflexivity].
  - left. split; [lia|reflexivity].
Qed.

(** The loop leaves within the fuel that [month_range_fuel] gives, whatever
    the integers. *)
Lemma month_range_loop_total fuel : forall y m ey em,
  (month_range_fuel y m ey <= fuel)%nat ->
  is_Some (month_range_loop fuel y m ey em).
Proof.
  induction fuel as [|fuel IH]; intros y m ey em Hf; simpl.
  - destruct (tuple_le (y, m) (ey, em)) eqn:E; [|eauto].
    exfalso. apply tuple_le_spec in E. unfold ym_le in E. simpl in E.
    unfold month_range_fuel in Hf. lia.
  - destruct (tuple_le (y, m) (ey, em)) eqn:E; [|eauto].
    apply tuple_le_spec in E. unfold ym_le in E. simpl in E.
    destruct (next_month y m) as [y' m'] eqn:En.
    destruct (IH y' m' ey em) as [l Hl].
    + unfold next_month in En. unfold month_range_fuel in *.
      destruct (Z.gtb_spec (m + 1) 12); inversion En; subst; lia.
    + rewrite Hl. simpl. eauto.
Qed.

(** More fuel does not change what the loop yields. *)
Lemma month_range_loop_more fuel : forall y m ey em l k,
  month_range_loop fuel y m ey em = Some l ->
  month_range_loop (fuel + k) y m ey em = Some l.
Proof.
  induction fuel as [|fuel IH]; intros y m ey em l k; simpl.
  - destruct (tuple_le (y, m) (ey, em)) eqn:E; [discriminate|].
    intros [= <-]. destruct k; simpl; rewrite E; reflexivity.
  - destruct (tuple_le (y, m) (ey, em)) eqn:E; [|auto].
    destruct (next_month y m) as [y' m'].
    destruct (month_range_loop fuel y' m' ey em) as [r|] eqn:Er; [|discriminate].
    simpl. intros [= <-]. rewrite (IH _ _ _ _ _ k Er). reflexivity.
Qed.

(** What the loop yields from a valid month on. *)
Lemma month_range_loop_valid fuel : forall y m ey em l,
  month_range_loop fuel y m ey em = Some l ->
  m <= 12 -> 1 <= em <= 12 ->
  month_by_month l
  /\ (ym_lt (ey, em) (y, m) -> l = [])
  /\ (ym_le (y, m) (ey, em) -> head l = Some (y, m) /\ last l = Some (ey, em)).
Proof.
  induction fuel as [|fuel IH]; intros y m ey em l; simpl.
  - destruct (tuple_le (y, m) (ey, em)) eqn:E; [discriminate|].
    intros [= <-] _ _. apply tuple_le_false in E.
    split; [exact I|split; [reflexivity|]]. intros Hle. exfalso.
    unfold ym_lt, ym_le in *. simpl in *. lia.
  - destruct (tuple_le (y, m) (ey, em)) eqn:E.
    + destruct (next_month y m) as [y' m'] eqn:En.
      destruct (month_range_loop fuel y' m' ey em) as [r|] eqn:Er; [|discriminate].
      simpl. intros [= <-] Hm Hem.
      apply tuple_le_spec in E.
      pose proof (next_month_succ y m Hm) as Hs. rewrite En in Hs.
      assert (Hm' : m' <= 12).
      { unfold next_month in En.
        destruct (Z.gtb_spec (m + 1) 12); inversion En; subst; lia. }
      destruct (IH _ _ _ _ _ Er Hm' Hem) as (Hc & Hempty & Hends).
      split; [|split].
      * destruct r as [|b r]; [exact I|].
        split; [|exact Hc].
        destruct (classic_ym (y', m') (ey, em)) as [Hle|Hgt].
        -- destruct (Hends Hle) as [Hh _]. simpl in Hh. inversion Hh. exact Hs.
        -- discriminate (Hempty Hgt).
      * intros Hlt. exfalso. unfold ym_lt, ym_le in *. simpl in *. lia.
      * intros _. split; [reflexivity|].
        destruct (classic_ym (y', m') (ey, em)) as [Hle|Hgt].
        -- destruct (Hends Hle) as [Hh Hl].
           destruct r as [|b r]; [discriminate|].
           rewrite last_cons, Hl. reflexivity.
        -- rewrite (Hempty Hgt). simpl. f_equal.
           unfold ym_succ, ym_lt, ym_le in *. simpl in *.
           destruct Hs as [[? Hs]|[? Hs]]; inversion Hs; subst; f_equal; lia.
    + intros [= <-] _ _. apply tuple_le_false in E.
      split; [exact I|split; [reflexivity|]]. intros Hle. exfalso.
      unfold ym_lt, ym_le in *. simpl in *. lia.
Qed.

Lemma month_by_month_lookup l : forall i a b,
  month_by_month l -> l !! i = Some a -> l !! S i = Some b -> ym_succ a b.
Proof.
  induction l as [|x l IH]; intros i a b Hc Ha Hb; [discriminate|].
  destruct l as [|y l]; [discriminate|].
  destruct Hc as [Hxy Hc].
  destruct i as [|i]; simpl in Ha, Hb.
  - inversion Ha; inversion Hb; subst. exact Hxy.
  - exact (IH i a b Hc Ha Hb).
Qed.

Lemma generate_month_range_total sy sm ey em :
  is_Some (generate_month_range sy sm ey em).
Proof. apply month_range_loop_total. reflexivity. Qed.

Lemma generate_month_range_after sy sm ey em :
  ym_lt (ey, em) (sy, sm) -> generate_month_range sy sm ey em = Some [].
Proof.
  intros H. apply tuple_le_false in H.
  unfold generate_month_range.
  destruct (month_range_fuel sy sm ey); simpl; rewrite H; reflexivity.
Qed.

(** C5.  Between two bounds whose months are calendar months, the generator
    yields a finite list that goes month by month, December being followed
    by January of the next year, hence strictly upwards; when the start is
    not after the end the list begins with the start and ends with the end;
    when the start is after the end it is empty.  For all integers the
    generator stops, and yields nothing if the start is after the end. *)
Theorem generate_month_range_inclusive (start_year start_month end_year end_month : Z) :
  1 <= start_month <= 12 -> 1 <= end_month <= 12 ->
  exists l,
    generate_month_range start_year start_month end_year end_month = Some l
    /\ (forall fuel, (month_range_fuel start_year start_month end_year <= fuel)%nat ->
          month_range_loop fuel start_year start_month end_year end_month = Some l)
    /\ month_by_month l
    /\ (forall i a b, l !! i = Some a -> l !! S i = Some b -> ym_lt a b)
    /\ (ym_le (start_year, start_month) (end_year, end_month) ->
          head l = Some (start_year, start_month) /\ last l = Some (end_year, end_month))
    /\ (ym_lt (end_year, end_month) (start_year, start_month) -> l = [])
    /\ (forall sy sm ey em, is_Some (generate_month_range sy sm ey em))
    /\ (forall sy sm ey em, ym_lt (ey, em) (sy, sm) ->
          generate_month_range sy sm ey em = Some [])
    /\ generate_month_range 2024 11 2025 2
         = Some [(2024, 11); (2024, 12); (2025, 1); (2025, 2)]
    /\ generate_month_range 2025 3 2025 1 = Some [].
Proof.
  intros Hs He.
  destruct (generate_month_range_total start_year start_month end_year end_month)
    as [l Hl].
  exists l. split; [exact Hl|].
  destruct (month_range_loop_valid _ _ _ _ _ _ Hl ltac:(lia) He) as (Hc & Hempty & Hends).
  split; [|split; [exact Hc|split; [|split; [exact Hends|split; [exact Hempty|]]]]].
  - intros fuel Hf.
    replace fuel with (month_range_fuel start_year start_month end_year
                       + (fuel - month_range_fuel start_year start_month end_year))%nat
      by lia.
    apply month_range_loop_more. exact Hl.
  - intros i a b Ha Hb. apply ym_succ_lt.
    exact (month_by_month_lookup l i a b Hc Ha Hb).
  - split; [exact generate_month_range_total|].
    split; [exact generate_month_range_after|].
    split; reflexivity.
Qed.

Lemma generate_month_range_inclusive_witness :
  exists l, generate_month_range 2024 11 2025 2 = Some l
            /\ head l = Some (2024, 11) /\ last l = Some (2025, 2).
Proof.
  destruct (generate_month_range_inclusive 2024 11 2025 2 ltac:(lia) ltac:(lia))
    as (l & Hl & _ & _ & _ & Hends & _).
  exists l. split; [exact Hl|]. apply Hends. left. simpl. lia.
Defined.

(** ** Cleaning *)

(** C7.  On the text "A", space, soft hyphen, space, "B" the function
    [_clean_text] leaves two spaces, which a second application collapses:
    it is not idempotent there.  The run of two non-breaking spaces of
    "A  B" does become one space. *)
Theorem clean_text_soft_hyphen_not_idempotent :
  let x := [65; 32; 173; 32; 66]%N in
  _clean_text (U:=latin1) x = [65; 32; 32; 66]%N
  /\ _clean_text (U:=latin1) (_clean_text (U:=latin1) x) = [65; 32; 66]%N
  /\ _clean_text (U:=latin1) (_clean_text (U:=latin1) x) <> _clean_text (U:=latin1) x
  /\ _clean_text (U:=latin1) [65; 160; 160; 66]%N = pystr "A B".
Proof.
  repeat split; try reflexivity. discriminate.
Qed.

(** ** The exception monad *)

Lemma res_bind_Ok {A B} (a : A) (k : A -> res B) : (Ok a ≫= k) = k a.
Proof. reflexivity. Qed.

Lemma res_bind_Raise {A B} (e : exn) (k : A -> res B) : (Raise e ≫= k) = Raise e.
Proof. reflexivity. Qed.

Ltac res_simpl := rewrite ?res_bind_Ok, ?res_bind_Raise.

(** ** Decimal writing *)

Lemma pystr_inj a b : pystr a = pystr b -> a = b.
Proof.
  unfold pystr. intros H.
  rewrite <- (string_of_list_ascii_of_string a), <- (string_of_list_ascii_of_string b).
  f_equal. revert H.
  generalize (list_ascii_of_string a) as l, (list_ascii_of_string b) as k.
  induction l as [|x l IH]; intros [|y k] H; try discriminate; [reflexivity|].
  simpl in H. inversion H as [[Hxy Hlk]].
  f_equal; [|exact (IH k Hlk)].
  rewrite <- (ascii_N_embedding x), <- (ascii_N_embedding y), Hxy. reflexivity.
Qed.

Lemma str_of_int_inj a b : str_of_int a = str_of_int b -> a = b.
Proof.
  unfold str_of_int. intros H. apply pystr_inj in H.
  apply DecimalZ.to_int_inj.
  pose proof (NilEmpty.isi (Z.to_int a)) as Ha.
  pose proof (NilEmpty.isi (Z.to_int b)) as Hb.
  rewrite H in Ha. congruence.
Qed.

(** The characters of [str(n)] are digits, after a minus sign at most. *)
Lemma string_of_uint_digits d :
  Forall (fun c => (48 <= c <= 57)%N) (pystr (NilEmpty.string_of_uint d)).
Proof.
  induction d; simpl; [constructor|..]; (constructor; [vm_compute; split; discriminate|exact IHd]).
Qed.

Lemma str_of_int_chars n :
  Forall (fun c => (48 <= c <= 57)%N \/ c = 45%N) (str_of_int n).
Proof.
  unfold str_of_int. destruct (Z.to_int n) as [d|d]; simpl.
  - eapply Forall_impl; [apply string_of_uint_digits|]. intros c Hc. left. exact Hc.
  - constructor; [right; reflexivity|].
    eapply Forall_impl; [apply string_of_uint_digits|]. intros c Hc. left. exact Hc.
Qed.

(** The decimal number whose first digit is [k] and whose other digits
    are [l]. *)
Lemma uint_digit_string k l :
  0 <= k <= 9 ->
  pystr (NilEmpty.string_of_uint (uint_digit k l))
  = Z.to_N (48 + k) :: pystr (NilEmpty.string_of_uint l).
Proof.
  intros H.
  assert (Hc : k = 0 \/ k = 1 \/ k = 2 \/ k = 3 \/ k = 4 \/ k = 5 \/ k = 6
               \/ k = 7 \/ k = 8 \/ k = 9) by lia.
  repeat (destruct Hc as [->|Hc]; [reflexivity|]). subst. reflexivity.
Qed.

Lemma uint_digit_acc k l acc :
  0 <= k <= 9 ->
  exists acc', Pos.of_uint_acc (uint_digit k l) acc = Pos.of_uint_acc l acc'
               /\ Z.pos acc' = 10 * Z.pos acc + k.
Proof.
  intros H.
  assert (Hc : k = 0 \/ k = 1 \/ k = 2 \/ k = 3 \/ k = 4 \/ k = 5 \/ k = 6
               \/ k = 7 \/ k = 8 \/ k = 9) by lia.
  repeat (destruct Hc as [->|Hc];
          [eexists; split; [reflexivity|lia]|]).
  subst. eexists; split; [reflexivity|lia].
Qed.

Lemma uint_digit_lead k l :
  1 <= k <= 9 ->
  Decimal.norm (Decimal.Pos (uint_digit k l)) = Decimal.Pos (uint_digit k l)
  /\ exists acc, Pos.of_uint (uint_digit k l) = N.pos (Pos.of_uint_acc l acc)
                 /\ Z.pos acc = k.
Proof.
  intros H.
  assert (Hc : k = 1 \/ k = 2 \/ k = 3 \/ k = 4 \/ k = 5 \/ k = 6
               \/ k = 7 \/ k = 8 \/ k = 9) by lia.
  repeat (destruct Hc as [->|Hc];
          [split; [reflexivity|eexists; split; [reflexivity|reflexivity]]|]).
  subst. split; [reflexivity|eexists; split; [reflexivity|reflexivity]].
Qed.

Lemma str_of_int_four_digits y :
  1000 <= y <= 9999 -> str_of_int y = zero_padded 4 y.
Proof.
  intros H.
  set (a := (y / 1000) mod 10). set (b := (y / 100) mod 10).
  set (c := (y / 10) mod 10). set (d := (y / 1) mod 10).
  assert (Hd : 1 <= a <= 9 /\ 0 <= b <= 9 /\ 0 <= c <= 9 /\ 0 <= d <= 9
               /\ y = 1000 * a + 100 * b + 10 * c + d).
  { unfold a, b, c, d. Z.div_mod_to_equations. lia. }
  destruct Hd as (Ha & Hb & Hc & Hd & Hy).
  set (u := uint_digit a (uint_digit b (uint_digit c (uint_digit d Decimal.Nil)))).
  assert (Hu : Z.to_int y = Decimal.Pos u).
  { destruct (uint_digit_lead a (uint_digit b (uint_digit c (uint_digit d Decimal.Nil))) Ha)
      as (Hnorm & acc0 & E0 & V0).
    destruct (uint_digit_acc b (uint_digit c (uint_digit d Decimal.Nil)) acc0 Hb)
      as (acc1 & E1 & V1).
    destruct (uint_digit_acc c (uint_digit d Decimal.Nil) acc1 Hc) as (acc2 & E2 & V2).
    destruct (uint_digit_acc d Decimal.Nil acc2 Hd) as (acc3 & E3 & V3).
    assert (Hval : Z.of_int (Decimal.Pos u) = y).
    { unfold u. simpl Z.of_int. unfold Z.of_uint.
      rewrite E0, E1, E2, E3. simpl. lia. }
    rewrite <- Hval, DecimalZ.to_of. exact Hnorm. }
  unfold str_of_int. rewrite Hu. simpl NilEmpty.string_of_int. unfold u.
  rewrite !uint_digit_string by lia.
  reflexivity.
Qed.

Lemma str_of_int_one_digit y :
  0 <= y <= 9 -> str_of_int y = [Z.to_N (48 + y)].
Proof.
  intros H.
  assert (Hc : y = 0 \/ y = 1 \/ y = 2 \/ y = 3 \/ y = 4 \/ y = 5 \/ y = 6
               \/ y = 7 \/ y = 8 \/ y = 9) by lia.
  repeat (destruct Hc as [->|Hc]; [reflexivity|]). subst. reflexivity.
Qed.

Lemma str_of_int_two_digits y :
  10 <= y <= 99 -> str_of_int y = zero_padded 2 y.
Proof.
  intros H.
  set (c := (y / 10) mod 10). set (d := (y / 1) mod 10).
  assert (Hd : 1 <= c <= 9 /\ 0 <= d <= 9 /\ y = 10 * c + d).
  { unfold c, d. Z.div_mod_to_equations. lia. }
  destruct Hd as (Hc & Hd & Hy).
  set (u := uint_digit c (uint_digit d Decimal.Nil)).
  assert (Hu : Z.to_int y = Decimal.Pos u).
  { destruct (uint_digit_lead c (uint_digit d Decimal.Nil) Hc) as (Hnorm & acc0 & E0 & V0).
    destruct (uint_digit_acc d Decimal.Nil acc0 Hd) as (acc1 & E1 & V1).
    assert (Hval : Z.of_int (Decimal.Pos u) = y).
    { unfold u. simpl Z.of_int. unfold Z.of_uint. rewrite E0, E1. simpl. lia. }
    rewrite <- Hval, DecimalZ.to_of. exact Hnorm. }
  unfold str_of_int. rewrite Hu. simpl NilEmpty.string_of_int. unfold u.
  rewrite !uint_digit_string by lia.
  reflexivity.
Qed.

Lemma str_of_int_three_digits y :
  100 <= y <= 999 -> str_of_int y = zero_padded 3 y.
Proof.
  intros H.
  set (b := (y / 100) mod 10). set (c := (y / 10) mod 10). set (d := (y / 1) mod 10).
  assert (Hd : 1 <= b <= 9 /\ 0 <= c <= 9 /\ 0 <= d <= 9
               /\ y = 100 * b + 10 * c + d).
  { unfold b, c, d. Z.div_mod_to_equations. lia. }
  destruct Hd as (Hb & Hc & Hd & Hy).
  set (u := uint_digit b (uint_digit c (uint_digit d Decimal.Nil))).
  assert (Hu : Z.to_int y = Decimal.Pos u).
  { destruct (uint_digit_lead b (uint_digit c (uint_digit d Decimal.Nil)) Hb)
      as (Hnorm & acc0 & E0 & V0).
    destruct (uint_digit_acc c (uint_digit d Decimal.Nil) acc0 Hc) as (acc1 & E1 & V1).
    destruct (uint_digit_acc d Decimal.Nil acc1 Hd) as (acc2 & E2 & V2).
    assert (Hval : Z.of_int (Decimal.Pos u) = y).
    { unfold u. simpl Z.of_int. unfold Z.of_uint. rewrite E0, E1, E2. simpl. lia. }
    rewrite <- Hval, DecimalZ.to_of. exact Hnorm. }
  unfold str_of_int. rewrite Hu. simpl NilEmpty.string_of_int. unfold u.
  rewrite !uint_digit_string by lia.
  reflexivity.
Qed.

(** A year below 1000 is written with fewer than four digits. *)
Lemma str_of_int_short y :
  1 <= y <= 999 -> (1 <= length (str_of_int y) < 4)%nat.
Proof.
  intros H.
  destruct (Z.le_gt_cases y 9); [rewrite str_of_int_one_digit by lia; cbn; lia|].
  destruct (Z.le_gt_cases y 99); [rewrite str_of_int_two_digits by lia; cbn; lia|].
  rewrite str_of_int_three_digits by lia. cbn. lia.
Qed.

Lemma format_02d_month m :
  1 <= m <= 12 -> format_02d m = zero_padded 2 m.
Proof.
  intros H.
  assert (Hc : m = 1 \/ m = 2 \/ m = 3 \/ m = 4 \/ m = 5 \/ m = 6 \/ m = 7
               \/ m = 8 \/ m = 9 \/ m = 10 \/ m = 11 \/ m = 12) by lia.
  repeat (destruct Hc as [->|Hc]; [reflexivity|]). subst. reflexivity.
Qed.

Lemma zero_padded_2 n :
  zero_padded 2 n = [Z.to_N (48 + (n / 10) mod 10); Z.to_N (48 + (n / 1) mod 10)].
Proof. reflexivity. Qed.

Lemma zero_padded_4 n :
  zero_padded 4 n = [Z.to_N (48 + (n / 1000) mod 10); Z.to_N (48 + (n / 100) mod 10);
                     Z.to_N (48 + (n / 10) mod 10); Z.to_N (48 + (n / 1) mod 10)].
Proof. reflexivity. Qed.

(** From the year 1000 on, [strftime] writes the ISO form. *)
Lemma strftime_Ymd_isoformat dt :
  1000 <= year dt <= 9999 -> strftime_Ymd dt = isoformat dt.
Proof.
  intros H. unfold strftime_Ymd, isoformat.
  rewrite str_of_int_four_digits by exact H. reflexivity.
Qed.


(** ** Dates *)

Section DateProperties.
Context {U : Unicode}.

Lemma in_tuple_two s a b :
  in_tuple s [a; b] = bool_decide (s = pystr a \/ s = pystr b).
Proof.
  unfold in_tuple. apply bool_decide_ext. simpl.
  rewrite !elem_of_cons, elem_of_nil. tauto.
Qed.

Lemma py_int_digits_raise l : forall acc e,
  foldl (fun (acc : res Z) c =>
           n ← acc;
           match decimal c with
           | Some v => Ok (10 * n + v)
           | None => Raise ValueError
           end) acc l = Raise e ->
  acc = Raise e \/ e = ValueError.
Proof.
  induction l as [|c l IH]; intros acc e; simpl; [auto|].
  intros H. apply IH in H. destruct H as [H|H]; [|auto].
  destruct acc as [n|e']; simpl in H.
  - destruct (decimal c); inversion H. auto.
  - auto.
Qed.

Lemma py_int_raise s e : py_int s = Raise e -> e = ValueError.
Proof.
  unfold py_int. destruct (str_strip s) as [|c l]; [congruence|].
  intros H. apply py_int_digits_raise in H. destruct H; [discriminate|assumption].
Qed.

Lemma list_index_raise x l e : list_index x l = Raise e -> e = ValueError.
Proof.
  induction l as [|y l IH]; simpl; [congruence|].
  case_bool_decide; [discriminate|].
  destruct (list_index x l); simpl; [discriminate|]. intros [= <-]. auto.
Qed.

Lemma make_date_raise y m d e : make_date y m d = Raise e -> e = ValueError.
Proof. unfold make_date. case_match; congruence. Qed.

(** [strptime] raises nothing but [ValueError]. *)
Lemma strptime_raise s fmt e : strptime s fmt = Raise e -> e = ValueError.
Proof.
  unfold strptime.
  destruct (re_match_date fmt s) as [[[[d b] y] rest]|]; [|congruence].
  destruct rest; [|congruence].
  destruct (py_int y) as [yy|e1] eqn:Ey; res_simpl.
  2:{ intros [= ?]; subst. eapply py_int_raise, Ey. }
  destruct (list_index (str_lower b) a_month) as [mm|e2] eqn:Em; res_simpl.
  2:{ intros [= ?]; subst. eapply list_index_raise, Em. }
  destruct (py_int d) as [dd|e3] eqn:Ed; res_simpl.
  2:{ intros [= ?]; subst. eapply py_int_raise, Ed. }
  apply make_date_raise.
Qed.


(** [parse_date] returns, and returns what the specification says. *)
Lemma parse_date_ok raw : parse_date raw = Ok (parse_date_spec raw).
Proof.
  unfold parse_date, parse_date_spec, date_of_token.
  rewrite !in_tuple_two.
  repeat case_bool_decide; try reflexivity.
  destruct (strptime _ DDMonYY) as [dt|e] eqn:E1; res_simpl; [reflexivity|].
  apply strptime_raise in E1. subst e. unfold try_except_ValueError at 1.
  destruct (strptime _ DDMonYYYY) as [dt|e] eqn:E2; res_simpl; [reflexivity|].
  apply strptime_raise in E2. subst e. reflexivity.
Qed.

End DateProperties.

Section MatchProperties.
Context {U : Unicode}.

Lemma re_group_d_app s d r : (d, r) ∈ re_group_d s -> s = d ++ r.
Proof.
  unfold re_group_d. rewrite !elem_of_app.
  intros H.
  repeat match goal with
         | H : _ \/ _ |- _ => destruct H as [H|H]
         end;
    (destruct s as [|a [|b s']]; try (apply elem_of_nil in H; contradiction);
     repeat match type of H with
            | _ ∈ (if ?c then _ else _) => destruct c
            end;
     try (apply elem_of_nil in H; contradiction);
     apply list_elem_of_singleton in H; inversion H; reflexivity).
Qed.

Lemma re_group_b_app s b r : (b, r) ∈ re_group_b s -> s = b ++ r.
Proof.
  unfold re_group_b.
  destruct s as [|x [|y [|z s']]]; try (intros H; apply elem_of_nil in H; contradiction).
  case_bool_decide; intros Hin; [|apply elem_of_nil in Hin; contradiction].
  apply list_elem_of_singleton in Hin. inversion Hin. reflexivity.
Qed.

Lemma re_group_year_inv n s y r :
  (y, r) ∈ re_group_year n s ->
  s = y ++ r /\ length y = n /\ forallb is_decimal y = true.
Proof.
  unfold re_group_year.
  destruct ((length (take n s) =? n)%nat && forallb is_decimal (take n s)) eqn:E;
    intros H; [|apply elem_of_nil in H; contradiction].
  apply list_elem_of_singleton in H. inversion H; subst.
  apply andb_true_iff in E. destruct E as [E1 E2].
  apply Nat.eqb_eq in E1.
  split; [symmetry; apply take_drop|]. split; assumption.
Qed.

Lemma re_match_date_inv fmt s d b y r :
  re_match_date fmt s = Some (d, b, y, r) ->
  s = d ++ b ++ y ++ r
  /\ length y = year_digits fmt /\ forallb is_decimal y = true.
Proof.
  unfold re_match_date. intros H.
  apply head_Some_elem_of in H.
  apply list_elem_of_bind in H. destruct H as ([d' r1] & H1 & Hd).
  apply list_elem_of_bind in H1. destruct H1 as ([b' r2] & H2 & Hb).
  apply list_elem_of_bind in H2. destruct H2 as ([y' r3] & H3 & Hy).
  apply list_elem_of_singleton in H3. inversion H3; subst.
  apply re_group_d_app in Hd. apply re_group_b_app in Hb.
  apply re_group_year_inv in Hy. destruct Hy as (Hy & Hlen & Hdec).
  subst. auto.
Qed.

End MatchProperties.

Section PivotProperties.
Context {U : Unicode} {L : UnicodeLaws U}.

(** [int] of two decimal digits *)
Lemma py_int_two_digits y1 y2 v1 v2 :
  decimal y1 = Some v1 -> decimal y2 = Some v2 ->
  py_int [y1; y2] = Ok (10 * v1 + v2).
Proof.
  intros H1 H2.
  pose proof (decimal_nonspace _ _ H1) as S1.
  pose proof (decimal_nonspace _ _ H2) as S2.
  unfold py_int, str_strip. simpl. rewrite S1. simpl. rewrite S2. simpl.
  rewrite H1. res_simpl. rewrite H2. reflexivity.
Qed.

Lemma strptime_two_digit_year s dt :
  strptime s DDMonYY = Ok dt ->
  exists d b y1 y2 v1 v2,
    s = d ++ b ++ [y1; y2]
    /\ decimal y1 = Some v1 /\ decimal y2 = Some v2
    /\ 0 <= 10 * v1 + v2 <= 99
    /\ year dt = (if 10 * v1 + v2 <=? 68 then 10 * v1 + v2 + 2000
                  else 10 * v1 + v2 + 1900).
Proof.
  unfold strptime.
  destruct (re_match_date DDMonYY s) as [[[[d b] y] rest]|] eqn:Em; [|discriminate].
  destruct rest; [|discriminate].
  apply re_match_date_inv in Em. destruct Em as (Hs & Hlen & Hdec).
  destruct y as [|y1 [|y2 [|]]]; try discriminate.
  simpl in Hdec. unfold is_decimal in Hdec.
  destruct (decimal y1) as [v1|] eqn:E1; [|discriminate].
  destruct (decimal y2) as [v2|] eqn:E2; [|discriminate].
  rewrite (py_int_two_digits _ _ _ _ E1 E2). res_simpl.
  destruct (list_index (str_lower b) a_month) as [mm|]; [|discriminate]. res_simpl.
  destruct (py_int d) as [dd|]; [|discriminate]. res_simpl.
  unfold make_date. case_match; [|discriminate].
  intros [= <-]. simpl.
  exists d, b, y1, y2, v1, v2.
  pose proof (decimal_bound _ _ E1). pose proof (decimal_bound _ _ E2).
  rewrite app_nil_r in Hs.
  repeat split; try assumption; lia.
Qed.

End PivotProperties.




(** C10.  A token that [strptime] accepts in the format with a two-digit
    year ends with two decimal digits; when they read 69 to 99 the year is
    1969 to 1999, when they read 00 to 68 it is 2000 to 2068, so the year
    always lies between 1969 and 2068. *)
Theorem two_digit_year_pivot :
  (forall (U : Unicode), UnicodeLaws U -> forall (s : text) (dt : datetime),
     strptime s DDMonYY = Ok dt ->
     exists d b y1 y2 v1 v2,
       s = d ++ b ++ [y1; y2]
       /\ decimal y1 = Some v1 /\ decimal y2 = Some v2
       /\ (69 <= 10 * v1 + v2 <= 99 -> year dt = 1900 + (10 * v1 + v2))
       /\ (0 <= 10 * v1 + v2 <= 68 -> year dt = 2000 + (10 * v1 + v2))
       /\ 0 <= 10 * v1 + v2 <= 99
       /\ 1969 <= year dt <= 2068)
  /\ parse_date (U:=latin1) (pystr "01FEB69") = Ok (pystr "1969-02-01")
  /\ parse_date (U:=latin1) (pystr "01FEB68") = Ok (pystr "2068-02-01").
Proof.
  split; [|split; vm_compute; reflexivity].
  intros U L s dt H.
  destruct (strptime_two_digit_year s dt H)
    as (d & b & y1 & y2 & v1 & v2 & Hs & H1 & H2 & Hr & Hy).
  exists d, b, y1, y2, v1, v2.
  destruct (Z.leb_spec (10 * v1 + v2) 68);
    repeat split; try assumption; intros; lia.
Qed.

Lemma two_digit_year_pivot_witness :
  1969 <= year {| year := 1969; month := 2; day := 1 |} <= 2068.
Proof.
  destruct two_digit_year_pivot as [H _].
  destruct (H latin1 latin1_laws (pystr "01FEB69")
              {| year := 1969; month := 2; day := 1 |} eq_refl)
    as (d & b & y1 & y2 & v1 & v2 & _ & _ & _ & _ & _ & _ & Hy).
  exact Hy.
Defined.

(** ** Stripping *)

Lemma list_nil_or_snoc {A} (l : list A) : l = [] \/ exists r x, l = r ++ [x].
Proof. induction l using rev_ind; [left; reflexivity|right; eauto]. Qed.

Section StripProperties.
Context {U : Unicode}.

Lemma str_lstrip_head s c : head (str_lstrip s) = Some c -> isspace c = false.
Proof.
  induction s as [|x s IH]; simpl; [discriminate|].
  destruct (isspace x) eqn:E; [exact IH|].
  simpl. intros [= <-]. exact E.
Qed.

Lemma str_rstrip_cons c s :
  str_rstrip (c :: s) =
    match str_rstrip s with
    | [] => if isspace c then [] else [c]
    | d :: r => c :: d :: r
    end.
Proof. reflexivity. Qed.

Lemma str_rstrip_last s c : last (str_rstrip s) = Some c -> isspace c = false.
Proof.
  induction s as [|x s IH]; [discriminate|].
  rewrite str_rstrip_cons.
  destruct (str_rstrip s) as [|y r] eqn:E.
  - destruct (isspace x) eqn:Ex; [discriminate|]. simpl. intros [= <-]. exact Ex.
  - rewrite last_cons_cons. exact IH.
Qed.

Lemma str_rstrip_head s c :
  head s = Some c -> isspace c = false -> head (str_rstrip s) = Some c.
Proof.
  destruct s as [|x s]; [discriminate|]. simpl head. intros [= ->] Hc.
  rewrite str_rstrip_cons. destruct (str_rstrip s); [rewrite Hc|]; reflexivity.
Qed.

Lemma str_strip_trimmed s : trimmed (str_strip s).
Proof.
  unfold str_strip. split.
  - intros c Hc.
    destruct (str_lstrip s) as [|x r] eqn:E; [discriminate|].
    assert (Hx : isspace x = false) by (apply (str_lstrip_head s); rewrite E; reflexivity).
    rewrite (str_rstrip_head (x :: r) x eq_refl Hx) in Hc.
    inversion Hc; subst. exact Hx.
  - apply str_rstrip_last.
Qed.

Lemma str_rstrip_id s :
  (forall c, last s = Some c -> isspace c = false) -> str_rstrip s = s.
Proof.
  induction s as [|x s IH]; [reflexivity|].
  intros H. rewrite str_rstrip_cons.
  destruct s as [|y s].
  - simpl. rewrite (H x eq_refl). reflexivity.
  - rewrite IH; [reflexivity|].
    intros c Hc. apply H. rewrite last_cons, Hc. reflexivity.
Qed.

Lemma trimmed_str_strip s : trimmed s -> str_strip s = s.
Proof.
  intros [Hh Hl]. unfold str_strip.
  assert (E : str_lstrip s = s).
  { destruct s as [|x s]; [reflexivity|]. simpl. rewrite (Hh x eq_refl). reflexivity. }
  rewrite E. apply str_rstrip_id. exact Hl.
Qed.

Lemma clean_text_trimmed raw : trimmed (_clean_text raw).
Proof. apply str_strip_trimmed. Qed.

Context {L : UnicodeLaws U}.

Lemma trimmed_str_upper s : trimmed s -> trimmed (str_upper s).
Proof.
  intros [Hh Hl]. unfold str_upper. split.
  - destruct s as [|x s]; [discriminate|]. simpl.
    pose proof (to_upper_full_nonempty x) as Hne.
    destruct (to_upper_full x) as [|d ds] eqn:E; [contradiction|].
    simpl. intros c [= <-].
    apply (to_upper_full_nonspace x); [apply Hh; reflexivity|].
    rewrite E. left. reflexivity.
  - destruct (list_nil_or_snoc s) as [->|(r & x & ->)]; [discriminate|].
    rewrite flat_map_app. simpl. rewrite app_nil_r.
    pose proof (to_upper_full_nonempty x) as Hne.
    destruct (list_nil_or_snoc (to_upper_full x)) as [E|(ds & d & E)]; [contradiction|].
    rewrite E, app_assoc, last_snoc. intros c [= <-].
    apply (to_upper_full_nonspace x); [apply Hl; apply last_snoc|].
    rewrite E. apply in_or_app. right. left. reflexivity.
Qed.

(** The [strip()] of [cleaned.upper().strip()] has nothing to strip. *)
Lemma str_strip_upper_clean raw :
  str_strip (str_upper (_clean_text raw)) = str_upper (_clean_text raw).
Proof. apply trimmed_str_strip, trimmed_str_upper, clean_text_trimmed. Qed.

End StripProperties.

(** ** Countries *)

Section CountryProperties.
Context {U : Unicode}.

Lemma abbrev_map_lookup k :
  abbrev_map !! k = first_match country_abbreviations k.
Proof.
  unfold first_match, country_abbreviations, equals. cbn [List.find fst snd].
  repeat (case_bool_decide; [subst k; reflexivity|]).
  unfold abbrev_map. cbn [list_to_map foldr uncurry fst snd].
  rewrite !lookup_insert_ne by congruence. apply lookup_empty.
Qed.

Context {L : UnicodeLaws U}.

(** *** The repair of hyphen breaks *)

Hypothesis space_not_word : forall c, isspace c = true -> isword c = false.

Lemma str_lstrip_drop s :
  drop (length s - length (str_lstrip s)) s = str_lstrip s
  /\ (length (str_lstrip s) <= length s)%nat.
Proof.
  induction s as [|c r [IH1 IH2]]; [split; reflexivity|].
  cbn [str_lstrip]. destruct (isspace c).
  - cbn [length]. split; [|lia].
    replace (S (length r) - length (str_lstrip r))%nat
      with (S (length r - length (str_lstrip r))) by lia.
    exact IH1.
  - rewrite Nat.sub_diag. split; [reflexivity|lia].
Qed.

(** The white space and the word character after a hyphen: the greedy
    star never has to give a character back. *)
Lemma re_spaces_word_lstrip s :
  re_spaces_word s
  = match str_lstrip s with
    | d :: rest =>
        if isword d then Some (d, (length s - length rest)%nat) else None
    | [] => None
    end.
Proof.
  induction s as [|c r IH]; [reflexivity|].
  cbn [re_spaces_word str_lstrip]. destruct (isspace c) eqn:Es.
  - rewrite (space_not_word c Es), IH.
    destruct (str_lstrip_drop r) as [_ Hl].
    destruct (str_lstrip r) as [|d rest]; [reflexivity|].
    destruct (isword d); [|reflexivity].
    cbn [length] in *. do 2 f_equal. lia.
  - destruct (isword c); [|reflexivity].
    cbn [length]. do 2 f_equal. lia.
Qed.

(** Characters that belong to a match just replaced are passed over. *)
Lemma re_sub_hyphen_breaks_skip s : forall k,
  re_sub_hyphen_breaks k s = re_sub_hyphen_breaks 0 (drop k s).
Proof.
  induction s as [|c r IH]; intros [|k]; try reflexivity.
  cbn [re_sub_hyphen_breaks drop]. apply IH.
Qed.

Lemma join_hyphen_breaks_joining s :
  join_hyphen_breaks_from true s
  = match str_lstrip s with
    | d :: rest => d :: join_hyphen_breaks_from false rest
    | [] => []
    end.
Proof.
  induction s as [|c r IH]; [reflexivity|].
  cbn [join_hyphen_breaks_from str_lstrip].
  destruct (isspace c); [exact IH|reflexivity].
Qed.

Lemma re_sub_hyphen_breaks_join_bounded n : forall s,
  (length s <= n)%nat ->
  re_sub_hyphen_breaks 0 s = join_hyphen_breaks s.
Proof.
  unfold join_hyphen_breaks.
  induction n as [|n IH]; intros [|c r] Hlen; try reflexivity;
    [cbn [length] in Hlen; lia|].
  cbn [length] in Hlen.
  cbn [re_sub_hyphen_breaks].
  assert (Hkeep : c :: re_sub_hyphen_breaks 0 r
                  = c :: join_hyphen_breaks_from false r)
    by (f_equal; apply IH; lia).
  unfold re_hyphen_break.
  destruct r as [|h r']; [exact Hkeep|].
  cbn [join_hyphen_breaks_from].
  destruct h as [|p]; [exact Hkeep|].
  do 6 (try (destruct p as [p|p|]; try exact Hkeep)).
  unfold word_follows.
  rewrite re_spaces_word_lstrip.
  destruct (str_lstrip_drop r') as [Hdrop Hle].
  destruct (isword c); cbn [andb]; [|exact Hkeep].
  destruct (str_lstrip r') as [|d rest] eqn:El; [exact Hkeep|].
  destruct (isword d); [|exact Hkeep].
  cbn [length] in Hdrop, Hle.
  rewrite re_sub_hyphen_breaks_skip. cbn [drop].
  replace (length r' - length rest)%nat
    with (S (length r' - S (length rest))) by lia.
  assert (Hrest : drop (S (length r' - S (length rest))) r' = rest).
  { rewrite <- (Nat.add_1_l (length r' - S (length rest))), Nat.add_comm.
    rewrite <- drop_drop, Hdrop. reflexivity. }
  rewrite Hrest, join_hyphen_breaks_joining, El.
  do 2 f_equal. apply IH. cbn [length] in Hlen. lia.
Qed.

(** The substitution of the code repairs the hyphen breaks. *)
Lemma re_sub_hyphen_breaks_join s :
  re_sub_hyphen_breaks 0 s = join_hyphen_breaks s.
Proof. apply (re_sub_hyphen_breaks_join_bounded (length s)). reflexivity. Qed.

Lemma normalize_country_rules raw :
  normalize_country raw = normalize_country_spec raw.
Proof.
  unfold normalize_country, normalize_country_spec.
  rewrite re_sub_hyphen_breaks_join.
  rewrite str_strip_upper_clean, abbrev_map_lookup.
  set (lowered := str_lower _).
  set (by_abbreviation := match first_match country_abbreviations _ with
                          | Some name => name
                          | None => _
                          end).
  unfold first_match, country_rules, contains. cbn [List.find fst snd].
  repeat (destruct (str_in _ lowered); cbn [orb andb]; try reflexivity).
Qed.

End CountryProperties.

(** On U+0000..U+00FF no white space is a word character. *)
Lemma latin1_space_not_word c :
  isspace (Unicode:=latin1) c = true -> isword (U:=latin1) c = false.
Proof.
  intros H. apply latin1_isspace_spec in H.
  apply not_true_is_false. unfold isword. cbn [isalnum latin1].
  unfold latin1_isalnum.
  rewrite !orb_true_iff, !in_range_spec, !N.eqb_eq. lia.
Qed.

(** C3.  [normalize_country] cleans the text, joins hyphen-broken words and
    tries, on the lower-cased result, the keyword rules in order:
    "chargeability", or "charge" together with "except"; "china"; "india";
    "mexico"; "philip".  When none applies the upper-cased cleaned text is
    looked up among CH, IN, ME, MX and PH, and otherwise the cleaned text
    is returned as it is.  The joining is that of the specification: the
    substitution of the code removes a hyphen between two word characters
    together with the white space after it.  No white space is taken to be
    a word character. *)
Theorem normalize_country_priority_rules :
  (forall (U : Unicode), UnicodeLaws U ->
     (forall c, isspace c = true -> isword c = false) ->
     forall raw : text,
       normalize_country raw = normalize_country_spec raw
       /\ re_sub_hyphen_breaks 0 (_clean_text raw)
          = join_hyphen_breaks (_clean_text raw))
  /\ (forall (U : Unicode) (c d : N) (ws r : text),
        isword c = true -> Forall (fun x => isspace x = true) ws ->
        isword d = true -> isspace d = false ->
        join_hyphen_breaks (c :: 45%N :: ws ++ d :: r)
        = c :: d :: join_hyphen_breaks r)
  /\ (forall (U : Unicode) (c : N) (r : text),
        isword c = false \/ head r <> Some 45%N ->
        join_hyphen_breaks (c :: r) = c :: join_hyphen_breaks r)
  /\ normalize_country (U:=latin1) (pystr "PHILIP-PINES") = pystr "Philippines"
  /\ normalize_country (U:=latin1) (pystr "Unknownland") = pystr "Unknownland"
  /\ normalize_country (U:=latin1) (pystr "Chargeability China") = pystr "All Chargeability Areas"
  /\ normalize_country (U:=latin1) (pystr "China (charge)") = pystr "China"
  /\ normalize_country (U:=latin1) (pystr "mx") = pystr "Mexico"
  /\ normalize_country (U:=latin1) (pystr "CHI-NA") = pystr "China"
  /\ normalize_country (U:=latin1) (pystr "IN- DIA") = pystr "India"
  /\ normalize_country (U:=latin1) (pystr "MEXI-CO") = pystr "Mexico"
  /\ normalize_country (U:=latin1) (pystr "ALL CHARGE-ABILITY AREAS")
     = pystr "All Chargeability Areas"
  /\ normalize_country (U:=latin1) (pystr "CHI - NA") = pystr "CHI - NA".
Proof.
  split; [|split; [|split]].
  - intros U L Hlaw raw. split.
    + apply normalize_country_rules, Hlaw.
    + apply re_sub_hyphen_breaks_join, Hlaw.
  - intros U c d ws r Hc Hws Hd Hsd.
    unfold join_hyphen_breaks. cbn [join_hyphen_breaks_from].
    assert (Hstrip : str_lstrip (ws ++ d :: r) = d :: r).
    { induction Hws as [|x ws Hx Hws IH]; cbn [app str_lstrip].
      - rewrite Hsd. reflexivity.
      - rewrite Hx. exact IH. }
    unfold word_follows. rewrite Hstrip, Hc, Hd. cbn [andb].
    rewrite join_hyphen_breaks_joining, Hstrip. reflexivity.
  - intros U c r H. unfold join_hyphen_breaks. cbn [join_hyphen_breaks_from].
    destruct r as [|h r']; [reflexivity|].
    destruct H as [H|H].
    + rewrite H. cbn [andb]. destruct h as [|p]; [reflexivity|].
      do 6 (try (destruct p as [p|p|]; try reflexivity)).
    + destruct h as [|p]; [reflexivity|].
      do 6 (try (destruct p as [p|p|]; try reflexivity)).
      contradiction H. reflexivity.
  - repeat split; vm_compute; reflexivity.
Qed.

Lemma normalize_country_priority_rules_witness :
  normalize_country (U:=latin1) (pystr "ALL CHARGE-ABILITY AREAS EXCEPT THOSE LISTED")
  = normalize_country_spec (U:=latin1) (pystr "ALL CHARGE-ABILITY AREAS EXCEPT THOSE LISTED")
  /\ join_hyphen_breaks (U:=latin1) (pystr "P- PINES") = pystr "PPINES"
  /\ join_hyphen_breaks (U:=latin1) (pystr " -PINES") = pystr " -PINES".
Proof.
  destruct normalize_country_priority_rules as (H1 & H2 & H3 & _).
  split; [|split].
  - exact (proj1 (H1 latin1 latin1_laws latin1_space_not_word
                     (pystr "ALL CHARGE-ABILITY AREAS EXCEPT THOSE LISTED"))).
  - exact (eq_trans
             (H2 latin1 80%N 80%N [32%N] (pystr "INES")
                 eq_refl (@List.Forall_cons _ _ 32%N [] eq_refl (@List.Forall_nil _ _))
                 eq_refl eq_refl)
             eq_refl).
  - exact (H3 latin1 32%N (pystr "-PINES") (or_introl eq_refl)).
Defined.

(** ** Substrings *)

Lemma str_startswith_app a : forall b s,
  str_startswith (a ++ b) s = true ->
  exists s', s = a ++ s' /\ str_startswith b s' = true.
Proof.
  induction a as [|x a IH]; intros b s H; simpl in *.
  - exists s. auto.
  - destruct s as [|y s]; [discriminate|].
    apply andb_true_iff in H. destruct H as [Hxy H].
    apply N.eqb_eq in Hxy. subst y.
    destruct (IH b s H) as (s' & -> & Hs'). exists s'. auto.
Qed.

Lemma str_startswith_self a s : str_startswith a (a ++ s) = true.
Proof.
  induction a as [|x a IH]; simpl; [reflexivity|].
  rewrite N.eqb_refl. exact IH.
Qed.

Lemma str_in_unfold needle hay :
  str_in needle hay =
    str_startswith needle hay
    || match hay with [] => false | _ :: hay' => str_in needle hay' end.
Proof. destruct hay; reflexivity. Qed.

Lemma str_in_skip b x : forall s, str_in b s = true -> str_in b (x ++ s) = true.
Proof.
  induction x as [|c x IH]; intros s H; [exact H|].
  simpl app. rewrite str_in_unfold, (IH s H). apply orb_true_r.
Qed.

Lemma str_in_app_l a b h : str_in (a ++ b) h = true -> str_in a h = true.
Proof.
  induction h as [|c h IH]; intros H;
    rewrite str_in_unfold in H; rewrite str_in_unfold;
    apply orb_true_iff in H; destruct H as [H|H].
  - apply str_startswith_app in H. destruct H as (s' & -> & _).
    rewrite str_startswith_self. reflexivity.
  - discriminate.
  - apply str_startswith_app in H. destruct H as (s' & -> & _).
    rewrite str_startswith_self. reflexivity.
  - rewrite (IH H). apply orb_true_r.
Qed.

Lemma str_in_app_r a b h : str_in (a ++ b) h = true -> str_in b h = true.
Proof.
  induction h as [|c h IH]; intros H; rewrite str_in_unfold in H;
    apply orb_true_iff in H; destruct H as [H|H].
  - apply str_startswith_app in H. destruct H as (s' & -> & Hb).
    apply str_in_skip. rewrite str_in_unfold, Hb. reflexivity.
  - discriminate.
  - apply str_startswith_app in H. destruct H as (s' & -> & Hb).
    apply str_in_skip. rewrite str_in_unfold, Hb. reflexivity.
  - rewrite str_in_unfold, (IH H). apply orb_true_r.
Qed.

(** ** Categories *)

Section CategoryProperties.
Context {U : Unicode}.

Lemma in_tuple_equals s a b : in_tuple s [a; b] = equals a s || equals b s.
Proof.
  rewrite in_tuple_two. unfold equals.
  repeat case_bool_decide; simpl; tauto.
Qed.

(** A text that contains "religious worker" contains both words. *)
Lemma religious_worker_both s :
  str_in (pystr "religious worker") s
  || str_in (pystr "religious") s && str_in (pystr "worker") s
  = str_in (pystr "religious") s && str_in (pystr "worker") s.
Proof.
  destruct (str_in (pystr "religious worker") s) eqn:E; [|reflexivity].
  rewrite (str_in_app_l (pystr "religious") (pystr " worker") s E).
  rewrite (str_in_app_r (pystr "religious ") (pystr "worker") s E).
  reflexivity.
Qed.

Ltac split_condition c :=
  lazymatch c with
  | ?a || _ => split_condition a
  | ?a && _ => split_condition a
  | _ => destruct c
  end.

Ltac walk_rules :=
  repeat (cbn [orb andb List.find fst snd fmap option_fmap option_map];
          lazymatch goal with
          | |- (if ?c then _ else _) = _ => split_condition c
          | |- _ => reflexivity
          end).

Lemma normalize_category_employment_rules raw :
  normalize_category raw employment
  = normalize_employment_with employment_rules raw.
Proof.
  unfold normalize_category, normalize_employment_with, category_cleaned.
  set (cleaned := str_strip _). set (lowered := str_lower _).
  rewrite !in_tuple_equals, religious_worker_both.
  unfold first_match, employment_rules, employment_rules_listed, fifth, contains.
  cbn [drop app].
  walk_rules.
Qed.

End CategoryProperties.

(** ** Bulletins *)

Section BulletinProperties.
Context {U : Unicode}.

Lemma parse_countries_filter header_cells :
  parse_countries header_cells = header_countries header_cells.
Proof.
  unfold parse_countries, header_countries.
  replace (drop 1 header_cells) with (tail header_cells)
    by (destruct header_cells; reflexivity).
  generalize (tail header_cells) as l.
  enough (H : forall l acc,
             foldl (fun countries cell =>
                      let country := normalize_country (get_text_strip cell) in
                      if nonempty country then countries ++ [country] else countries)
                   acc l
             = acc ++ List.filter nonempty (map header_country l))
    by (intros l; apply (H l [])).
  induction l as [|c l IH]; intros acc; simpl.
  - rewrite app_nil_r. reflexivity.
  - rewrite IH. unfold header_country at 2.
    destruct (nonempty (normalize_country (get_text_strip c))); [|reflexivity].
    rewrite <- app_assoc. reflexivity.
Qed.

Lemma drop_lookup_cons {A} (l : list A) i x :
  l !! i = Some x -> drop i l = x :: drop (S i) l.
Proof.
  revert i. induction l as [|y l IH]; intros [|i] H; try discriminate.
  - inversion H. reflexivity.
  - simpl. apply IH. exact H.
Qed.

Lemma zip_nil_r {A B} (l : list A) : zip l (@nil B) = [].
Proof. destruct l; reflexivity. Qed.

Lemma omap_cons_eq {A B} (f : A -> option B) x l :
  omap f (x :: l) = match f x with Some y => y :: omap f l | None => omap f l end.
Proof. reflexivity. Qed.

(** The loop over the cells pairs the cells with the countries from
    position [i] on, and does not raise. *)
Lemma parse_cells_zip tt vt cat countries cells : forall i records,
  parse_cells tt vt cat countries i cells records
  = Ok (records ++ omap (cell_record tt vt cat) (zip cells (drop i countries))).
Proof.
  induction cells as [|cell cells IH]; intros i records; cbn [parse_cells].
  - rewrite app_nil_r. reflexivity.
  - destruct (Nat.leb_spec (length countries) i) as [Hge|Hlt].
    + rewrite drop_ge by lia. rewrite zip_nil_r, app_nil_r. reflexivity.
    + destruct (lookup_lt_is_Some_2 countries i Hlt) as [co Hco].
      rewrite (drop_lookup_cons _ _ _ Hco).
      change (zip (cell :: cells) (co :: drop (S i) countries))
        with ((cell, co) :: zip cells (drop (S i) countries)).
      rewrite omap_cons_eq. unfold cell_record at 1. cbn [fst snd].
      destruct (nonempty (get_text_strip cell)); cbn [negb].
      * rewrite parse_date_ok. res_simpl.
        unfold list_get. rewrite Hco. res_simpl.
        rewrite IH, <- app_assoc. reflexivity.
      * apply IH.
Qed.

Lemma parse_row_records tt vt countries records row :
  parse_row tt vt countries records row
  = Ok (records ++ row_records tt vt countries row).
Proof.
  unfold parse_row, row_records.
  destruct row as [|cell0 [|cell1 cells]];
    try (cbn [length Nat.ltb Nat.leb]; rewrite app_nil_r; reflexivity).
  change ((length (cell0 :: cell1 :: cells) <? 2)%nat) with false. cbv iota.
  change (list_get (cell0 :: cell1 :: cells) 0) with (Ok cell0). res_simpl.
  destruct (nonempty (get_text_strip cell0)); cbn [negb].
  - change (drop 1 (cell0 :: cell1 :: cells)) with (cell1 :: cells).
    rewrite parse_cells_zip. reflexivity.
  - rewrite app_nil_r. reflexivity.
Qed.

Lemma for_each_parse_row tt vt countries rows : forall records,
  for_each (parse_row tt vt countries) records rows
  = Ok (records ++ flat_map (row_records tt vt countries) rows).
Proof.
  induction rows as [|row rows IH]; intros records; simpl.
  - rewrite app_nil_r. reflexivity.
  - rewrite parse_row_records. res_simpl. rewrite IH, <- app_assoc. reflexivity.
Qed.

Lemma row_records_no_country tt vt row : row_records tt vt [] row = [].
Proof.
  unfold row_records. destruct row as [|cell0 [|cell1 cells]]; try reflexivity.
  destruct (nonempty (get_text_strip cell0)); reflexivity.
Qed.

Lemma table_records_no_country tt header rows :
  header_countries header = [] -> table_records tt (header :: rows) = [].
Proof.
  intros H. unfold table_records.
  destruct (table_kind _) as [vt|]; [|reflexivity]. rewrite H.
  induction rows as [|row rows IH]; [reflexivity|].
  simpl. rewrite row_records_no_country. exact IH.
Qed.

Lemma tables_seen_snoc vt before table :
  tables_seen vt (before ++ [table])
  = (tables_seen vt before
     + if bool_decide (table_kind table = Some vt) then 1 else 0)%nat.
Proof.
  unfold tables_seen. rewrite List.filter_app, length_app. simpl.
  destruct (bool_decide (table_kind table = Some vt)); reflexivity.
Qed.

Lemma seen_count_of_skip seen_count before table :
  seen_count_of seen_count before -> table_kind table = None ->
  seen_count_of seen_count (before ++ [table]).
Proof.
  intros H Hk vt. rewrite tables_seen_snoc, Hk.
  rewrite bool_decide_eq_false_2 by discriminate.
  rewrite Nat.add_0_r. apply H.
Qed.

Lemma seen_count_of_count seen_count before table vt :
  seen_count_of seen_count before -> table_kind table = Some vt ->
  seen_count_of (<[vt := S (tables_seen vt before)]> seen_count) (before ++ [table]).
Proof.
  intros H Hk vt'. rewrite tables_seen_snoc, Hk.
  destruct (decide (vt = vt')) as [<-|Hne].
  - rewrite lookup_insert_eq, bool_decide_eq_true_2 by reflexivity.
    f_equal. lia.
  - rewrite lookup_insert_ne by exact Hne.
    rewrite bool_decide_eq_false_2 by congruence.
    rewrite Nat.add_0_r. apply H.
Qed.

(** One pass of the loop over the tables. *)
Lemma parse_table_contribution seen_count records before table :
  seen_count_of seen_count before ->
  exists seen_count',
    parse_table (seen_count, records) table
    = Ok (seen_count', records ++ contribution before table)
    /\ seen_count_of seen_count' (before ++ [table]).
Proof.
  intros Hinv.
  destruct (table_kind table) as [vt|] eqn:Ek.
  - destruct table as [|[|cell0 cells] [|row rows]]; try discriminate.
    change (_identify_table_by_header (get_text_strip cell0) = Some vt) in Ek.
    exists (<[vt := S (tables_seen vt before)]> seen_count).
    split; [|apply seen_count_of_count; auto].
    unfold parse_table.
    change ((length ((cell0 :: cells) :: row :: rows) <? 2)%nat) with false. cbv iota.
    change (list_get ((cell0 :: cells) :: row :: rows) 0) with (Ok (cell0 :: cells)).
    res_simpl.
    change (negb (nonempty (cell0 :: cells))) with false. cbv iota.
    change (list_get (cell0 :: cells) 0) with (Ok cell0). res_simpl.
    rewrite Ek.
    unfold dict_get. rewrite (Hinv vt). res_simpl.
    rewrite lookup_insert_eq. res_simpl.
    rewrite parse_countries_filter.
    assert (Ett : (if (S (tables_seen vt before) =? 1)%nat then final_action else filing)
                  = table_type_after vt before).
    { unfold table_type_after. destruct (tables_seen vt before); reflexivity. }
    rewrite Ett.
    unfold contribution, table_records.
    change (table_kind ((cell0 :: cells) :: row :: rows))
      with (_identify_table_by_header (get_text_strip cell0)).
    rewrite Ek.
    destruct (header_countries (cell0 :: cells)) as [|co cos] eqn:Ec.
    + cbn [nonempty negb].
      assert (E0 : flat_map (row_records (table_type_after vt before) vt []) (row :: rows) = []).
      { generalize (row :: rows) as l. induction l as [|r l IH]; [reflexivity|].
        simpl. rewrite row_records_no_country. exact IH. }
      rewrite E0, app_nil_r. reflexivity.
    + change (negb (nonempty (co :: cos))) with false. cbv iota.
      change (drop 1 ((cell0 :: cells) :: row :: rows)) with (row :: rows).
      rewrite for_each_parse_row. res_simpl. reflexivity.
  - exists seen_count. split; [|apply seen_count_of_skip; auto].
    unfold contribution. rewrite Ek, app_nil_r.
    unfold parse_table.
    destruct table as [|[|cell0 cells] [|row rows]]; try reflexivity.
    change (_identify_table_by_header (get_text_strip cell0) = None) in Ek.
    change ((length ((cell0 :: cells) :: row :: rows) <? 2)%nat) with false. cbv iota.
    change (list_get ((cell0 :: cells) :: row :: rows) 0) with (Ok (cell0 :: cells)).
    res_simpl.
    change (negb (nonempty (cell0 :: cells))) with false. cbv iota.
    change (list_get (cell0 :: cells) 0) with (Ok cell0). res_simpl.
    rewrite Ek. reflexivity.
Qed.

Lemma for_each_parse_table doc : forall seen_count records before,
  seen_count_of seen_count before ->
  exists seen_count',
    for_each parse_table (seen_count, records) doc
    = Ok (seen_count', records ++ bulletin_records before doc).
Proof.
  induction doc as [|table doc IH]; intros seen_count records before Hinv.
  - exists seen_count. simpl. rewrite app_nil_r. reflexivity.
  - destruct (parse_table_contribution seen_count records before table Hinv)
      as (seen1 & E1 & Hinv1).
    destruct (IH seen1 (records ++ contribution before table) _ Hinv1)
      as (seen2 & E2).
    exists seen2. cbn [for_each]. rewrite E1. res_simpl.
    rewrite E2, <- app_assoc. reflexivity.
Qed.

(** [parse_bulletin] does not raise, and its records are those of its
    tables, each table taken with the type its rank gives it. *)
Lemma parse_bulletin_records doc :
  parse_bulletin doc = Ok (bulletin_records [] doc).
Proof.
  unfold parse_bulletin.
  destruct (for_each_parse_table doc {[ family := 0%nat; employment := 0%nat ]} [] [])
    as (seen & E).
  - intros []; reflexivity.
  - rewrite E. reflexivity.
Qed.

Lemma bulletin_records_app doc1 : forall before doc2,
  bulletin_records before (doc1 ++ doc2)
  = bulletin_records before doc1 ++ bulletin_records (before ++ doc1) doc2.
Proof.
  induction doc1 as [|t doc1 IH]; intros before doc2; simpl.
  - rewrite app_nil_r. reflexivity.
  - rewrite IH, <- !app_assoc. reflexivity.
Qed.

End BulletinProperties.

(** *** Table types *)

Section TableTypeProperties.
Context {U : Unicode}.

Lemma cell_record_types tt vt cat paired r :
  cell_record tt vt cat paired = Some r -> table_type r = tt /\ visa_type r = vt.
Proof.
  unfold cell_record. case_match; [|discriminate].
  intros [= <-]. split; reflexivity.
Qed.

Lemma row_records_types tt vt countries row :
  Forall (fun r => table_type r = tt /\ visa_type r = vt)
         (row_records tt vt countries row).
Proof.
  apply Forall_forall. intros r. unfold row_records.
  destruct row as [|cell0 [|cell1 cells]]; try (intros H; apply elem_of_nil in H; contradiction).
  case_match; [|intros Hr; apply elem_of_nil in Hr; contradiction].
  intros Hr. apply list_elem_of_omap in Hr. destruct Hr as (p & _ & Hp).
  exact (cell_record_types _ _ _ _ _ Hp).
Qed.

Lemma table_records_types tt vt table :
  table_kind table = Some vt ->
  Forall (fun r => table_type r = tt /\ visa_type r = vt) (table_records tt table).
Proof.
  intros Hk. unfold table_records. rewrite Hk.
  destruct table as [|header rows]; [constructor|]. clear Hk.
  induction rows as [|row rows IH]; [constructor|].
  simpl. apply Forall_app. split; [apply row_records_types|exact IH].
Qed.

Lemma tables_seen_zero vt before :
  tables_seen vt before = 0%nat <-> Forall (fun t => table_kind t <> Some vt) before.
Proof.
  unfold tables_seen. induction before as [|t before IH]; simpl.
  - split; [constructor|reflexivity].
  - case_bool_decide as Hk; simpl.
    + split; [discriminate|]. intros H. inversion H; subst. contradiction.
    + rewrite IH. split; [intros H; constructor; assumption|].
      intros H. inversion H; assumption.
Qed.

Lemma table_type_after_final vt before :
  table_type_after vt before = final_action
  <-> Forall (fun t => table_kind t <> Some vt) before.
Proof.
  rewrite <- tables_seen_zero. unfold table_type_after.
  destruct (tables_seen vt before); simpl; split; congruence.
Qed.

Lemma parse_bulletin_split before table after :
  parse_bulletin (before ++ table :: after)
  = Ok (bulletin_records [] before ++ contribution before table
        ++ bulletin_records (before ++ [table]) after).
Proof.
  rewrite parse_bulletin_records, bulletin_records_app. reflexivity.
Qed.

End TableTypeProperties.

(** C1, as the code has it.  The tables of at least two rows whose first
    header cell names a visa type are typed by their rank among the tables
    of that visa type: the records of the first one are [final_action],
    those of the second and of every later one are [filing]; so at most one
    table per visa type gives [final_action] records, and a third table is
    not passed over. *)
Theorem parse_bulletin_table_types :
  (forall (U : Unicode) (before : list tag_table) (table : tag_table)
          (after : list tag_table) (vt : visatype),
     table_kind table = Some vt ->
     exists records_before records_after,
       parse_bulletin before = Ok records_before
       /\ parse_bulletin (before ++ table :: after)
          = Ok (records_before
                ++ table_records (table_type_after vt before) table
                ++ records_after)
       /\ Forall (fun r => table_type r = table_type_after vt before
                           /\ visa_type r = vt)
                 (table_records (table_type_after vt before) table)
       /\ (table_type_after vt before = final_action
           <-> Forall (fun t => table_kind t <> Some vt) before)
       /\ (table_type_after vt before = filing
           <-> Exists (fun t => table_kind t = Some vt) before))
  /\ parse_bulletin (U:=latin1)
       [employment_table; family_table; employment_table; family_table]
     = Ok [ mk_record final_action employment "EB-1" "China" "2023-02-01";
            mk_record final_action employment "EB-1" "India" "C";
            mk_record final_action family "F2A" "China" "2023-02-01";
            mk_record final_action family "F2A" "India" "C";
            mk_record filing employment "EB-1" "China" "2023-02-01";
            mk_record filing employment "EB-1" "India" "C";
            mk_record filing family "F2A" "China" "2023-02-01";
            mk_record filing family "F2A" "India" "C" ].
Proof.
  split; [|vm_compute; reflexivity].
  intros U before table after vt Hk.
  exists (bulletin_records [] before), (bulletin_records (before ++ [table]) after).
  split; [apply parse_bulletin_records|].
  split.
  { rewrite parse_bulletin_split. unfold contribution. rewrite Hk. reflexivity. }
  split; [apply table_records_types; exact Hk|].
  split; [apply table_type_after_final|].
  assert (Hf : table_type_after vt before = final_action
               <-> ~ Exists (fun t => table_kind t = Some vt) before).
  { rewrite <- Forall_Exists_neg. apply table_type_after_final. }
  split.
  - intros E. destruct (decide (Exists (fun t => table_kind t = Some vt) before)) as [He|Hn];
      [exact He|].
    apply Hf in Hn. congruence.
  - intros He. destruct (table_type_after vt before) eqn:E; [|reflexivity].
    exfalso. apply (proj1 Hf); [reflexivity|exact He].
Qed.

Lemma parse_bulletin_table_types_witness :
  exists records_before records_after,
    parse_bulletin (U:=latin1) [employment_table] = Ok records_before
    /\ parse_bulletin (U:=latin1) ([employment_table] ++ employment_table :: [employment_table])
       = Ok (records_before ++ table_records filing employment_table ++ records_after).
Proof.
  destruct parse_bulletin_table_types as [H _].
  destruct (H latin1 [employment_table] employment_table [employment_table]
              employment eq_refl)
    as (rb & ra & H1 & H2 & _).
  exists rb, ra. split; [exact H1|exact H2].
Defined.

(** The claim of C1 that a third table contributes nothing fails: the third
    employment table below gives two more [filing] records.  And a table of
    one row is not counted, whatever its header: after it the next
    employment table is still the first. *)
Lemma parse_bulletin_third_table_counterexample :
  parse_bulletin (U:=latin1) [employment_table; employment_table; employment_table]
  = Ok [ mk_record final_action employment "EB-1" "China" "2023-02-01";
         mk_record final_action employment "EB-1" "India" "C";
         mk_record filing employment "EB-1" "China" "2023-02-01";
         mk_record filing employment "EB-1" "India" "C";
         mk_record filing employment "EB-1" "China" "2023-02-01";
         mk_record filing employment "EB-1" "India" "C" ]
  /\ parse_bulletin (U:=latin1) [employment_table; employment_table; employment_table]
     <> parse_bulletin (U:=latin1) [employment_table; employment_table]
  /\ parse_bulletin (U:=latin1)
       [[[td "Employment-based"; td "China"; td "India"]]; employment_table]
     = Ok [ mk_record final_action employment "EB-1" "China" "2023-02-01";
            mk_record final_action employment "EB-1" "India" "C" ].
Proof.
  split; [vm_compute; reflexivity|].
  split; [vm_compute; discriminate|].
  vm_compute; reflexivity.
Qed.

(** *** Tables that are passed over *)

Section SkipProperties.
Context {U : Unicode}.

Lemma malformed_table_kind table : malformed_table table -> table_kind table = None.
Proof.
  intros [H|[H|(cell0 & cells & rows & -> & H)]].
  - destruct table as [|[|cell0 cells] [|row rows]]; try reflexivity; simpl in H; lia.
  - destruct table as [|header rows]; [discriminate|].
    inversion H; subst. destruct rows; reflexivity.
  - destruct rows; [reflexivity|exact H].
Qed.

(** The records of the tables to come depend on the tables before them
    only through the counts. *)
Lemma bulletin_records_counts doc : forall before1 before2,
  (forall vt, tables_seen vt before1 = tables_seen vt before2) ->
  bulletin_records before1 doc = bulletin_records before2 doc.
Proof.
  induction doc as [|t doc IH]; intros b1 b2 H; [reflexivity|].
  simpl. f_equal.
  - unfold contribution, table_type_after.
    destruct (table_kind t) as [vt|]; [rewrite (H vt)|]; reflexivity.
  - apply IH. intros vt. rewrite !tables_seen_snoc, (H vt). reflexivity.
Qed.

Lemma untyped_row_records tt1 tt2 vt countries row :
  map untyped (row_records tt1 vt countries row)
  = map untyped (row_records tt2 vt countries row).
Proof.
  unfold row_records. destruct row as [|cell0 [|cell1 cells]]; try reflexivity.
  case_match; [|reflexivity].
  set (f1 := cell_record tt1 vt _). set (f2 := cell_record tt2 vt _).
  assert (Hf : forall p, option_map untyped (f1 p) = option_map untyped (f2 p)).
  { intros p. unfold f1, f2, cell_record. case_match; reflexivity. }
  generalize (zip (cell1 :: cells) countries) as l.
  induction l as [|p l IH]; [reflexivity|].
  rewrite !omap_cons_eq. specialize (Hf p).
  destruct (f1 p), (f2 p); simpl in Hf; try discriminate.
  - simpl. inversion Hf. rewrite IH. congruence.
  - exact IH.
Qed.

Lemma untyped_table_records tt1 tt2 table :
  map untyped (table_records tt1 table) = map untyped (table_records tt2 table).
Proof.
  unfold table_records. destruct (table_kind table) as [vt|]; [|reflexivity].
  destruct table as [|header rows]; [reflexivity|].
  induction rows as [|row rows IH]; [reflexivity|].
  simpl. rewrite !map_app, IH, (untyped_row_records tt1 tt2). reflexivity.
Qed.

(** Apart from the table type, the records of a table do not depend on
    the tables before it. *)
Lemma untyped_bulletin_records doc : forall before1 before2,
  map untyped (bulletin_records before1 doc)
  = map untyped (bulletin_records before2 doc).
Proof.
  induction doc as [|t doc IH]; intros b1 b2; [reflexivity|].
  simpl. rewrite !map_app. f_equal; [|apply IH].
  unfold contribution. destruct (table_kind t); [|reflexivity].
  apply untyped_table_records.
Qed.

Lemma contribution_no_country before header rows :
  header_countries header = [] -> contribution before (header :: rows) = [].
Proof.
  intros H. unfold contribution.
  destruct (table_kind _); [|reflexivity].
  apply table_records_no_country. exact H.
Qed.

Lemma parse_bulletin_malformed before table after :
  malformed_table table ->
  parse_bulletin (before ++ table :: after) = parse_bulletin (before ++ after).
Proof.
  intros H. apply malformed_table_kind in H.
  rewrite parse_bulletin_split, parse_bulletin_records, bulletin_records_app.
  unfold contribution. rewrite H. simpl. do 2 f_equal.
  apply bulletin_records_counts. intros vt.
  rewrite tables_seen_snoc, H, bool_decide_eq_false_2 by discriminate. lia.
Qed.

End SkipProperties.

(** C8.  [parse_bulletin] raises on no document.  A table with fewer than
    two rows, without header cell, or whose first header cell names no visa
    type leaves the result as if it were not there; a table whose header
    gives no country adds no record, and the records of the other tables
    are all there, in order (only their table type can depend on it).  The
    empty document gives the empty list. *)
Theorem parse_bulletin_skips_malformed_tables :
  (forall (U : Unicode),
     (forall doc : document, exists records, parse_bulletin doc = Ok records)
     /\ parse_bulletin [] = Ok []
     /\ (forall before table after,
           malformed_table table ->
           parse_bulletin (before ++ table :: after) = parse_bulletin (before ++ after))
     /\ (forall before header rows after,
           header_countries header = [] ->
           exists records_before records_after records_without,
             parse_bulletin before = Ok records_before
             /\ parse_bulletin (before ++ (header :: rows) :: after)
                = Ok (records_before ++ records_after)
             /\ parse_bulletin (before ++ after) = Ok records_without
             /\ map untyped (records_before ++ records_after)
                = map untyped records_without))
  /\ _identify_table_by_header (U:=latin1) (pystr "Notes") = None
  /\ malformed_table (U:=latin1) notes_table
  /\ parse_bulletin (U:=latin1) [notes_table; employment_table]
     = parse_bulletin (U:=latin1) [employment_table]
  /\ parse_bulletin (U:=latin1) [[[td "Employment-based"]; [td "1st"; td "C"]];
                                 employment_table]
     = Ok [ mk_record filing employment "EB-1" "China" "2023-02-01";
            mk_record filing employment "EB-1" "India" "C" ].
Proof.
  split.
  - intros U. split; [|split; [|split]].
    + intros doc. eexists. apply parse_bulletin_records.
    + reflexivity.
    + intros before table after H. apply parse_bulletin_malformed. exact H.
    + intros before header rows after H.
      exists (bulletin_records [] before),
             (bulletin_records (before ++ [header :: rows]) after),
             (bulletin_records [] (before ++ after)).
      split; [apply parse_bulletin_records|].
      split.
      { rewrite parse_bulletin_split, (contribution_no_country _ _ _ H). reflexivity. }
      split; [apply parse_bulletin_records|].
      rewrite bulletin_records_app, !map_app. f_equal.
      apply untyped_bulletin_records.
  - split; [vm_compute; reflexivity|].
    split.
    { right. right. exists (td "Notes"), [td "China"], [[td "1st"; td "01FEB23"]].
      split; vm_compute; reflexivity. }
    split; vm_compute; reflexivity.
Qed.

Lemma parse_bulletin_skips_malformed_tables_witness :
  parse_bulletin (U:=latin1) ([employment_table] ++ notes_table :: [family_table])
  = parse_bulletin (U:=latin1) ([employment_table] ++ [family_table]).
Proof.
  destruct parse_bulletin_skips_malformed_tables as [H _].
  destruct (H latin1) as (_ & _ & Hm & _).
  apply Hm. right. right.
  exists (td "Notes"), [td "China"], [[td "1st"; td "01FEB23"]].
  split; vm_compute; reflexivity.
Defined.

(** *** Pairing cells with countries *)

Section PairingProperties.
Context {U : Unicode}.

Lemma lookup_map {A B} (f : A -> B) (l : list A) i :
  map f l !! i = option_map f (l !! i).
Proof.
  revert i. induction l as [|x l IH]; intros [|i]; try reflexivity.
  simpl. apply IH.
Qed.

Lemma filter_nonempty_all (l : list text) :
  Forall (fun s => s <> []) l -> List.filter nonempty l = l.
Proof.
  induction 1 as [|s l Hs _ IH]; [reflexivity|].
  simpl. destruct s; [contradiction|]. simpl. rewrite IH. reflexivity.
Qed.

(** With one header cell that normalises to the empty text, the list of
    countries is the other headers closed up. *)
Lemma header_countries_gap h0 left e right :
  header_country e = [] ->
  Forall (fun c => header_country c <> []) (left ++ right) ->
  header_countries (h0 :: left ++ e :: right)
  = map header_country left ++ map header_country right.
Proof.
  intros He Hall. unfold header_countries. simpl tail.
  rewrite map_app, List.filter_app. simpl. rewrite He. simpl.
  apply Forall_app in Hall. destruct Hall as [Hl Hr].
  rewrite !filter_nonempty_all; [reflexivity| |];
    apply Forall_forall; intros s Hs; apply list_elem_of_In, in_map_iff in Hs;
    destruct Hs as (c & <- & Hc); apply list_elem_of_In in Hc.
  - rewrite Forall_forall in Hr. apply Hr. exact Hc.
  - rewrite Forall_forall in Hl. apply Hl. exact Hc.
Qed.

(** The country paired with the data cell of column [k]: to the left of
    the gap the header of the same column, from the gap on the header one
    column further right. *)
Lemma header_countries_gap_lookup h0 left e right k :
  header_country e = [] ->
  Forall (fun c => header_country c <> []) (left ++ right) ->
  (1 <= k)%nat ->
  header_countries (h0 :: left ++ e :: right) !! (k - 1)%nat
  = option_map header_country
      ((h0 :: left ++ e :: right) !! (if (k <=? length left)%nat then k else S k)).
Proof.
  intros He Hall Hk. rewrite (header_countries_gap _ _ _ _ He Hall).
  destruct k as [|k]; [lia|]. replace (S k - 1)%nat with k by lia.
  destruct (Nat.leb_spec (S k) (length left)) as [Hle|Hgt].
  - rewrite lookup_app_l by (rewrite length_map; lia).
    simpl. rewrite lookup_app_l by lia. apply lookup_map.
  - rewrite lookup_app_r by (rewrite length_map; lia).
    rewrite length_map. simpl.
    rewrite lookup_app_r by lia.
    replace (S k - length left)%nat with (S (k - length left)) by lia.
    simpl. apply lookup_map.
Qed.

End PairingProperties.

(** C9, as the code has it.  The country list of a table is made of the
    header cells after the first whose normalised text is not empty, and a
    data row is paired with it by position.  When one header cell, after
    the first, normalises to the empty text, the data cells to its left
    keep the country of their column, and each data cell under it or to
    its right gets the country of the column one position further right
    (the last one none). *)
Theorem parse_bulletin_pairs_filtered_countries :
  (forall (U : Unicode),
     (forall header_cells,
        parse_countries header_cells
        = List.filter nonempty (map header_country (tail header_cells)))
     /\ (forall header rows vt,
           table_kind (header :: rows) = Some vt ->
           parse_bulletin [header :: rows]
           = Ok (flat_map (row_records final_action vt (parse_countries header)) rows))
     /\ (forall tt vt countries cell0 cell1 cells,
           nonempty (get_text_strip cell0) = true ->
           row_records tt vt countries (cell0 :: cell1 :: cells)
           = omap (cell_record tt vt (normalize_category (get_text_strip cell0) vt))
                  (zip (cell1 :: cells) countries))
     /\ (forall h0 left e right k,
           header_country e = [] ->
           Forall (fun c => header_country c <> []) (left ++ right) ->
           (1 <= k)%nat ->
           parse_countries (h0 :: left ++ e :: right) !! (k - 1)%nat
           = option_map header_country
               ((h0 :: left ++ e :: right)
                  !! (if (k <=? length left)%nat then k else S k))))
  /\ parse_bulletin (U:=latin1) [gap_table]
     = Ok [ mk_record final_action employment "EB-1" "China" "2020-01-01";
            mk_record final_action employment "EB-1" "India" "2021-01-01";
            mk_record final_action employment "EB-1" "Mexico" "2022-01-01" ].
Proof.
  split; [|vm_compute; reflexivity].
  intros U. split; [|split; [|split]].
  - intros header_cells. apply parse_countries_filter.
  - intros header rows vt Hk.
    rewrite parse_bulletin_records. simpl.
    unfold contribution, table_records. rewrite Hk.
    rewrite app_nil_r, parse_countries_filter. reflexivity.
  - intros tt vt countries cell0 cell1 cells H.
    unfold row_records. rewrite H. reflexivity.
  - intros h0 left e right k He Hall Hk.
    rewrite parse_countries_filter.
    apply header_countries_gap_lookup; assumption.
Qed.

Lemma parse_bulletin_pairs_filtered_countries_witness :
  parse_countries (U:=latin1) gap_header !! (3 - 1)%nat
  = option_map (header_country (U:=latin1)) (gap_header !! 4%nat).
Proof.
  destruct parse_bulletin_pairs_filtered_countries as [H _].
  destruct (H latin1) as (_ & _ & _ & Hgap).
  refine (Hgap (td "Employment-based") [td "China"] empty_td [td "India"; td "Mexico"]
               3%nat eq_refl _ _).
  - repeat constructor; vm_compute; discriminate.
  - lia.
Defined.

(** The claim of C9 that a data cell to the right of the empty header gets
    the country of the column one position further left fails: in the table
    below the header of column 2 is empty, and the data cell of column 3 is
    paired with Mexico, the header of column 4. *)
Lemma pairing_shift_counterexample :
  option_map (header_country (U:=latin1)) (gap_header !! 2%nat) = Some []
  /\ parse_countries (U:=latin1) gap_header !! (3 - 1)%nat = Some (pystr "Mexico")
  /\ option_map (header_country (U:=latin1)) (gap_header !! 4%nat) = Some (pystr "Mexico")
  /\ parse_countries (U:=latin1) gap_header !! (3 - 1)%nat
     <> option_map (header_country (U:=latin1)) (gap_header !! (3 - 1)%nat)
  /\ parse_bulletin (U:=latin1) [gap_table]
     = Ok [ mk_record final_action employment "EB-1" "China" "2020-01-01";
            mk_record final_action employment "EB-1" "India" "2021-01-01";
            mk_record final_action employment "EB-1" "Mexico" "2022-01-01" ].
Proof.
  repeat split; try (vm_compute; reflexivity).
  vm_compute. discriminate.
Qed.

(** C4, as the code has it.  For the employment visa type,
    [normalize_category] applies the rules of [employment_rules] in order
    to the lower-cased, de-hyphenated text: "1st", "2nd", "3rd" and "4th",
    alone or followed by " preference", give EB-1 to EB-4; "other worker"
    comes before "4th"; then religious workers, the EB-5 labels, "targeted"
    with "employment", "schedule a" and the translators; when no rule
    applies the cleaned text, its trailing asterisks removed, is returned. *)
Theorem normalize_category_employment_priority_rules :
  (forall (U : Unicode) (raw : text),
     normalize_category raw employment
     = normalize_employment_with employment_rules raw)
  /\ normalize_category (U:=latin1) (pystr "Other Workers") employment
     = pystr "EB-3 Other Workers"
  /\ normalize_category (U:=latin1) (pystr "F2A") family = pystr "F2A"
  /\ normalize_category (U:=latin1) (pystr "5th Set Aside: Rural (20%)") employment
     = pystr "EB-5 Rural"
  /\ normalize_category (U:=latin1) (pystr "Certain Religious Workers") employment
     = pystr "EB-4 Religious Workers"
  /\ normalize_category (U:=latin1) (pystr "Something else**") employment
     = pystr "Something else".
Proof.
  split.
  - intros U raw. apply normalize_category_employment_rules.
  - repeat split; vm_compute; reflexivity.
Qed.

(** The rules as C4 lists them leave "1st preference" as it is; the code
    maps it to EB-1. *)
Lemma normalize_category_preference_counterexample :
  normalize_category (U:=latin1) (pystr "1st preference") employment = pystr "EB-1"
  /\ normalize_employment_with (U:=latin1) employment_rules_listed
       (pystr "1st preference") = pystr "1st preference"
  /\ normalize_category (U:=latin1) (pystr "1st preference") employment
     <> normalize_employment_with (U:=latin1) employment_rules_listed
          (pystr "1st preference").
Proof.
  repeat split; try (vm_compute; reflexivity).
  vm_compute. discriminate.
Qed.

(** * Properties of the rest of the code *)

(** ** The records of a bulletin *)

Section RecordProperties.
Context {U : Unicode}.

Lemma header_countries_nonempty header_cells :
  Forall (fun co => co <> []) (header_countries header_cells).
Proof.
  unfold header_countries. apply Forall_forall. intros co Hco.
  apply list_elem_of_In, filter_In in Hco. destruct Hco as [_ Hne].
  destruct co; [discriminate|discriminate].
Qed.

Lemma zip_elem_of_r {A B} (l : list A) (k : list B) p :
  p ∈ zip l k -> p.1 ∈ l /\ p.2 ∈ k.
Proof.
  revert k. induction l as [|x l IH]; intros [|y k] Hp;
    try (apply elem_of_nil in Hp; contradiction).
  simpl in Hp. apply elem_of_cons in Hp. destruct Hp as [->|Hp].
  - split; apply elem_of_cons; left; reflexivity.
  - destruct (IH k Hp). split; apply elem_of_cons; right; assumption.
Qed.

Lemma row_records_from tt vt header rows row r :
  table_kind (header :: rows) = Some vt ->
  row ∈ rows ->
  r ∈ row_records tt vt (header_countries header) row ->
  record_from (header :: rows) r.
Proof.
  intros Hk Hrow Hr. unfold row_records in Hr.
  destruct row as [|cell0 [|cell1 cells]];
    try (apply elem_of_nil in Hr; contradiction).
  destruct (nonempty (get_text_strip cell0)); [|apply elem_of_nil in Hr; contradiction].
  apply list_elem_of_omap in Hr. destruct Hr as ([c co] & Hp & Hrec).
  apply zip_elem_of_r in Hp. simpl in Hp. destruct Hp as [Hc Hco].
  unfold cell_record in Hrec. simpl in Hrec.
  destruct (get_text_strip c) as [|x date_text] eqn:Ed; [discriminate|].
  simpl in Hrec. inversion Hrec; subst r; clear Hrec.
  pose proof (header_countries_nonempty header) as Hne.
  rewrite Forall_forall in Hne. specialize (Hne co Hco).
  unfold header_countries in Hco.
  apply list_elem_of_In, filter_In in Hco. destruct Hco as [Hco _].
  apply in_map_iff in Hco. destruct Hco as (h & Hh & Hin).
  exists header, rows, (cell0 :: cell1 :: cells), cell0, (cell1 :: cells), h, c.
  simpl. rewrite Ed.
  repeat split; try assumption; try reflexivity; try discriminate.
  - apply list_elem_of_In. exact Hin.
  - symmetry. exact Hh.
  - apply parse_date_ok.
Qed.

Lemma table_records_from tt table r :
  r ∈ table_records tt table -> record_from table r.
Proof.
  unfold table_records. destruct (table_kind table) as [vt|] eqn:Hk;
    [|intros H; apply elem_of_nil in H; contradiction].
  destruct table as [|header rows]; [intros H; apply elem_of_nil in H; contradiction|].
  intros Hr. apply list_elem_of_In, in_flat_map in Hr.
  destruct Hr as (row & Hrow & Hr).
  apply list_elem_of_In in Hrow, Hr.
  pose proof (table_records_types tt vt (header :: rows) Hk) as Ht.
  eapply row_records_from; eauto.
Qed.

Lemma bulletin_records_from doc : forall before r,
  r ∈ bulletin_records before doc -> exists table, table ∈ doc /\ record_from table r.
Proof.
  induction doc as [|t doc IH]; intros before r Hr; simpl in Hr.
  - apply elem_of_nil in Hr. contradiction.
  - apply elem_of_app in Hr. destruct Hr as [Hr|Hr].
    + exists t. split; [apply elem_of_cons; left; reflexivity|].
      unfold contribution in Hr. destruct (table_kind t);
        [|apply elem_of_nil in Hr; contradiction].
      eapply table_records_from; eauto.
    + destruct (IH _ _ Hr) as (t' & Ht' & Hf).
      exists t'. split; [apply elem_of_cons; right; exact Ht'|exact Hf].
Qed.

End RecordProperties.

(** X1.  Every record [parse_bulletin] returns comes from one table of the
    document: its visa type is that of the table, its category the
    normalised first cell of a data row, its country the normalised text of
    a header cell after the first, and its priority date the parsed text of
    a cell of that row that is not empty.  The country of a record is never
    the empty text. *)
Theorem parse_bulletin_records_provenance (U : Unicode) (doc : document) :
  exists records,
    parse_bulletin doc = Ok records
    /\ Forall (fun r => country r <> []) records
    /\ Forall (fun r => exists table, table ∈ doc /\ record_from table r) records.
Proof.
  exists (bulletin_records [] doc).
  split; [apply parse_bulletin_records|].
  assert (H : Forall (fun r => exists table, table ∈ doc /\ record_from table r)
                     (bulletin_records [] doc)).
  { apply Forall_forall. intros r Hr. eapply bulletin_records_from; eauto. }
  split; [|exact H].
  eapply Forall_impl; [exact H|].
  intros r (table & _ & Hf).
  destruct Hf as (header & rows & row & cell0 & cells & h & c & Hf).
  tauto.
Qed.

(** X2.  The records of two documents put end to end are the records of
    the first followed by those of the second, the latter with the table
    types their rank in the whole gives them: apart from the table type
    nothing changes, and nothing changes at all when the first document
    has no table that counts. *)
Theorem parse_bulletin_concatenation (U : Unicode) (doc1 doc2 : document) :
  exists records1 records2 records12,
    parse_bulletin doc1 = Ok records1
    /\ parse_bulletin doc2 = Ok records2
    /\ parse_bulletin (doc1 ++ doc2) = Ok (records1 ++ records12)
    /\ map untyped records12 = map untyped records2
    /\ (Forall (fun t => table_kind t = None) doc1 -> records12 = records2).
Proof.
  exists (bulletin_records [] doc1), (bulletin_records [] doc2),
         (bulletin_records ([] ++ doc1) doc2).
  split; [apply parse_bulletin_records|].
  split; [apply parse_bulletin_records|].
  split; [rewrite parse_bulletin_records, bulletin_records_app; reflexivity|].
  split; [apply untyped_bulletin_records|].
  intros Hnone. apply bulletin_records_counts. intros vt.
  unfold tables_seen. simpl. f_equal.
  induction Hnone as [|t doc1 Ht _ IH]; [reflexivity|].
  simpl. rewrite Ht, bool_decide_eq_false_2 by discriminate. exact IH.
Qed.

(** ** The vocabulary of the normalisers *)

Section VocabularyProperties.
Context {U : Unicode}.

Lemma first_match_name rules s name :
  first_match rules s = Some name -> In name (map (fun r => pystr r.2) rules).
Proof.
  unfold first_match. destruct (List.find _ rules) as [r|] eqn:E; [|discriminate].
  intros [= <-]. apply find_some in E.
  apply (in_map (fun r : (text -> bool) * string => pystr r.2)). tauto.
Qed.

Lemma normalize_country_cases raw :
  In (normalize_country raw) (map pystr country_names)
  \/ normalize_country raw = _clean_text raw.
Proof.
  unfold normalize_country.
  repeat (case_match; [left; simpl; tauto|]).
  rewrite abbrev_map_lookup.
  destruct (first_match country_abbreviations _) as [name|] eqn:E; [|right; reflexivity].
  left. apply first_match_name in E. simpl in E. simpl. tauto.
Qed.

Lemma normalize_country_empty raw :
  normalize_country raw = [] -> _clean_text raw = [].
Proof.
  intros H. destruct (normalize_country_cases raw) as [Hin|Heq].
  - rewrite H in Hin. simpl in Hin.
    repeat (destruct Hin as [Hin|Hin]; [discriminate|]). contradiction.
  - rewrite <- Heq. exact H.
Qed.

Lemma str_in_nil needle : needle <> [] -> str_in needle [] = false.
Proof. destruct needle; [contradiction|reflexivity]. Qed.

Lemma normalize_country_of_empty raw :
  str_lower [] = [] -> _clean_text raw = [] -> normalize_country raw = [].
Proof.
  intros Hl Hc. unfold normalize_country. rewrite Hc. simpl re_sub_hyphen_breaks.
  rewrite Hl. reflexivity.
Qed.

End VocabularyProperties.

(** X3.  [normalize_country] returns one of the five canonical names or the
    cleaned text itself, and [normalize_category] one of the canonical
    labels of the visa type or the cleaned text, its trailing asterisks
    removed (for the family type in upper case when it has at most four
    characters). *)
Theorem normalizers_closed_vocabulary (U : Unicode) (raw : text) :
  (In (normalize_country raw) (map pystr country_names)
   \/ normalize_country raw = _clean_text raw)
  /\ (In (normalize_category raw employment) (map pystr employment_names)
      \/ normalize_category raw employment = category_cleaned raw)
  /\ (In (normalize_category raw family) (map pystr family_names)
      \/ ((length (category_cleaned raw) <= 4)%nat
          /\ normalize_category raw family = str_upper (category_cleaned raw))
      \/ ((4 < length (category_cleaned raw))%nat
          /\ normalize_category raw family = category_cleaned raw)).
Proof.
  split; [apply normalize_country_cases|]. split.
  - rewrite normalize_category_employment_rules.
    unfold normalize_employment_with.
    destruct (first_match employment_rules _) as [name|] eqn:E; [|right; reflexivity].
    left. apply first_match_name in E.
    unfold employment_rules, employment_rules_listed in E.
    cbn [drop app map snd In] in E. unfold employment_names. cbn [map In].
    repeat (destruct E as [E|E]; [rewrite <- E; tauto|]). contradiction.
  - unfold normalize_category. fold (category_cleaned raw).
    repeat (case_match; [left; simpl; tauto|]).
    right. destruct (Nat.leb_spec (length (category_cleaned raw)) 4).
    + left. split; [assumption|reflexivity].
    + right. split; [assumption|reflexivity].
Qed.

(** X4.  The country list of a header keeps exactly the cells after the
    first whose cleaned text is not empty: a header cell is dropped only
    when nothing is left of its text after cleaning. *)
Theorem parse_countries_drops_blank_headers (U : Unicode) (header_cells : list tag_cell) :
  str_lower [] = [] ->
  parse_countries header_cells
  = map header_country
      (List.filter (fun cell => nonempty (_clean_text (get_text_strip cell)))
                   (tail header_cells)).
Proof.
  intros Hl. rewrite parse_countries_filter. unfold header_countries.
  induction (tail header_cells) as [|c l IH]; [reflexivity|].
  simpl. rewrite IH. unfold header_country at 1 3.
  destruct (_clean_text (get_text_strip c)) as [|x s] eqn:Ec.
  - rewrite (normalize_country_of_empty _ Hl Ec). reflexivity.
  - destruct (normalize_country (get_text_strip c)) as [|y t] eqn:En; [|reflexivity].
    apply normalize_country_empty in En. congruence.
Qed.

Lemma parse_countries_drops_blank_headers_witness :
  parse_countries (U:=latin1) gap_header
  = map (header_country (U:=latin1)) [td "China"; td "India"; td "Mexico"].
Proof.
  exact (parse_countries_drops_blank_headers latin1 gap_header eq_refl).
Defined.

(** ** Month ranges, addresses and keys *)

Lemma month_range_loop_members fuel : forall y m ey em l,
  month_range_loop fuel y m ey em = Some l ->
  1 <= m <= 12 -> 1 <= em <= 12 ->
  Z.of_nat (length l) = Z.max 0 (12 * (ey - y) + (em - m) + 1)
  /\ (forall a, a ∈ l <-> 1 <= a.2 <= 12 /\ ym_le (y, m) a /\ ym_le a (ey, em))
  /\ NoDup l.
Proof.
  induction fuel as [|fuel IH]; intros y m ey em l; simpl.
  - destruct (tuple_le (y, m) (ey, em)) eqn:E; [discriminate|].
    intros [= <-] Hm Hem. apply tuple_le_false in E.
    unfold ym_lt in E. simpl in E.
    split; [simpl; lia|]. split; [|constructor].
    intros [a1 a2]. rewrite elem_of_nil. unfold ym_le. simpl. lia.
  - destruct (tuple_le (y, m) (ey, em)) eqn:E.
    + destruct (next_month y m) as [y' m'] eqn:En.
      destruct (month_range_loop fuel y' m' ey em) as [r|] eqn:Er; [|discriminate].
      simpl. intros [= <-] Hm Hem.
      apply tuple_le_spec in E. unfold ym_le in E. simpl in E.
      assert (Hn : (m < 12 /\ y' = y /\ m' = m + 1) \/ (m = 12 /\ y' = y + 1 /\ m' = 1)).
      { unfold next_month in En.
        destruct (Z.gtb_spec (m + 1) 12); inversion En; subst; lia. }
      destruct (IH _ _ _ _ _ Er ltac:(lia) Hem) as (Hlen & Hmem & Hnd).
      split; [|split].
      * rewrite length_cons, Nat2Z.inj_succ, Hlen. lia.
      * intros [a1 a2]. rewrite elem_of_cons, Hmem.
        unfold ym_le. simpl. rewrite pair_equal_spec. lia.
      * constructor; [|exact Hnd].
        rewrite Hmem. unfold ym_le. simpl. lia.
    + intros [= <-] Hm Hem. apply tuple_le_false in E.
      unfold ym_lt in E. simpl in E.
      split; [simpl; lia|]. split; [|constructor].
      intros [a1 a2]. rewrite elem_of_nil. unfold ym_le. simpl. lia.
Qed.

(** X5.  Between two calendar months the generator yields each month from
    the start to the end once: a pair is yielded exactly when its month is
    between 1 and 12 and it lies between the bounds, so the number of pairs
    is 12 times the difference of the years plus the difference of the
    months plus one, or zero when that is negative. *)
Theorem generate_month_range_members (start_year start_month end_year end_month : Z) :
  1 <= start_month <= 12 -> 1 <= end_month <= 12 ->
  exists l,
    generate_month_range start_year start_month end_year end_month = Some l
    /\ Z.of_nat (length l)
       = Z.max 0 (12 * (end_year - start_year) + (end_month - start_month) + 1)
    /\ (forall a, a ∈ l <->
          1 <= a.2 <= 12 /\ ym_le (start_year, start_month) a
          /\ ym_le a (end_year, end_month))
    /\ NoDup l.
Proof.
  intros Hs He.
  destruct (generate_month_range_total start_year start_month end_year end_month)
    as [l Hl].
  exists l. split; [exact Hl|].
  exact (month_range_loop_members _ _ _ _ _ _ Hl Hs He).
Qed.

Lemma generate_month_range_members_witness :
  exists l, generate_month_range 2006 1 2026 2 = Some l
            /\ Z.of_nat (length l) = 242.
Proof.
  destruct (generate_month_range_members 2006 1 2026 2 ltac:(lia) ltac:(lia))
    as (l & Hl & Hlen & _).
  exists l. split; [exact Hl|exact Hlen].
Defined.

(** X6.  [get_bulletin_url] raises [IndexError] for a month above 12 or
    below -11.  For a month from -11 to 0 it does not raise: the index
    counts from the end of [MONTH_NAMES], so the address is that of month
    [month + 12], in the path of the calendar year itself. *)
Theorem get_bulletin_url_month_bounds (year month : Z) :
  (month < -11 \/ 12 < month -> get_bulletin_url year month = Raise IndexError)
  /\ (-11 <= month <= 0 ->
      get_bulletin_url year month =
        Ok (pystr "https://travel.state.gov/content/travel/en/legal/visa-law0/visa-bulletin/"
            ++ str_of_int year
            ++ pystr "/visa-bulletin-for-"
            ++ pystr (english_month (month + 12))
            ++ pystr "-" ++ str_of_int year ++ pystr ".html")).
Proof.
  split.
  - intros H. unfold get_bulletin_url, py_getitem.
    change (Z.of_nat (length MONTH_NAMES)) with 12.
    destruct (Z.ltb_spec (month - 1) 0) as [Hneg|Hpos].
    + destruct (Z.leb_spec 0 (month - 1 + 12)); [lia|]. reflexivity.
    + destruct (Z.leb_spec 0 (month - 1)); [|lia].
      destruct (Z.ltb_spec (month - 1) 12); [lia|]. reflexivity.
  - intros H.
    assert (Hfy : get_fiscal_year year month = year).
    { unfold get_fiscal_year. destruct (Z.geb_spec month 10); [lia|reflexivity]. }
    unfold get_bulletin_url. rewrite Hfy.
    assert (Hc : month = 0 \/ month = -1 \/ month = -2 \/ month = -3 \/ month = -4
                 \/ month = -5 \/ month = -6 \/ month = -7 \/ month = -8
                 \/ month = -9 \/ month = -10 \/ month = -11) by lia.
    repeat (destruct Hc as [->|Hc]; [reflexivity|]). subst. reflexivity.
Qed.

Lemma get_bulletin_url_month_bounds_witness :
  get_bulletin_url 2025 13 = Raise IndexError
  /\ get_bulletin_url 2025 0 =
       Ok (pystr "https://travel.state.gov/content/travel/en/legal/visa-law0/visa-bulletin/2025/visa-bulletin-for-december-2025.html").
Proof.
  destruct (get_bulletin_url_month_bounds 2025 13) as [H13 _].
  destruct (get_bulletin_url_month_bounds 2025 0) as [_ H0].
  split; [apply H13; lia|apply H0; lia].
Defined.

Lemma month_key_inj y m y' m' :
  1 <= m <= 12 -> 1 <= m' <= 12 ->
  month_key y m = month_key y' m' -> y = y' /\ m = m'.
Proof.
  intros Hm Hm'. unfold month_key.
  rewrite (format_02d_month m), (format_02d_month m') by lia.
  rewrite !zero_padded_2, !app_assoc. intros H.
  assert (Hlen : length (str_of_int y ++ pystr "-") = length (str_of_int y' ++ pystr "-")).
  { apply (f_equal (@length N)) in H. rewrite !length_app in H.
    rewrite !length_app. cbn [length] in H. lia. }
  apply app_inj_1 in H; [|exact Hlen]. destruct H as [Hy Hd].
  apply app_inj_tail in Hy. destruct Hy as [Hy _].
  apply str_of_int_inj in Hy.
  inversion Hd as [[H1 H0]].
  apply Z2N.inj in H1; [|Z.div_mod_to_equations; lia|Z.div_mod_to_equations; lia].
  apply Z2N.inj in H0; [|Z.div_mod_to_equations; lia|Z.div_mod_to_equations; lia].
  rewrite !Z.div_1_r in H0. split; [assumption|Z.div_mod_to_equations; lia].
Qed.

Lemma NoDup_map_inj_on {A B} (f : A -> B) (l : list A) :
  (forall x y, x ∈ l -> y ∈ l -> f x = f y -> x = y) ->
  NoDup l -> NoDup (map f l).
Proof.
  intros Hinj Hnd. induction Hnd as [|x l Hx Hnd IH]; [constructor|].
  simpl. constructor.
  - intros Hin. apply list_elem_of_In, in_map_iff in Hin.
    destruct Hin as (y & Hy & Hyl). apply list_elem_of_In in Hyl.
    assert (y = x).
    { apply Hinj; [apply elem_of_cons; right; exact Hyl
                  |apply elem_of_cons; left; reflexivity|exact Hy]. }
    subst y. contradiction.
  - apply IH. intros a b Ha Hb. apply Hinj; apply elem_of_cons; right; assumption.
Qed.

(** X7.  On calendar months the key [f"{y}-{m:02d}"] under which a bulletin
    is stored tells year and month apart: two months with the same key are
    the same month.  Hence the keys of the months of a generated range are
    pairwise different. *)
Theorem month_keys_distinct (start_year start_month end_year end_month : Z) :
  1 <= start_month <= 12 -> 1 <= end_month <= 12 ->
  (forall y m y' m', 1 <= m <= 12 -> 1 <= m' <= 12 ->
     month_key y m = month_key y' m' -> y = y' /\ m = m')
  /\ exists l,
       generate_month_range start_year start_month end_year end_month = Some l
       /\ NoDup (map (fun a => month_key a.1 a.2) l).
Proof.
  intros Hs He. split; [exact month_key_inj|].
  destruct (generate_month_range_total start_year start_month end_year end_month)
    as [l Hl].
  exists l. split; [exact Hl|].
  destruct (month_range_loop_members _ _ _ _ _ _ Hl Hs He) as (_ & Hmem & Hnd).
  apply NoDup_map_inj_on; [|exact Hnd].
  intros [y m] [y' m'] Ha Hb Hk. simpl in Hk.
  apply Hmem in Ha, Hb. simpl in Ha, Hb.
  destruct (month_key_inj y m y' m' ltac:(tauto) ltac:(tauto) Hk) as [-> ->].
  reflexivity.
Qed.

Lemma month_keys_distinct_witness :
  exists l, generate_month_range 2024 11 2025 2 = Some l
            /\ NoDup (map (fun a => month_key a.1 a.2) l).
Proof.
  destruct (month_keys_distinct 2024 11 2025 2 ltac:(lia) ltac:(lia)) as [_ H].
  exact H.
Defined.

(** ** Dates in ISO form *)

Section IsoProperties.
Context {U : Unicode} {L : UnicodeLaws U}.

Lemma digit_decimal k : 0 <= k <= 9 -> decimal (Z.to_N (48 + k)) = Some k.
Proof.
  intros H. rewrite decimal_ascii by lia. f_equal. lia.
Qed.

Lemma digit_is_decimal k : 0 <= k <= 9 -> is_decimal (Z.to_N (48 + k)) = true.
Proof. intros H. unfold is_decimal. rewrite (digit_decimal k H). reflexivity. Qed.

Lemma char_is_decimal c : (48 <= c <= 57)%N -> is_decimal c = true.
Proof. intros H. unfold is_decimal. rewrite decimal_ascii by exact H. reflexivity. Qed.

Lemma digit_nonspace k : 0 <= k <= 9 -> isspace (Z.to_N (48 + k)) = false.
Proof. intros H. exact (decimal_nonspace _ _ (digit_decimal k H)). Qed.

Lemma digits_trimmed (ks : list Z) :
  Forall (fun k => 0 <= k <= 9) ks ->
  trimmed (map (fun k => Z.to_N (48 + k)) ks).
Proof.
  intros H.
  assert (Hall : forall c, c ∈ map (fun k => Z.to_N (48 + k)) ks -> isspace c = false).
  { intros c Hc. apply list_elem_of_In, in_map_iff in Hc.
    destruct Hc as (k & <- & Hk). apply list_elem_of_In in Hk.
    rewrite Forall_forall in H. apply digit_nonspace, H, Hk. }
  split; intros c Hc; apply Hall.
  - apply head_Some_elem_of. exact Hc.
  - apply last_Some_elem_of. exact Hc.
Qed.

(** [int] of a row of digits *)
Lemma py_int_digits (ks : list Z) :
  Forall (fun k => 0 <= k <= 9) ks -> ks <> [] ->
  py_int (map (fun k => Z.to_N (48 + k)) ks)
  = Ok (foldl (fun a k => 10 * a + k) 0 ks).
Proof.
  intros H Hne. unfold py_int.
  rewrite (trimmed_str_strip _ (digits_trimmed ks H)).
  destruct ks as [|k0 ks0] eqn:Eks; [contradiction|]. rewrite <- Eks in *.
  assert (E : map (fun k => Z.to_N (48 + k)) ks
              = Z.to_N (48 + k0) :: map (fun k => Z.to_N (48 + k)) ks0)
    by (rewrite Eks; reflexivity).
  rewrite E at 1. rewrite <- E. clear E Eks Hne.
  generalize 0 as a. induction H as [|k ks Hk _ IH]; intros a; [reflexivity|].
  simpl. rewrite (digit_decimal k Hk). apply IH.
Qed.

Lemma py_int_zero_padded_4 y : 0 <= y <= 9999 -> py_int (zero_padded 4 y) = Ok y.
Proof.
  intros H.
  change (zero_padded 4 y)
    with (map (fun k => Z.to_N (48 + k))
              [(y / 1000) mod 10; (y / 100) mod 10; (y / 10) mod 10; (y / 1) mod 10]).
  rewrite py_int_digits; [|repeat constructor; Z.div_mod_to_equations; lia|discriminate].
  f_equal. simpl. Z.div_mod_to_equations. lia.
Qed.

Lemma py_int_zero_padded_2 n : 0 <= n <= 99 -> py_int (zero_padded 2 n) = Ok n.
Proof.
  intros H.
  change (zero_padded 2 n)
    with (map (fun k => Z.to_N (48 + k)) [(n / 10) mod 10; (n / 1) mod 10]).
  rewrite py_int_digits; [|repeat constructor; Z.div_mod_to_equations; lia|discriminate].
  f_equal. simpl. Z.div_mod_to_equations. lia.
Qed.

Lemma re_group_year_zero_padded y rest :
  0 <= y <= 9999 ->
  re_group_year 4 (zero_padded 4 y ++ rest) = [(zero_padded 4 y, rest)].
Proof.
  intros H. unfold re_group_year. rewrite zero_padded_4.
  cbn [app take drop length Nat.eqb forallb andb].
  rewrite !digit_is_decimal by (Z.div_mod_to_equations; lia).
  reflexivity.
Qed.

End IsoProperties.

Section IsoRoundTrip.
Context {U : Unicode} {L : UnicodeLaws U}.

Ltac compute_padded :=
  repeat match goal with
         | |- context [zero_padded ?w ?n] =>
             let v := eval vm_compute in (zero_padded w n) in
             change (zero_padded w n) with v
         end.

(** The month group on two digits: the candidates that are followed by a
    hyphen come down to the two digits themselves. *)
Lemma re_group_m_zero_padded {X} m rest (k : text -> text -> list X) :
  1 <= m <= 12 ->
  ('(mm, r3) ← re_group_m (zero_padded 2 m ++ 45%N :: rest);
   r4 ← re_literal 45 r3; k mm r4)
  = k (zero_padded 2 m) rest.
Proof.
  intros H.
  assert (Hc : m = 1 \/ m = 2 \/ m = 3 \/ m = 4 \/ m = 5 \/ m = 6 \/ m = 7
               \/ m = 8 \/ m = 9 \/ m = 10 \/ m = 11 \/ m = 12) by lia.
  repeat (destruct Hc as [->|Hc];
          [compute_padded; cbn; rewrite !app_nil_r; reflexivity|]).
  subst. compute_padded. cbn. rewrite !app_nil_r. reflexivity.
Qed.

(** The day group on two digits at the end of the text: the first
    candidate is the two digits, with nothing left. *)
Lemma re_group_d_zero_padded {X} d (k : text -> text -> X) :
  1 <= d <= 31 ->
  head ('(dd, r5) ← re_group_d (zero_padded 2 d); [k dd r5])
  = Some (k (zero_padded 2 d) []).
Proof.
  intros H.
  assert (Hc : d = 1 \/ d = 2 \/ d = 3 \/ d = 4 \/ d = 5 \/ d = 6 \/ d = 7
               \/ d = 8 \/ d = 9 \/ d = 10 \/ d = 11 \/ d = 12 \/ d = 13
               \/ d = 14 \/ d = 15 \/ d = 16 \/ d = 17 \/ d = 18 \/ d = 19
               \/ d = 20 \/ d = 21 \/ d = 22 \/ d = 23 \/ d = 24 \/ d = 25
               \/ d = 26 \/ d = 27 \/ d = 28 \/ d = 29 \/ d = 30 \/ d = 31) by lia.
  repeat (destruct Hc as [->|Hc];
          [compute_padded; unfold re_group_d; cbn;
           rewrite ?char_is_decimal by lia; reflexivity|]).
  subst. compute_padded. unfold re_group_d. cbn.
  rewrite ?char_is_decimal by lia. reflexivity.
Qed.

Lemma make_date_bounds y m d dt :
  make_date y m d = Ok dt ->
  dt = {| year := y; month := m; day := d |}
  /\ 1 <= y <= 9999 /\ 1 <= m <= 12 /\ 1 <= d <= 31.
Proof.
  unfold make_date. case_match eqn:E; [|discriminate].
  intros [= <-]. split; [reflexivity|].
  repeat (apply andb_true_iff in E; destruct E as [E ?]).
  assert (days_in_month y m <= 31).
  { unfold days_in_month. repeat case_match; lia. }
  lia.
Qed.

Lemma re_match_Ymd_strftime y m d :
  0 <= y <= 9999 -> 1 <= m <= 12 -> 1 <= d <= 31 ->
  re_match_Ymd (zero_padded 4 y ++ 45%N :: zero_padded 2 m ++ 45%N :: zero_padded 2 d)
  = Some (zero_padded 4 y, zero_padded 2 m, zero_padded 2 d, []).
Proof.
  intros Hy Hm Hd. unfold re_match_Ymd.
  rewrite re_group_year_zero_padded by lia.
  cbn [mbind list_bind re_literal N.eqb Pos.eqb app]. rewrite !app_nil_r.
  rewrite (re_group_m_zero_padded m (zero_padded 2 d)
             (fun mm r4 => '(dd, r5) ← re_group_d r4; [(zero_padded 4 y, mm, dd, r5)]))
    by lia.
  apply (re_group_d_zero_padded d
           (fun dd r5 => (zero_padded 4 y, zero_padded 2 m, dd, r5))). lia.
Qed.

(** Reading back a date in ISO form. *)
Lemma strptime_isoformat y m d dt :
  make_date y m d = Ok dt -> strptime_Ymd (isoformat dt) = Ok dt.
Proof.
  intros Hdt. destruct (make_date_bounds _ _ _ _ Hdt) as (-> & Hy & Hm & Hd).
  unfold strptime_Ymd, isoformat. cbn [year month day].
  change (pystr "-") with [45%N].
  change (zero_padded 4 y ++ [45%N] ++ zero_padded 2 m ++ [45%N] ++ zero_padded 2 d)
    with (zero_padded 4 y ++ 45%N :: zero_padded 2 m ++ 45%N :: zero_padded 2 d).
  rewrite re_match_Ymd_strftime by lia.
  rewrite py_int_zero_padded_4 by lia. res_simpl.
  rewrite py_int_zero_padded_2 by lia. res_simpl.
  rewrite py_int_zero_padded_2 by lia. res_simpl.
  exact Hdt.
Qed.

(** Reading back what [strftime] wrote, from the year 1000 on. *)
Lemma strptime_strftime_Ymd y m d dt :
  make_date y m d = Ok dt -> 1000 <= y ->
  strptime_Ymd (strftime_Ymd dt) = Ok dt.
Proof.
  intros Hdt Hy. destruct (make_date_bounds _ _ _ _ Hdt) as (E & Hy' & _).
  rewrite strftime_Ymd_isoformat by (subst dt; cbn [year]; lia).
  exact (strptime_isoformat y m d dt Hdt).
Qed.

(** Four digits are asked of the year: a text with a hyphen among its
    first four characters is refused. *)
Lemma re_match_Ymd_short ds rest :
  (length ds < 4)%nat -> is_decimal 45 = false ->
  re_match_Ymd (ds ++ 45%N :: rest) = None.
Proof.
  intros Hlen Hhyphen. unfold re_match_Ymd, re_group_year.
  assert (E : forallb is_decimal (take 4 (ds ++ 45%N :: rest)) = false).
  { destruct (forallb is_decimal (take 4 (ds ++ 45%N :: rest))) eqn:E; [|reflexivity].
    rewrite forallb_forall in E.
    rewrite <- Hhyphen. symmetry. apply E. apply list_elem_of_In.
    apply (list_elem_of_lookup_2 _ (length ds)).
    rewrite lookup_take_lt by exact Hlen.
    rewrite lookup_app_r by lia. rewrite Nat.sub_diag. reflexivity. }
  rewrite E, andb_false_r. reflexivity.
Qed.

(** Below the year 1000 what [strftime] wrote is not read back. *)
Lemma strptime_strftime_Ymd_short y m d dt :
  make_date y m d = Ok dt -> y < 1000 -> is_decimal 45 = false ->
  strptime_Ymd (strftime_Ymd dt) = Raise ValueError.
Proof.
  intros Hdt Hy Hhyphen. destruct (make_date_bounds _ _ _ _ Hdt) as (-> & Hy' & _).
  unfold strptime_Ymd, strftime_Ymd. cbn [year month day].
  change (pystr "-" ++ zero_padded 2 m ++ pystr "-" ++ zero_padded 2 d)
    with (45%N :: (zero_padded 2 m ++ pystr "-" ++ zero_padded 2 d)).
  rewrite re_match_Ymd_short; [reflexivity| |exact Hhyphen].
  apply str_of_int_short. lia.
Qed.

End IsoRoundTrip.

(** ** Charts *)

Section ChartProperties.
Context {U : Unicode}.

Lemma strptime_Ymd_raise s e : strptime_Ymd s = Raise e -> e = ValueError.
Proof.
  unfold strptime_Ymd.
  destruct (re_match_Ymd s) as [[[[y m] d] rest]|]; [|congruence].
  destruct rest; [|congruence].
  destruct (py_int y) as [yy|e1] eqn:Ey; res_simpl.
  2:{ intros [= ?]; subst. eapply py_int_raise, Ey. }
  destruct (py_int m) as [mm|e2] eqn:Em; res_simpl.
  2:{ intros [= ?]; subst. eapply py_int_raise, Em. }
  destruct (py_int d) as [dd|e3] eqn:Ed; res_simpl.
  2:{ intros [= ?]; subst. eapply py_int_raise, Ed. }
  apply make_date_raise.
Qed.

Lemma parse_priority_date_for_chart_ok today pd_str bulletin_month :
  exists r, parse_priority_date_for_chart today pd_str bulletin_month = Ok r.
Proof.
  unfold parse_priority_date_for_chart.
  repeat case_bool_decide.
  - destruct bulletin_month as [bm|]; [|eauto].
    destruct (nonempty bm); [|eauto].
    destruct (strptime_Ymd (bm ++ pystr "-01")) as [dt|e] eqn:E; res_simpl; simpl; [eauto|].
    apply strptime_Ymd_raise in E. subst e. eauto.
  - eauto.
  - destruct (strptime_Ymd pd_str) as [dt|e] eqn:E; res_simpl; simpl; [eauto|].
    apply strptime_Ymd_raise in E. subst e. eauto.
Qed.

Lemma strptime_valid s fmt dt :
  strptime s fmt = Ok dt -> exists y m d, make_date y m d = Ok dt.
Proof.
  unfold strptime.
  destruct (re_match_date fmt s) as [[[[d b] y] rest]|]; [|discriminate].
  destruct rest; [|discriminate].
  destruct (py_int y) as [yy|]; [|discriminate]. res_simpl.
  destruct (list_index (str_lower b) a_month) as [mm|]; [|discriminate]. res_simpl.
  destruct (py_int d) as [dd|]; [|discriminate]. res_simpl.
  eauto.
Qed.

Lemma strftime_Ymd_length dt : (6 <= length (strftime_Ymd dt))%nat.
Proof.
  unfold strftime_Ymd. rewrite !length_app.
  change (length (pystr "-")) with 1%nat.
  change (length (zero_padded 2 (month dt))) with 2%nat.
  change (length (zero_padded 2 (day dt))) with 2%nat. lia.
Qed.

Lemma strftime_Ymd_no_letter dt (x : string) :
  (length (pystr x) < 6)%nat -> strftime_Ymd dt <> pystr x.
Proof.
  intros H E. pose proof (strftime_Ymd_length dt) as Hl. rewrite E in Hl. lia.
Qed.

Lemma parse_priority_date_for_chart_date today dt bulletin_month :
  parse_priority_date_for_chart today (strftime_Ymd dt) bulletin_month
  = try_except_ValueError
      (d ← strptime_Ymd (strftime_Ymd dt); Ok (Some d)) (Ok None).
Proof.
  unfold parse_priority_date_for_chart.
  rewrite !bool_decide_eq_false_2; [reflexivity|..];
    apply strftime_Ymd_no_letter; cbn; lia.
Qed.

End ChartProperties.

(** X8.  Whether the chart reads back a date that [parse_date] has written
    depends on the year.  From the year 1000 on, and so for every date of
    the format with a two-digit year, [strftime] writes the ISO form,
    [strptime] in the format ["%Y-%m-%d"] gives the date again, and so does
    [parse_priority_date_for_chart], whatever the bulletin month.  Below
    the year 1000 [strftime] writes fewer than four digits for the year,
    [strptime] refuses the text and the chart leaves the date out; the
    hyphen is taken to be no decimal digit. *)
Theorem chart_reads_parsed_dates (U : Unicode) (L : UnicodeLaws U)
    (today : datetime) (s : text) (fmt : date_format) (dt : datetime)
    (bulletin_month : option text) :
  strptime s fmt = Ok dt ->
  (1000 <= year dt ->
     strftime_Ymd dt = isoformat dt
     /\ strptime_Ymd (strftime_Ymd dt) = Ok dt
     /\ parse_priority_date_for_chart today (strftime_Ymd dt) bulletin_month
        = Ok (Some dt))
  /\ (fmt = DDMonYY -> 1000 <= year dt)
  /\ (year dt < 1000 -> is_decimal 45 = false ->
      strptime_Ymd (strftime_Ymd dt) = Raise ValueError
      /\ parse_priority_date_for_chart today (strftime_Ymd dt) bulletin_month
         = Ok None).
Proof.
  intros H. destruct (strptime_valid s fmt dt H) as (y & m & d & Hdt).
  destruct (make_date_bounds _ _ _ _ Hdt) as (E & Hy & _).
  assert (Ey : year dt = y) by (subst dt; reflexivity).
  split; [|split].
  - intros Hyear.
    pose proof (strptime_strftime_Ymd y m d dt Hdt ltac:(lia)) as Hrt.
    split; [apply strftime_Ymd_isoformat; lia|]. split; [exact Hrt|].
    rewrite parse_priority_date_for_chart_date, Hrt. reflexivity.
  - intros ->.
    destruct (strptime_two_digit_year s dt H)
      as (_ & _ & _ & _ & v1 & v2 & _ & _ & _ & Hr & Hyear).
    rewrite Hyear. destruct (10 * v1 + v2 <=? 68); lia.
  - intros Hyear Hhyphen.
    pose proof (strptime_strftime_Ymd_short y m d dt Hdt ltac:(lia) Hhyphen) as Hrt.
    split; [exact Hrt|].
    rewrite parse_priority_date_for_chart_date, Hrt. reflexivity.
Qed.

Lemma chart_reads_parsed_dates_witness :
  parse_priority_date_for_chart (U:=latin1) {| year := 2026; month := 1; day := 1 |}
    (pystr "2023-02-01") None
  = Ok (Some {| year := 2023; month := 2; day := 1 |})
  /\ parse_priority_date_for_chart (U:=latin1) {| year := 2026; month := 1; day := 1 |}
       (pystr "999-02-01") None
     = Ok None.
Proof.
  split.
  - exact (proj2 (proj2 (proj1 (chart_reads_parsed_dates latin1 latin1_laws
                    {| year := 2026; month := 1; day := 1 |}
                    (pystr "01FEB23") DDMonYY
                    {| year := 2023; month := 2; day := 1 |} None eq_refl)
                    ltac:(cbn; lia)))).
  - exact (proj2 (proj2 (proj2 (chart_reads_parsed_dates latin1 latin1_laws
                    {| year := 2026; month := 1; day := 1 |}
                    (pystr "01FEB0999") DDMonYYYY
                    {| year := 999; month := 2; day := 1 |} None eq_refl))
                    ltac:(cbn; lia) eq_refl)).
Defined.

(** X9.  [parse_priority_date_for_chart] never raises.  "U" gives no date.
    "C" with the key of a bulletin month of a four-digit year gives the
    first day of that month; "C" without a month, or with a month that is
    empty, gives today. *)
Theorem chart_current_and_unavailable (U : Unicode) (L : UnicodeLaws U)
    (today : datetime) :
  (forall pd_str bulletin_month,
     exists r, parse_priority_date_for_chart today pd_str bulletin_month = Ok r)
  /\ (forall bulletin_month,
        parse_priority_date_for_chart today (pystr "U") bulletin_month = Ok None)
  /\ (forall y m,
        1000 <= y <= 9999 -> 1 <= m <= 12 ->
        parse_priority_date_for_chart today (pystr "C") (Some (month_key y m))
        = Ok (Some {| year := y; month := m; day := 1 |}))
  /\ parse_priority_date_for_chart today (pystr "C") None = Ok (Some today)
  /\ parse_priority_date_for_chart today (pystr "C") (Some []) = Ok (Some today).
Proof.
  split; [intros; apply parse_priority_date_for_chart_ok|].
  split; [reflexivity|]. split; [|split; reflexivity].
  intros y m Hy Hm.
  assert (Hdt : make_date y m 1 = Ok {| year := y; month := m; day := 1 |}).
  { unfold make_date.
    assert (1 <= days_in_month y m).
    { unfold days_in_month. repeat case_match; lia. }
    rewrite !(proj2 (Z.leb_le _ _)) by lia. reflexivity. }
  pose proof (strptime_strftime_Ymd y m 1 _ Hdt ltac:(lia)) as Hrt.
  unfold parse_priority_date_for_chart.
  rewrite bool_decide_eq_true_2 by reflexivity.
  assert (Hk : month_key y m ++ pystr "-01"
               = strftime_Ymd {| year := y; month := m; day := 1 |}).
  { unfold month_key, strftime_Ymd. cbn [year month day].
    rewrite str_of_int_four_digits, format_02d_month by lia.
    rewrite <- !app_assoc. reflexivity. }
  assert (Hne : nonempty (month_key y m) = true).
  { unfold month_key. rewrite str_of_int_four_digits by lia. reflexivity. }
  rewrite Hne, Hk, Hrt. reflexivity.
Qed.

Lemma chart_current_and_unavailable_witness :
  parse_priority_date_for_chart (U:=latin1) {| year := 2026; month := 1; day := 1 |}
    (pystr "C") (Some (month_key 2024 3))
  = Ok (Some {| year := 2024; month := 3; day := 1 |}).
Proof.
  destruct (chart_current_and_unavailable latin1 latin1_laws
              {| year := 2026; month := 1; day := 1 |}) as (_ & _ & H & _).
  apply H; lia.
Defined.

Section PlotProperties.
Context {U : Unicode}.

Lemma plot_trend_row_point today months dates current_markers row :
  plot_trend_row today (months, dates, current_markers) row
  = Ok match chart_point today row with
       | Some (bm, date, current) =>
           (months ++ [bm], dates ++ [date],
            if current then current_markers ++ [length months]
            else current_markers)
       | None => (months, dates, current_markers)
       end.
Proof.
  destruct row as [bm pd_val]. unfold plot_trend_row, chart_point. cbn [fst snd].
  destruct (parse_priority_date_for_chart_ok today pd_val (Some bm)) as [r ->].
  res_simpl. destruct r as [date|]; [|reflexivity].
  rewrite length_app. cbn [length].
  replace (length months + 1 - 1)%nat with (length months) by lia.
  case_bool_decide; reflexivity.
Qed.

Lemma plot_trend_loop today trend_data : forall months dates current_markers,
  length dates = length months ->
  for_each (plot_trend_row today) (months, dates, current_markers) trend_data
  = Ok (months ++ map (fun p => p.1.1) (chart_points today trend_data),
        dates ++ map (fun p => p.1.2) (chart_points today trend_data),
        current_markers
        ++ current_positions (length months) (chart_points today trend_data)).
Proof.
  induction trend_data as [|row rows IH]; intros months dates current_markers Hlen.
  - cbn. rewrite !app_nil_r. reflexivity.
  - cbn [for_each]. rewrite plot_trend_row_point. res_simpl.
    unfold chart_points. cbn [omap list_omap].
    fold (chart_points today rows).
    destruct (chart_point today row) as [[[bm date] current]|].
    + rewrite IH by (rewrite !length_app; cbn; lia).
      rewrite length_app. cbn [length map current_positions fst snd].
      replace (length months + 1)%nat with (S (length months)) by lia.
      rewrite <- !app_assoc. cbn [app].
      destruct current; [rewrite <- app_assoc|]; reflexivity.
    + apply IH, Hlen.
Qed.

Lemma pick_current_positions {A} (f : text * datetime * bool -> A) points :
  forall before : list A,
  pick (before ++ map f points) (current_positions (length before) points)
  = Ok (map f (List.filter (fun p => p.2) points)).
Proof.
  induction points as [|p points IH]; intros before; [reflexivity|].
  assert (Hrest : pick (before ++ map f (p :: points))
                       (current_positions (S (length before)) points)
                  = Ok (map f (List.filter (fun p => p.2) points))).
  { specialize (IH (before ++ [f p])).
    rewrite length_app, <- app_assoc in IH. cbn [length app] in IH.
    replace (length before + 1)%nat with (S (length before)) in IH by lia.
    exact IH. }
  cbn [current_positions List.filter].
  destruct (p.2); [|exact Hrest].
  cbn [pick]. rewrite Hrest. unfold list_get.
  rewrite lookup_app_r by lia. rewrite Nat.sub_diag. reflexivity.
Qed.

End PlotProperties.

(** X10.  [plot_trend] never raises, and what it draws is determined row by
    row: the main trace holds, in order, the month and the date of every row
    whose priority date [parse_priority_date_for_chart] turns into a date
    (so months and dates have one length); the trace of current points holds
    exactly those of them whose priority date is "C", and is drawn only when
    there is one; the chart is the empty one only when no row has a date. *)
Theorem plot_trend_points (U : Unicode) (today : datetime)
    (trend_data : list (text * text)) :
  let points := chart_points today trend_data in
  let current := List.filter (fun p => p.2) points in
  let xs (l : list (text * datetime * bool)) := map (fun p => p.1.1) l in
  let ys (l : list (text * datetime * bool)) := map (fun p => p.1.2) l in
  plot_trend today trend_data
  = Ok (if nonempty points
        then Traces (xs points) (ys points)
               (if nonempty current then Some (xs current, ys current) else None)
        else No_data_available)
  /\ length (xs points) = length (ys points)
  /\ Forall (fun p => exists pd_val,
               (p.1.1, pd_val) ∈ trend_data
               /\ pd_val <> pystr "U"
               /\ parse_priority_date_for_chart today pd_val (Some p.1.1)
                  = Ok (Some p.1.2)
               /\ (p.2 = true <-> pd_val = pystr "C")) points.
Proof.
  intros points current xs ys. split; [|split].
  - unfold plot_trend.
    rewrite (plot_trend_loop today trend_data [] [] [] eq_refl). res_simpl.
    cbn [app length]. fold points.
    subst current xs ys. cbn beta. clearbody points.
    assert (Hc : forall i, nonempty (current_positions i points)
                 = nonempty (List.filter (fun p => p.2) points)).
    { induction points as [|q qs IH]; intros i; [reflexivity|].
      cbn [current_positions List.filter]. destruct (q.2); [reflexivity|apply IH]. }
    rewrite Hc.
    pose proof (pick_current_positions (fun p => p.1.1) points []) as Hx.
    pose proof (pick_current_positions (fun p => p.1.2) points []) as Hy.
    cbn [app length] in Hx, Hy. rewrite Hx, Hy. clear Hx Hy Hc.
    destruct points as [|p points']; [reflexivity|].
    cbn [map nonempty negb].
    destruct (nonempty _); reflexivity.
  - subst xs ys. cbn beta. rewrite !length_map. reflexivity.
  - apply Forall_forall. intros p Hp.
    apply list_elem_of_omap in Hp as ([bm pd_val] & Hin & Hpt).
    unfold chart_point in Hpt. cbn [fst snd] in Hpt.
    destruct (parse_priority_date_for_chart today pd_val (Some bm))
      as [[date|]|] eqn:Ed; try discriminate.
    injection Hpt as <-. cbn [fst snd].
    exists pd_val. split; [exact Hin|]. split; [|split; [exact Ed|]].
    + intros ->. discriminate Ed.
    + rewrite bool_decide_eq_true. reflexivity.
Qed.

(** ** The index page *)

Section IndexProperties.
Context {U : Unicode} {L : UnicodeLaws U}.

Lemma py_int_four_decimals y :
  length y = 4%nat -> forallb is_decimal y = true ->
  exists v, py_int y = Ok v /\ 0 <= v <= 9999.
Proof.
  intros Hlen Hdec.
  destruct y as [|a [|b [|c [|d [|]]]]]; try discriminate Hlen.
  cbn [forallb] in Hdec. unfold is_decimal in Hdec.
  destruct (decimal a) as [va|] eqn:Ea; [|discriminate].
  destruct (decimal b) as [vb|] eqn:Eb; [|discriminate].
  destruct (decimal c) as [vc|] eqn:Ec; [|discriminate].
  destruct (decimal d) as [vd|] eqn:Ed; [|discriminate].
  pose proof (decimal_bound _ _ Ea). pose proof (decimal_bound _ _ Eb).
  pose proof (decimal_bound _ _ Ec). pose proof (decimal_bound _ _ Ed).
  exists (10 * (10 * (10 * (10 * 0 + va) + vb) + vc) + vd). split; [|lia].
  unfold py_int. rewrite trimmed_str_strip.
  - cbn [foldl]. res_simpl. rewrite Ea. res_simpl. rewrite Eb. res_simpl.
    rewrite Ec. res_simpl. rewrite Ed. reflexivity.
  - split; cbn; intros ? [= <-]; eapply decimal_nonspace; eassumption.
Qed.

Lemma re_index_tail_inv s y :
  re_index_tail s = Some y -> length y = 4%nat /\ forallb is_decimal y = true.
Proof.
  unfold re_index_tail. destruct s as [|c r]; [discriminate|].
  destruct c as [|p]; [discriminate|].
  do 6 (try (destruct p as [p|p|]; try discriminate)).
  destruct (re_group_year 4 r) as [|[y' r'] l] eqn:E; [discriminate|].
  destruct (str_startswith _ r'); [|discriminate]. intros [= <-].
  destruct (re_group_year_inv 4 r y' r') as (_ & H1 & H2); [|auto].
  rewrite E. apply list_elem_of_here.
Qed.

Lemma re_index_word_inv n s g y :
  re_index_word n s = Some (g, y) ->
  length y = 4%nat /\ forallb is_decimal y = true.
Proof.
  induction n as [|n IH]; [discriminate|].
  cbn [re_index_word].
  destruct (re_index_tail (drop (S n) s)) as [y'|] eqn:E; [|exact IH].
  intros [= _ <-]. eapply re_index_tail_inv, E.
Qed.

Lemma re_index_at_inv s g y :
  re_index_at s = Some (g, y) ->
  length y = 4%nat /\ forallb is_decimal y = true.
Proof.
  unfold re_index_at. destruct (str_startswith _ s); [|discriminate].
  apply re_index_word_inv.
Qed.

Lemma re_search_index_inv s g y :
  re_search_index s = Some (g, y) ->
  length y = 4%nat /\ forallb is_decimal y = true.
Proof.
  induction s as [|c s IH]; cbn [re_search_index].
  - destruct (re_index_at []) as [g'|] eqn:E; [|discriminate].
    intros [= ->]. eapply re_index_at_inv, E.
  - destruct (re_index_at (c :: s)) as [g'|] eqn:E; [|exact IH].
    intros [= ->]. eapply re_index_at_inv, E.
Qed.

Lemma list_index_elem_of x l :
  x ∈ l -> exists i, list_index x l = Ok i /\ 0 <= i < Z.of_nat (length l).
Proof.
  induction l as [|y l IH]; intros H; [apply elem_of_nil in H; contradiction|].
  cbn [list_index length]. case_bool_decide as E.
  - exists 0. split; [reflexivity|lia].
  - apply elem_of_cons in H as [H|H]; [contradiction|].
    destruct (IH H) as (i & -> & Hi). res_simpl. exists (i + 1). split; [reflexivity|lia].
Qed.

Lemma check_link_listed bulletins href :
  listed bulletins ->
  exists bulletins', check_link bulletins href = Ok bulletins'
                     /\ listed bulletins'
                     /\ bulletins `prefix_of` bulletins'.
Proof.
  intros [Hnd Hall]. unfold check_link.
  destruct (re_search_index href) as [[g1 g2]|] eqn:E;
    [|exists bulletins; split; [reflexivity|split; [split; assumption|reflexivity]]].
  destruct (re_search_index_inv _ _ _ E) as [Hlen Hdec].
  destruct (py_int_four_decimals g2 Hlen Hdec) as (year & -> & Hyear). res_simpl.
  case_bool_decide as Hin;
    [|exists bulletins; split; [reflexivity|split; [split; assumption|reflexivity]]].
  destruct (list_index_elem_of _ _ Hin) as (i & -> & Hi). res_simpl.
  change (Z.of_nat (length MONTH_NAMES)) with 12 in Hi.
  case_bool_decide as Hseen;
    [exists bulletins; split; [reflexivity|split; [split; assumption|reflexivity]]|].
  eexists. split; [reflexivity|]. split; [split|].
  - apply NoDup_app. split; [exact Hnd|]. split; [|apply NoDup_singleton].
    intros b Hb Hb'. apply list_elem_of_singleton in Hb'. subst b. contradiction.
  - apply Forall_app. split; [exact Hall|]. constructor; [|constructor].
    cbn [fst snd]. repeat split; lia.
  - apply prefix_app_r. reflexivity.
Qed.

Lemma check_links_listed hrefs : forall bulletins,
  listed bulletins ->
  exists bulletins', for_each check_link bulletins hrefs = Ok bulletins'
                     /\ listed bulletins'
                     /\ bulletins `prefix_of` bulletins'.
Proof.
  induction hrefs as [|href hrefs IH]; intros bulletins H.
  - exists bulletins. split; [reflexivity|]. split; [exact H|reflexivity].
  - cbn [for_each].
    destruct (check_link_listed bulletins href H) as (b1 & -> & H1 & P1). res_simpl.
    destruct (IH b1 H1) as (b2 & -> & H2 & P2).
    exists b2. split; [reflexivity|]. split; [exact H2|].
    etransitivity; eassumption.
Qed.

End IndexProperties.

(** X11.  [check_latest_bulletin] never raises on the links of a page, and
    its list holds no entry twice; every entry has a year of four digits
    read as a number, a month from 1 to 12 and, as its month string, the
    key of that year and month; so no year and month is listed twice
    either, and [get_bulletin_url] has a URL for every entry. *)
Theorem check_latest_bulletin_entries (U : Unicode) (L : UnicodeLaws U)
    (hrefs : list text) :
  exists bulletins,
    check_latest_bulletin hrefs = Ok bulletins
    /\ NoDup bulletins
    /\ NoDup (map fst bulletins)
    /\ Forall (fun b => 0 <= b.1.1 <= 9999 /\ 1 <= b.1.2 <= 12
                        /\ b.2 = month_key b.1.1 b.1.2
                        /\ exists url, get_bulletin_url b.1.1 b.1.2 = Ok url)
         bulletins.
Proof.
  destruct (check_links_listed hrefs []) as (bulletins & E & [Hnd Hall] & _).
  { split; constructor. }
  exists bulletins. split; [exact E|]. split; [exact Hnd|]. split.
  - apply NoDup_map_inj_on; [|exact Hnd].
    intros [a s] [b t] Ha Hb. cbn [fst]. intros <-.
    rewrite Forall_forall in Hall.
    destruct (Hall _ Ha) as (_ & _ & Hs). destruct (Hall _ Hb) as (_ & _ & Ht).
    cbn [fst snd] in Hs, Ht. congruence.
  - eapply Forall_impl; [exact Hall|].
    intros [[y m] s] (Hy & Hm & Hs). cbn [fst snd] in *.
    repeat split; try lia; try assumption.
    unfold get_bulletin_url, py_getitem.
    change (Z.of_nat (length MONTH_NAMES)) with 12.
    rewrite (proj2 (Z.ltb_ge _ _)) by lia.
    replace ((0 <=? m - 1) && (m - 1 <? 12)) with true by lia.
    destruct (MONTH_NAMES !! Z.to_nat (m - 1)) as [name|] eqn:En.
    + res_simpl. eauto.
    + apply lookup_ge_None in En. change (length MONTH_NAMES) with 12%nat in En. lia.
Qed.

Lemma check_latest_bulletin_entries_witness :
  exists bulletins,
    check_latest_bulletin (U:=latin1)
      [ pystr "/visa-bulletin/2024/visa-bulletin-for-may-2024.html";
        pystr "visa-bulletin-for-May-2024.html";
        pystr "visa-bulletin-for-smarch-2024.html" ]
    = Ok bulletins
    /\ NoDup bulletins
    /\ NoDup (map fst bulletins)
    /\ Forall (fun b => 0 <= b.1.1 <= 9999 /\ 1 <= b.1.2 <= 12
                        /\ b.2 = month_key b.1.1 b.1.2
                        /\ exists url, get_bulletin_url b.1.1 b.1.2 = Ok url)
         bulletins.
Proof.
  exact (check_latest_bulletin_entries latin1 latin1_laws
           [ pystr "/visa-bulletin/2024/visa-bulletin-for-may-2024.html";
             pystr "visa-bulletin-for-May-2024.html";
             pystr "visa-bulletin-for-smarch-2024.html" ]).
Defined.

Section IndexRoundTrip.
Context {U : Unicode} {L : UnicodeLaws U}.

Lemma str_startswith_take p : forall t s,
  str_startswith (take (length t) p) t = false ->
  str_startswith p (t ++ s) = false.
Proof.
  induction p as [|a p IH]; intros t s H.
  - rewrite take_nil in H. destruct t; discriminate H.
  - destruct t as [|b t]; [discriminate H|].
    cbn [length take str_startswith app] in *.
    destruct (N.eqb a b); [|reflexivity]. cbn [andb] in *. apply IH, H.
Qed.

Lemma re_search_index_skip pre s :
  no_index_match pre = true ->
  re_search_index (pre ++ s) = re_search_index s.
Proof.
  induction pre as [|c pre IH]; intros H; [reflexivity|].
  cbn [no_index_match] in H. apply andb_true_iff in H as [H1 H2].
  apply negb_true_iff in H1.
  change ((c :: pre) ++ s) with (c :: (pre ++ s)).
  cbn [re_search_index]. unfold re_index_at at 1.
  change (c :: (pre ++ s)) with ((c :: pre) ++ s) at 1.
  rewrite (str_startswith_take _ _ s H1). apply IH, H2.
Qed.

Lemma no_index_match_chars ds :
  Forall (fun c => c <> 118%N) ds -> no_index_match ds = true.
Proof.
  induction 1 as [|c ds Hc Hds IH]; [reflexivity|].
  cbn [no_index_match]. rewrite IH, andb_true_r.
  cbn [length take pystr map list_ascii_of_string str_startswith].
  change (N_of_ascii "v") with 118%N.
  destruct (N.eqb_spec 118 c) as [E|E]; [congruence|reflexivity].
Qed.

Lemma re_word_run_app w c s :
  forallb isword w = true -> isword c = false ->
  re_word_run (w ++ c :: s) = length w.
Proof.
  intros Hw Hc. induction w as [|a w IH]; cbn [app re_word_run length].
  - rewrite Hc. reflexivity.
  - cbn [forallb] in Hw. apply andb_true_iff in Hw as [-> Hw]. rewrite IH by exact Hw.
    reflexivity.
Qed.

Lemma re_index_at_name name y rest :
  name <> [] -> forallb isword name = true -> isword 45 = false ->
  0 <= y <= 9999 ->
  re_index_at (pystr "visa-bulletin-for-" ++ name ++ pystr "-"
               ++ zero_padded 4 y ++ pystr ".html" ++ rest)
  = Some (name, zero_padded 4 y).
Proof.
  intros Hne Hw Hh Hy. unfold re_index_at.
  rewrite str_startswith_self.
  change 18%nat with (length (pystr "visa-bulletin-for-")).
  rewrite drop_app_length.
  change (pystr "-" ++ zero_padded 4 y ++ pystr ".html" ++ rest)
    with (45%N :: (zero_padded 4 y ++ pystr ".html" ++ rest)).
  rewrite re_word_run_app by assumption.
  destruct name as [|a name']; [contradiction|].
  cbn [length re_index_word].
  change (S (length name')) with (length (a :: name')).
  rewrite drop_app_length, take_app_length.
  unfold re_index_tail.
  rewrite re_group_year_zero_padded by exact Hy.
  rewrite str_startswith_self. reflexivity.
Qed.

Lemma re_search_index_here s g :
  re_index_at s = Some g -> re_search_index s = Some g.
Proof. intros H. destruct s; cbn [re_search_index]; rewrite H; reflexivity. Qed.

Lemma english_month_index month :
  1 <= month <= 12 ->
  pystr (english_month month) ∈ MONTH_NAMES
  /\ pystr (english_month month) <> []
  /\ list_index (pystr (english_month month)) MONTH_NAMES = Ok (month - 1).
Proof.
  intros H.
  assert (Hc : month = 1 \/ month = 2 \/ month = 3 \/ month = 4 \/ month = 5
               \/ month = 6 \/ month = 7 \/ month = 8 \/ month = 9
               \/ month = 10 \/ month = 11 \/ month = 12) by lia.
  repeat (destruct Hc as [->|Hc];
          [split; [apply (bool_decide_unpack _); vm_compute; exact I
                  |split; [discriminate|vm_compute; reflexivity]]|]).
  subst. split; [apply (bool_decide_unpack _); vm_compute; exact I
                |split; [discriminate|vm_compute; reflexivity]].
Qed.

Lemma re_search_index_bulletin_url year month url :
  (forall name, name ∈ MONTH_NAMES -> forallb isword name = true) ->
  isword 45 = false ->
  1000 <= year <= 9999 -> 1 <= month <= 12 ->
  get_bulletin_url year month = Ok url ->
  re_search_index url
  = Some (pystr (english_month month), zero_padded 4 year).
Proof.
  intros Hnames Hhyphen Hy Hm. unfold get_bulletin_url.
  rewrite (MONTH_NAMES_english month Hm). res_simpl. intros [= <-].
  destruct (english_month_index month Hm) as (Hin & Hne & _).
  rewrite (str_of_int_four_digits year Hy).
  set (fy := get_fiscal_year year month).
  set (name := pystr (english_month month)) in *.
  transitivity
    (re_search_index
       ((BASE_URL ++ pystr "/content/travel/en/legal/visa-law0/visa-bulletin"
         ++ pystr "/")
        ++ str_of_int fy ++ pystr "/"
        ++ (pystr "visa-bulletin-for-" ++ name ++ pystr "-"
            ++ zero_padded 4 year ++ pystr ".html" ++ []))).
  { rewrite app_nil_r, <- !app_assoc. reflexivity. }
  rewrite re_search_index_skip by (vm_compute; reflexivity).
  rewrite re_search_index_skip.
  2:{ apply no_index_match_chars.
      eapply Forall_impl; [apply str_of_int_chars|].
      intros c [Hc| ->]; [|discriminate]. intros ->. lia. }
  rewrite re_search_index_skip by reflexivity.
  apply re_search_index_here, re_index_at_name; auto. lia.
Qed.

Lemma check_link_bulletin_url bulletins year month url :
  (forall name, name ∈ MONTH_NAMES ->
     forallb isword name = true /\ str_lower name = name) ->
  isword 45 = false ->
  1000 <= year <= 9999 -> 1 <= month <= 12 ->
  get_bulletin_url year month = Ok url ->
  check_link bulletins url
  = Ok (if bool_decide ((year, month, month_key year month) ∈ bulletins)
        then bulletins
        else bulletins ++ [(year, month, month_key year month)]).
Proof.
  intros Hnames Hhyphen Hy Hm Hurl. unfold check_link.
  rewrite (re_search_index_bulletin_url year month url); auto.
  2:{ intros name Hn. apply Hnames, Hn. }
  destruct (english_month_index month Hm) as (Hin & _ & Hidx).
  rewrite (proj2 (Hnames _ Hin)).
  rewrite py_int_zero_padded_4 by lia. res_simpl.
  rewrite bool_decide_eq_true_2 by exact Hin.
  rewrite Hidx. res_simpl.
  replace (month - 1 + 1) with month by lia. case_bool_decide; reflexivity.
Qed.

End IndexRoundTrip.

(** X12.  The index page gives back what [get_bulletin_url] was given: for
    months of years of four digits, no month twice, the list that
    [check_latest_bulletin] makes of their URLs holds, in the same order,
    each year and month with its key.  What is asked of the characters is
    that the letters of the month names are word characters in lower case
    and that the hyphen is no word character. *)
Theorem check_latest_bulletin_of_urls (U : Unicode) (L : UnicodeLaws U)
    (months : list (Z * Z)) (urls : list text) :
  (forall name, name ∈ MONTH_NAMES ->
     forallb isword name = true /\ str_lower name = name) ->
  isword 45 = false ->
  Forall (fun a => 1000 <= a.1 <= 9999 /\ 1 <= a.2 <= 12) months ->
  NoDup months ->
  Forall2 (fun a url => get_bulletin_url a.1 a.2 = Ok url) months urls ->
  check_latest_bulletin urls
  = Ok (map (fun a => (a.1, a.2, month_key a.1 a.2)) months).
Proof.
  intros Hnames Hhyphen Hvalid Hnd Hurls. unfold check_latest_bulletin.
  set (entry := fun a : Z * Z => (a.1, a.2, month_key a.1 a.2)).
  enough (H : forall before,
             (forall a, a ∈ months -> entry a ∉ before) ->
             for_each check_link before urls = Ok (before ++ map entry months))
    by (apply (H []); intros a _ Ha; apply elem_of_nil in Ha; exact Ha).
  induction Hurls as [|[y m] url months urls Hurl Hurls IH]; intros before Hfresh.
  - cbn. rewrite app_nil_r. reflexivity.
  - cbn [for_each map]. cbn [fst snd] in Hurl.
    apply Forall_cons in Hvalid as [[Hy Hm] Hvalid]. cbn [fst snd] in Hy, Hm.
    apply NoDup_cons in Hnd as [Hnew Hnd].
    rewrite (check_link_bulletin_url before y m url Hnames Hhyphen Hy Hm Hurl).
    res_simpl.
    rewrite bool_decide_eq_false_2 by (apply (Hfresh (y, m)), list_elem_of_here).
    rewrite (IH Hvalid Hnd).
    + rewrite <- app_assoc. reflexivity.
    + intros a Ha Hin. apply elem_of_app in Hin as [Hin|Hin].
      * apply (Hfresh a); [apply list_elem_of_further, Ha|exact Hin].
      * apply list_elem_of_singleton in Hin. unfold entry in Hin.
        destruct a as [y' m']. cbn [fst snd] in Hin.
        injection Hin as -> -> _. contradiction.
Qed.

Lemma check_latest_bulletin_of_urls_witness :
  check_latest_bulletin (U:=latin1)
    [ pystr "https://travel.state.gov/content/travel/en/legal/visa-law0/visa-bulletin/2026/visa-bulletin-for-october-2025.html";
      pystr "https://travel.state.gov/content/travel/en/legal/visa-law0/visa-bulletin/2024/visa-bulletin-for-may-2024.html" ]
  = Ok [ (2025, 10, pystr "2025-10"); (2024, 5, pystr "2024-05") ].
Proof.
  apply (check_latest_bulletin_of_urls latin1 latin1_laws [(2025, 10); (2024, 5)]).
  - intros name Hn. unfold MONTH_NAMES in Hn. cbn [map] in Hn.
    repeat (apply elem_of_cons in Hn as [->|Hn]; [split; reflexivity|]).
    apply elem_of_nil in Hn. contradiction.
  - reflexivity.
  - repeat constructor; cbn; lia.
  - apply (bool_decide_unpack _). vm_compute. exact I.
  - repeat constructor.
Defined.

(** ** The tables of the application *)

Section ViewProperties.

Lemma elem_of_List_filter {A} (f : A -> bool) (l : list A) (x : A) :
  x ∈ List.filter f l <-> x ∈ l /\ f x = true.
Proof.
  rewrite !list_elem_of_In. apply filter_In.
Qed.

Lemma NoDup_List_filter {A} (f : A -> bool) (l : list A) :
  NoDup l -> NoDup (List.filter f l).
Proof.
  rewrite !NoDup_ListNoDup. apply List.NoDup_filter.
Qed.

Lemma monthly_lookup_snoc filtered r :
  monthly_lookup (filtered ++ [r])
  = <[(category r, country r) := priority_date r]> (monthly_lookup filtered).
Proof. unfold monthly_lookup. rewrite foldl_app. reflexivity. Qed.

Lemma find_date_app data1 data2 tt vt cat cty :
  find_date (data1 ++ data2) tt vt cat cty
  = match find_date data1 tt vt cat cty with
    | Some d => Some d
    | None => find_date data2 tt vt cat cty
    end.
Proof.
  induction data1 as [|r data1 IH]; [reflexivity|].
  cbn [app find_date]. destruct (_ && _); [reflexivity|exact IH].
Qed.

Lemma monthly_lookup_last data tt vt cat cty :
  monthly_lookup (List.filter (selected tt vt) data) !! (cat, cty)
  = find_date (reverse data) tt vt cat cty.
Proof.
  induction data as [|r data IH] using rev_ind; [reflexivity|].
  rewrite List.filter_app, reverse_app. cbn [List.filter reverse app].
  change (reverse [r]) with [r]. cbn [app find_date].
  destruct (selected tt vt r) eqn:Es; cbn [andb].
  - rewrite monthly_lookup_snoc.
    case_bool_decide as Ec; cbn [andb].
    + case_bool_decide as Ey.
      * subst. apply lookup_insert_eq.
      * rewrite lookup_insert_ne by congruence. exact IH.
    + rewrite lookup_insert_ne by congruence. exact IH.
  - rewrite app_nil_r. exact IH.
Qed.

Lemma find_date_unique data tt vt cat cty :
  NoDup (map (fun r => (category r, country r))
             (List.filter (selected tt vt) data)) ->
  find_date (reverse data) tt vt cat cty = find_date data tt vt cat cty.
Proof.
  induction data as [|r data IH]; [reflexivity|].
  rewrite reverse_cons, find_date_app. cbn [List.filter find_date].
  destruct (selected tt vt r) eqn:Es; cbn [andb map].
  - intros Hnd. apply NoDup_cons in Hnd as [Hnew Hnd].
    rewrite (IH Hnd).
    destruct (bool_decide (category r = cat) && bool_decide (country r = cty)) eqn:Ek.
    + apply andb_true_iff in Ek as [Ec Ey].
      apply bool_decide_eq_true in Ec, Ey. subst.
      destruct (find_date data tt vt (category r) (country r)) as [d|] eqn:Ef;
        [|reflexivity].
      exfalso. apply Hnew. clear -Ef.
      induction data as [|q data IH]; [discriminate|].
      cbn [find_date List.filter] in *.
      destruct (selected tt vt q); cbn [andb] in *; [|auto].
      cbn [map]. destruct (bool_decide (category q = category r)
                           && bool_decide (country q = country r)) eqn:Eq.
      * apply andb_true_iff in Eq as [E1 E2].
        apply bool_decide_eq_true in E1, E2. rewrite E1, E2. apply list_elem_of_here.
      * apply list_elem_of_further. auto.
    + destruct (find_date data tt vt cat cty); reflexivity.
  - intros Hnd. rewrite (IH Hnd).
    destruct (find_date data tt vt cat cty); reflexivity.
Qed.

End ViewProperties.

(** X13.  A cell of the Monthly View holds the priority date of the last row
    of the month that has the table type, the visa type, the category and
    the country, where [find_date] of the Compare page returns that of the
    first such row; when no two rows of the selection share category and
    country, both pages show the same value. *)
Theorem monthly_view_and_compare_agree (data : list record)
    (table_type_key : tabletype) (visa_type_key : visatype) (cat cty : text) :
  monthly_cell data table_type_key visa_type_key cat cty
  = default [] (find_date (reverse data) table_type_key visa_type_key cat cty)
  /\ (NoDup (map (fun r => (category r, country r))
                 (List.filter (selected table_type_key visa_type_key) data)) ->
      monthly_cell data table_type_key visa_type_key cat cty
      = or_else (find_date data table_type_key visa_type_key cat cty) []).
Proof.
  unfold monthly_cell. rewrite monthly_lookup_last.
  split; [reflexivity|]. intros Hnd.
  rewrite (find_date_unique _ _ _ _ _ Hnd).
  destruct (find_date data _ _ cat cty) as [[|c s]|]; reflexivity.
Qed.

Lemma monthly_view_and_compare_agree_witness :
  monthly_cell
    [ mk_record final_action employment "EB-1" "India" "2022-02-01";
      mk_record filing employment "EB-1" "India" "2022-06-01";
      mk_record final_action employment "EB-2" "India" "2012-01-01" ]
    final_action employment (pystr "EB-1") (pystr "India")
  = pystr "2022-02-01".
Proof.
  refine (proj2 (monthly_view_and_compare_agree _ final_action employment
                   (pystr "EB-1") (pystr "India")) _).
  apply (bool_decide_unpack _). vm_compute. exact I.
Defined.

(** X14.  The order of the rows and columns of a table: when the preferred
    names and the names present are each without repetition, the ordered
    list holds every name present exactly once; the preferred names that are
    present come first, in the preferred order, and the others follow in
    the order they had. *)
Theorem ordered_permutation (order actual : list text) :
  NoDup order -> NoDup actual ->
  ordered order actual ≡ₚ actual
  /\ NoDup (ordered order actual)
  /\ ordered order actual
     = List.filter (fun c => bool_decide (c ∈ actual)) order
       ++ List.filter (fun c => negb (bool_decide (c ∈ order))) actual.
Proof.
  intros Ho Ha.
  assert (E : ordered order actual
              = List.filter (fun c => bool_decide (c ∈ actual)) order
                ++ List.filter (fun c => negb (bool_decide (c ∈ order))) actual).
  { unfold ordered. f_equal. apply filter_ext_in. intros c Hc.
    apply list_elem_of_In in Hc. f_equal.
    apply bool_decide_ext. rewrite elem_of_List_filter.
    rewrite bool_decide_eq_true. tauto. }
  assert (Hnd : NoDup (ordered order actual)).
  { rewrite E. apply NoDup_app. split; [apply NoDup_List_filter, Ho|].
    split; [|apply NoDup_List_filter, Ha].
    intros c H1 H2. apply elem_of_List_filter in H1 as [H1 _].
    apply elem_of_List_filter in H2 as [_ H2].
    apply negb_true_iff, bool_decide_eq_false in H2. contradiction. }
  split; [|split; assumption].
  apply NoDup_Permutation; [exact Hnd|exact Ha|].
  intros c. rewrite E, elem_of_app, !elem_of_List_filter.
  rewrite bool_decide_eq_true, negb_true_iff, bool_decide_eq_false.
  destruct (decide (c ∈ order)); tauto.
Qed.

Lemma ordered_permutation_witness :
  ordered (map pystr ["F1"; "F2A"; "F2B"; "F3"; "F4"]%string)
          (map pystr ["F2A"; "F4"; "FX"]%string)
  ≡ₚ map pystr ["F2A"; "F4"; "FX"]%string.
Proof.
  refine (proj1 (ordered_permutation _ _ _ _));
    apply (bool_decide_unpack _); vm_compute; exact I.
Defined.

(** ** Movement *)

Section OrdinalProperties.

Lemma days_before_year_succ y :
  days_before_year (y + 1)
  = days_before_year y + 365 + (if is_leap y then 1 else 0).
Proof.
  unfold days_before_year, is_leap. cbn zeta.
  replace (y + 1 - 1) with y by lia.
  destruct (Z.eqb_spec (y mod 4) 0), (Z.eqb_spec (y mod 100) 0),
           (Z.eqb_spec (y mod 400) 0); cbn [andb orb negb];
    Z.div_mod_to_equations; lia.
Qed.

Lemma days_before_year_mono y y' :
  y <= y' -> days_before_year y <= days_before_year y'.
Proof.
  intros H. unfold days_before_year. cbn zeta.
  Z.div_mod_to_equations. lia.
Qed.

Lemma make_date_valid y m d dt :
  make_date y m d = Ok dt ->
  1 <= y <= 9999 /\ 1 <= m <= 12 /\ 1 <= d <= days_in_month y m.
Proof.
  unfold make_date. case_match eqn:E; [|discriminate]. intros _.
  repeat (apply andb_true_iff in E; destruct E as [E ?]). lia.
Qed.

Lemma day_of_year_bounds y m d dt :
  make_date y m d = Ok dt ->
  1 <= days_before_month y m + d <= 365 + (if is_leap y then 1 else 0).
Proof.
  intros H. apply make_date_valid in H as (_ & Hm & Hd).
  assert (Hc : m = 1 \/ m = 2 \/ m = 3 \/ m = 4 \/ m = 5 \/ m = 6 \/ m = 7
               \/ m = 8 \/ m = 9 \/ m = 10 \/ m = 11 \/ m = 12) by lia.
  clear Hm. unfold days_before_month. revert Hd. unfold days_in_month.
  destruct (is_leap y);
    repeat (destruct Hc as [->|Hc]; [cbn; lia|]); subst; cbn; lia.
Qed.

Lemma day_of_year_lt y m d m' d' dt dt' :
  make_date y m d = Ok dt -> make_date y m' d' = Ok dt' ->
  m < m' ->
  days_before_month y m + d < days_before_month y m' + d'.
Proof.
  intros H H'. apply make_date_valid in H as (_ & Hm & Hd).
  apply make_date_valid in H' as (_ & Hm' & Hd').
  intros Hlt.
  assert (Hstep : forall k, 1 <= k <= 11 ->
            days_before_month y k + days_in_month y k = days_before_month y (k + 1)).
  { intros k Hk.
    assert (Hc : k = 1 \/ k = 2 \/ k = 3 \/ k = 4 \/ k = 5 \/ k = 6 \/ k = 7
                 \/ k = 8 \/ k = 9 \/ k = 10 \/ k = 11) by lia.
    unfold days_before_month, days_in_month.
    repeat (destruct Hc as [->|Hc]; [cbn; destruct (is_leap y); reflexivity|]).
    subst. cbn. destruct (is_leap y); reflexivity. }
  assert (Hmono : forall k k', 1 <= k -> k <= k' -> k' <= 12 ->
            days_before_month y k <= days_before_month y k').
  { intros k k' H1 H2 H3.
    assert (Hc : k = 1 \/ k = 2 \/ k = 3 \/ k = 4 \/ k = 5 \/ k = 6 \/ k = 7
                 \/ k = 8 \/ k = 9 \/ k = 10 \/ k = 11 \/ k = 12) by lia.
    assert (Hc' : k' = 1 \/ k' = 2 \/ k' = 3 \/ k' = 4 \/ k' = 5 \/ k' = 6 \/ k' = 7
                 \/ k' = 8 \/ k' = 9 \/ k' = 10 \/ k' = 11 \/ k' = 12) by lia.
    unfold days_before_month.
    destruct (is_leap y);
      repeat (destruct Hc as [->|Hc]);
      repeat (destruct Hc' as [->|Hc']); subst; cbn; lia. }
  pose proof (Hstep m ltac:(lia)). pose proof (Hmono (m + 1) m' ltac:(lia) ltac:(lia) ltac:(lia)).
  lia.
Qed.

Lemma toordinal_lt a b :
  (exists y m d, make_date y m d = Ok a) ->
  (exists y m d, make_date y m d = Ok b) ->
  date_lt a b -> toordinal a < toordinal b.
Proof.
  intros (y & m & d & Ha) (y' & m' & d' & Hb).
  destruct (make_date_bounds _ _ _ _ Ha) as (-> & _).
  destruct (make_date_bounds _ _ _ _ Hb) as (-> & _).
  unfold date_lt, toordinal. cbn [year month day].
  intros [Hy|[<- [Hm|[<- Hd]]]].
  - pose proof (day_of_year_bounds _ _ _ _ Ha).
    pose proof (day_of_year_bounds _ _ _ _ Hb).
    pose proof (days_before_year_succ y).
    pose proof (days_before_year_mono (y + 1) y' ltac:(lia)).
    lia.
  - pose proof (day_of_year_lt _ _ _ _ _ _ _ Ha Hb Hm). lia.
  - lia.
Qed.

End OrdinalProperties.

Section MovementProperties.
Context {U : Unicode} {L : UnicodeLaws U}.

Lemma strftime_Ymd_no_sentinel dt :
  nonempty (strftime_Ymd dt) = true
  /\ in_tuple (strftime_Ymd dt) ["C"; "U"]%string = false.
Proof.
  pose proof (strftime_Ymd_length dt) as Hl. split.
  - destruct (strftime_Ymd dt); [cbn in Hl; lia|reflexivity].
  - unfold in_tuple. apply bool_decide_eq_false. intros H.
    repeat (apply elem_of_cons in H as [H|H];
            [rewrite H in Hl; cbn in Hl; lia|]).
    apply elem_of_nil in H. exact H.
Qed.

Lemma calc_movement_ok val_a val_b :
  exists s, calc_movement val_a val_b = Ok s.
Proof.
  unfold calc_movement.
  destruct (negb (nonempty val_a) || negb (nonempty val_b)); [eauto|].
  destruct (negb (in_tuple val_a _) && negb (in_tuple val_b _)).
  - destruct (strptime_Ymd val_a) as [da|e] eqn:Ea; res_simpl.
    2:{ apply strptime_Ymd_raise in Ea. subst e. cbn. eauto. }
    destruct (strptime_Ymd val_b) as [db|e] eqn:Eb; res_simpl.
    2:{ apply strptime_Ymd_raise in Eb. subst e. cbn. eauto. }
    cbn. eauto.
  - repeat (case_bool_decide; cbn [andb]); eauto.
Qed.

Lemma toordinal_order a b :
  (exists y m d, make_date y m d = Ok a) ->
  (exists y m d, make_date y m d = Ok b) ->
  (0 < toordinal b - toordinal a <-> date_lt a b)
  /\ (toordinal b - toordinal a = 0 <-> a = b).
Proof.
  intros Ha Hb.
  assert (Htri : date_lt a b \/ a = b \/ date_lt b a).
  { destruct a as [y m d], b as [y' m' d']. unfold date_lt. cbn [year month day].
    destruct (Z.lt_trichotomy y y') as [?|[->|?]]; [lia| |lia].
    destruct (Z.lt_trichotomy m m') as [?|[->|?]]; [lia| |lia].
    destruct (Z.lt_trichotomy d d') as [?|[->|?]]; [lia| |lia].
    right. left. reflexivity. }
  pose proof (toordinal_lt a b Ha Hb) as Hab.
  pose proof (toordinal_lt b a Hb Ha) as Hba.
  split; split.
  - intros H. destruct Htri as [Hlt|[->|Hgt]]; [exact Hlt|lia|].
    specialize (Hba Hgt). lia.
  - intros H. specialize (Hab H). lia.
  - intros H. destruct Htri as [Hlt|[E|Hgt]]; [|exact E|].
    + specialize (Hab Hlt). lia.
    + specialize (Hba Hgt). lia.
  - intros ->. lia.
Qed.

End MovementProperties.

(** X15.  [calc_movement] never raises.  For two dates that [parse_date]
    has written with years from 1000 on, the movement is the number of days
    from the first to the second, with a plus sign exactly when the second
    date is the later one, and it is 0 exactly when the dates are equal.
    When one of the two years is below 1000 the text [strftime] wrote is
    not read back and the movement is the empty string; the hyphen is taken
    to be no decimal digit.  Two "C" give "Current"; a value that becomes
    "C" gives "Became Current" and a "C" that becomes another value gives
    "Retrogressed"; an empty value gives the empty string, and so does "U"
    beside a value other than "C". *)
Theorem calc_movement_cases (U : Unicode) (L : UnicodeLaws U) :
  (forall val_a val_b, exists s, calc_movement val_a val_b = Ok s)
  /\ (forall da db,
        (exists y m d, make_date y m d = Ok da) ->
        (exists y m d, make_date y m d = Ok db) ->
        let delta := toordinal db - toordinal da in
        (1000 <= year da -> 1000 <= year db ->
           calc_movement (strftime_Ymd da) (strftime_Ymd db)
           = Ok ((if 0 <? delta then pystr "+" else []) ++ str_of_int delta))
        /\ (year da < 1000 \/ year db < 1000 -> is_decimal 45 = false ->
            calc_movement (strftime_Ymd da) (strftime_Ymd db) = Ok [])
        /\ (0 < delta <-> date_lt da db)
        /\ (delta = 0 <-> da = db))
  /\ calc_movement (pystr "C") (pystr "C") = Ok (pystr "Current")
  /\ (forall val_a, val_a <> [] -> val_a <> pystr "C" ->
        calc_movement val_a (pystr "C") = Ok (pystr "Became Current"))
  /\ (forall val_b, val_b <> [] -> val_b <> pystr "C" ->
        calc_movement (pystr "C") val_b = Ok (pystr "Retrogressed"))
  /\ (forall val, calc_movement val [] = Ok [] /\ calc_movement [] val = Ok [])
  /\ (forall val, val <> pystr "C" ->
        calc_movement val (pystr "U") = Ok []
        /\ calc_movement (pystr "U") val = Ok []).
Proof.
  split; [intros; apply calc_movement_ok|].
  split.
  { intros da db Ha Hb delta.
    split; [|split; [|apply toordinal_order; assumption]].
    - intros Hya Hyb. unfold calc_movement.
      destruct (strftime_Ymd_no_sentinel da) as [-> ->].
      destruct (strftime_Ymd_no_sentinel db) as [-> ->].
      cbn [negb orb andb].
      destruct Ha as (y & m & d & Ha). destruct Hb as (y' & m' & d' & Hb).
      destruct (make_date_bounds _ _ _ _ Ha) as (Ea & _).
      destruct (make_date_bounds _ _ _ _ Hb) as (Eb & _).
      rewrite (strptime_strftime_Ymd _ _ _ _ Ha)
        by (rewrite Ea in Hya; exact Hya). res_simpl.
      rewrite (strptime_strftime_Ymd _ _ _ _ Hb)
        by (rewrite Eb in Hyb; exact Hyb). res_simpl.
      reflexivity.
    - intros Hshort Hhyphen. unfold calc_movement.
      destruct (strftime_Ymd_no_sentinel da) as [-> ->].
      destruct (strftime_Ymd_no_sentinel db) as [-> ->].
      cbn [negb orb andb].
      destruct Ha as (y & m & d & Ha). destruct Hb as (y' & m' & d' & Hb).
      destruct (make_date_bounds _ _ _ _ Ha) as (Ea & _).
      destruct (make_date_bounds _ _ _ _ Hb) as (Eb & _).
      assert (Eya : year da = y) by (rewrite Ea; reflexivity).
      assert (Eyb : year db = y') by (rewrite Eb; reflexivity).
      destruct (Z.lt_ge_cases y 1000) as [Hy|Hy].
      + rewrite (strptime_strftime_Ymd_short _ _ _ _ Ha Hy Hhyphen). reflexivity.
      + rewrite (strptime_strftime_Ymd _ _ _ _ Ha Hy). res_simpl.
        rewrite (strptime_strftime_Ymd_short _ _ _ _ Hb ltac:(lia) Hhyphen).
        reflexivity. }
  split; [reflexivity|].
  split.
  { intros val_a Hne Hc. unfold calc_movement.
    destruct val_a as [|c s]; [contradiction|]. cbn [nonempty negb orb].
    replace (in_tuple (pystr "C") ["C"; "U"]%string) with true by reflexivity.
    rewrite andb_false_r.
    rewrite (bool_decide_eq_false_2 _ Hc). reflexivity. }
  split.
  { intros val_b Hne Hc. unfold calc_movement.
    destruct val_b as [|c s]; [contradiction|]. cbn [nonempty negb orb].
    replace (in_tuple (pystr "C") ["C"; "U"]%string) with true by reflexivity.
    cbn [negb andb].
    rewrite (bool_decide_eq_false_2 _ Hc). rewrite andb_false_r. reflexivity. }
  split.
  { intros val. unfold calc_movement. cbn [nonempty negb]. rewrite orb_true_r.
    split; reflexivity. }
  intros val Hc. unfold calc_movement.
  destruct val as [|c s]; [split; reflexivity|]. cbn [nonempty negb orb].
  replace (in_tuple (pystr "U") ["C"; "U"]%string) with true by reflexivity.
  rewrite andb_false_r. cbn [negb andb].
  rewrite (bool_decide_eq_false_2 _ Hc). cbn [andb].
  split; reflexivity.
Qed.

Lemma calc_movement_cases_witness :
  calc_movement (U:=latin1) (pystr "2022-02-01") (pystr "2022-03-15")
  = Ok (pystr "+42")
  /\ calc_movement (U:=latin1) (pystr "999-02-01") (pystr "2022-03-15") = Ok [].
Proof.
  destruct (calc_movement_cases latin1 latin1_laws) as (_ & H & _).
  split.
  - exact (proj1 (H {| year := 2022; month := 2; day := 1 |}
                    {| year := 2022; month := 3; day := 15 |}
                    (ex_intro _ 2022 (ex_intro _ 2 (ex_intro _ 1 eq_refl)))
                    (ex_intro _ 2022 (ex_intro _ 3 (ex_intro _ 15 eq_refl))))
                 ltac:(cbn; lia) ltac:(cbn; lia)).
  - exact (proj1 (proj2 (H {| year := 999; month := 2; day := 1 |}
                    {| year := 2022; month := 3; day := 15 |}
                    (ex_intro _ 999 (ex_intro _ 2 (ex_intro _ 1 eq_refl)))
                    (ex_intro _ 2022 (ex_intro _ 3 (ex_intro _ 15 eq_refl)))))
                 ltac:(left; cbn; lia) eq_refl).
Defined.

Section MultiPlotProperties.
Context {U : Unicode}.

Lemma plot_multi_trend_loop today data : forall months dates,
  for_each (plot_multi_trend_row today) (months, dates) data
  = Ok (months ++ map (fun p => p.1.1) (chart_points today data),
        dates ++ map (fun p => p.1.2) (chart_points today data)).
Proof.
  induction data as [|[bm pd_val] rows IH]; intros months dates.
  - cbn. rewrite !app_nil_r. reflexivity.
  - cbn [for_each]. unfold plot_multi_trend_row at 2.
    unfold chart_points. cbn [omap list_omap]. fold (chart_points today rows).
    unfold chart_point. cbn [fst snd].
    destruct (parse_priority_date_for_chart_ok today pd_val (Some bm)) as [r ->].
    res_simpl. destruct r as [date|].
    + res_simpl. rewrite IH. cbn [map fst snd]. rewrite <- !app_assoc. reflexivity.
    + res_simpl. apply IH.
Qed.

Lemma plot_multi_trend_series_trace today fig item :
  plot_multi_trend_series today fig item
  = Ok (fig ++ option_list (series_trace today item)).
Proof.
  destruct item as [i [label data]]. unfold plot_multi_trend_series, series_trace.
  rewrite plot_multi_trend_loop. res_simpl. cbn [app fst snd].
  destruct (chart_points today data) as [|p points] eqn:E.
  - cbn. rewrite app_nil_r. reflexivity.
  - cbn [map nonempty]. unfold list_get.
    change (length colors) with 10%nat.
    assert (Hi : (i mod 10 < length colors)%nat).
    { change (length colors) with 10%nat. apply Nat.mod_upper_bound. discriminate. }
    destruct (lookup_lt_is_Some_2 colors (i mod 10)%nat Hi) as [c Hc].
    rewrite Hc. res_simpl.
    assert (En : nth (i mod 10) colors [] = c) by (apply nth_lookup_Some, Hc).
    rewrite En. reflexivity.
Qed.

Lemma plot_multi_trend_fold today items : forall fig,
  for_each (plot_multi_trend_series today) fig items
  = Ok (fig ++ omap (series_trace today) items).
Proof.
  induction items as [|item items IH]; intros fig.
  - cbn. rewrite app_nil_r. reflexivity.
  - cbn [for_each]. rewrite plot_multi_trend_series_trace. res_simpl.
    rewrite IH. cbn [omap list_omap].
    destruct (series_trace today item); cbn [option_list app];
      rewrite <- ?app_assoc; reflexivity.
Qed.

End MultiPlotProperties.

(** X16.  [plot_multi_trend] never raises: the index of a colour is always
    within the ten colours.  It draws one trace for every series that has a
    point, in the order of the dictionary; the trace has the months and the
    dates of the main trace [plot_trend] draws for the same rows, and the
    colour at the number of the series, series without points counted,
    modulo ten. *)
Theorem plot_multi_trend_traces (U : Unicode) (today : datetime)
    (trend_data_dict : list (text * list (text * text))) :
  plot_multi_trend today trend_data_dict
  = Ok (omap (series_trace today) (enumerate trend_data_dict))
  /\ Forall (fun item =>
       match series_trace today item with
       | Some t =>
           plot_trend today item.2.2
           = Ok (Traces (trace_x t) (trace_y t)
                   (let current :=
                      List.filter (fun p => p.2) (chart_points today item.2.2) in
                    if nonempty current
                    then Some (map (fun p => p.1.1) current,
                               map (fun p => p.1.2) current)
                    else None))
           /\ length (trace_x t) = length (trace_y t)
           /\ trace_color t ∈ colors
       | None => plot_trend today item.2.2 = Ok No_data_available
       end) (enumerate trend_data_dict).
Proof.
  split.
  - unfold plot_multi_trend. rewrite plot_multi_trend_fold. reflexivity.
  - apply Forall_forall. intros [i [label data]] _.
    unfold series_trace. cbn [fst snd].
    unfold plot_trend.
    rewrite (plot_trend_loop today data [] [] [] eq_refl). res_simpl.
    cbn [app length].
    pose proof (pick_current_positions (fun p => p.1.1) (chart_points today data) [])
      as Hx.
    pose proof (pick_current_positions (fun p => p.1.2) (chart_points today data) [])
      as Hy.
    cbn [app length] in Hx, Hy. rewrite Hx, Hy. clear Hx Hy.
    assert (Hc : forall points i,
              nonempty (current_positions i points)
              = nonempty (List.filter (fun p => p.2) points)).
    { induction points as [|q qs IH]; intros k; [reflexivity|].
      cbn [current_positions List.filter]. destruct (q.2); [reflexivity|apply IH]. }
    rewrite Hc.
    destruct (chart_points today data) as [|p points]; [reflexivity|].
    cbn [map nonempty negb trace_x trace_y trace_color].
    split; [destruct (nonempty _); reflexivity|].
    split; [cbn [length]; rewrite !length_map; reflexivity|].
    apply list_elem_of_In, nth_In.
    change (length colors) with 10%nat. apply Nat.mod_upper_bound. discriminate.
Qed.

(** ** The export *)

Section ExportProperties.

Lemma export_row_lookup data r :
  exists data', export_row data r = Ok data'
    /\ forall month,
         data' !! month
         = if bool_decide (r.1 = month)
           then Some (default [] (data !! month) ++ [r.2])
           else data !! month.
Proof.
  unfold export_row. destruct r as [m rec]. cbn [fst snd].
  case_bool_decide as Hin.
  - apply elem_of_dom in Hin as [l Hl]. rewrite Hl.
    eexists. split; [reflexivity|]. intros month.
    case_bool_decide as E.
    + subst. rewrite lookup_insert_eq, Hl. reflexivity.
    + rewrite lookup_insert_ne by exact E. reflexivity.
  - apply not_elem_of_dom in Hin. rewrite lookup_insert_eq.
    eexists. split; [reflexivity|]. intros month.
    case_bool_decide as E.
    + subst. rewrite lookup_insert_eq, Hin. reflexivity.
    + rewrite !lookup_insert_ne by exact E. reflexivity.
Qed.

Lemma export_rows_lookup rows : forall data,
  exists data', for_each export_row data rows = Ok data'
    /\ forall month,
         data' !! month
         = match rows_of_month month rows with
           | [] => data !! month
           | l => Some (default [] (data !! month) ++ l)
           end.
Proof.
  induction rows as [|r rows IH]; intros data.
  - exists data. split; reflexivity.
  - cbn [for_each].
    destruct (export_row_lookup data r) as (data1 & -> & H1). res_simpl.
    destruct (IH data1) as (data2 & -> & H2).
    exists data2. split; [reflexivity|]. intros month.
    rewrite H2, H1. unfold rows_of_month. cbn [List.filter].
    destruct (bool_decide (r.1 = month)); cbn [map].
    + destruct (map snd _) as [|x l]; [reflexivity|].
      unfold default. cbn [from_option id].
      rewrite <- app_assoc. reflexivity.
    + reflexivity.
Qed.

End ExportProperties.

(** X17.  The grouping of [export] never raises [KeyError] and loses
    nothing: under each month that has a row it holds exactly the records
    of the rows of that month, in the order of the rows, and a month
    without a row is no key. *)
Theorem export_data_groups_by_month (rows : list (text * record)) :
  exists data,
    export_data rows = Ok data
    /\ forall month,
         data !! month
         = match rows_of_month month rows with
           | [] => None
           | l => Some l
           end.
Proof.
  destruct (export_rows_lookup rows ∅) as (data & E & H).
  exists data. split; [exact E|]. intros month. rewrite H, lookup_empty.
  reflexivity.
Qed.
